(** * vmmfuzzer: a shallow embedding of the I/O port fuzzer

    The development follows the C sources:
    - the growable array ([array_*], lib/array.c),
    - the wrapper of the 48-bit generator ([random_*], random.c),
    - the fuzzer object and the instruction dispatcher ([iofuzzer_*],
      [_iofuzzer_*], src/lib/iofuzzer.c and src/lib/i386/io.h),
    - the main program: the port-spec parser and the worker loop
      ([iofuzzer_parse_ports], [thread_start], [main]).

    Target ABI: x86-64 Linux (LP64, little endian): [int] is 32 bits,
    [unsigned long], [size_t] and [uintptr_t] are 64 bits, [double] is IEEE-754
    binary64 and [float] binary32, both rounding to nearest, ties to even.
    C undefined behaviour (NULL or dangling dereference, access outside an
    allocation, out-of-range float-to-integer conversion) is the failure of
    the monad [M].  Mutexes are left out: the embedding is the sequential
    semantics of one worker.  Allocation is assumed to succeed. *)

From Stdlib Require Import ZArith List Lia Bool Strings.Byte Ascii String.
From stdpp Require Import base option list gmap strings.
Import ListNotations.
Open Scope Z_scope.

(** ** Machine integers *)

Definition ULONG_BITS : Z := 64.
Definition ULONG_MAX : Z := 2 ^ ULONG_BITS - 1.

(** Conversion to [unsigned long] / [size_t] / [uintptr_t]: reduction modulo 2^64. *)
Definition to_ulong (z : Z) : Z := z mod 2 ^ ULONG_BITS.

(** Conversion to [unsigned int]. *)
Definition to_uint (z : Z) : Z := z mod 2 ^ 32.

(** ** Bytes and little-endian words *)

Definition byte_val (b : byte) : Z := Z.of_N (Byte.to_N b).

Definition byte_of_Z (z : Z) : byte :=
  match Byte.of_N (Z.to_N (z mod 256)) with
  | Some b => b
  | None => x00
  end.

Fixpoint le_decode (bs : list byte) : Z :=
  match bs with
  | [] => 0
  | b :: bs' => byte_val b + 256 * le_decode bs'
  end.

Fixpoint le_encode (n : nat) (z : Z) : list byte :=
  match n with
  | O => []
  | S n' => byte_of_Z z :: le_encode n' (z / 256)
  end.

(** [memcpy(dst, src, n)] on buffers given by their contents from the pointer
    on; [None] when [n] bytes are not available on either side. *)
Definition memcpy (dst src : list byte) (n : Z) : option (list byte) :=
  if (n <=? Z.of_nat (List.length src)) && (n <=? Z.of_nat (List.length dst))
  then Some (firstn (Z.to_nat n) src ++ skipn (Z.to_nat n) dst)
  else None.

(** ** Binary floating point, non-negative finite values

    [FP m e] is the value [m * 2^e], [0 <= m].  Every operation computes the
    exact result and rounds its significand to [prec] bits, to nearest with
    ties to even.  All values of the program are non-negative and far inside
    the normal range of binary32 and binary64. *)

Record fp := FP { fp_m : Z; fp_e : Z }.

(** [n / 2^sh] rounded to nearest, ties to even ([1 <= sh]). *)
Definition rne (n sh : Z) : Z :=
  let q := n / 2 ^ sh in
  let r := n mod 2 ^ sh in
  let h := 2 ^ (sh - 1) in
  if r <? h then q
  else if h <? r then q + 1
  else if Z.even q then q else q + 1.

Definition fp_round (prec : Z) (x : fp) : fp :=
  let sh := Z.log2 (fp_m x) + 1 - prec in
  if sh <=? 0 then x else FP (rne (fp_m x) sh) (fp_e x + sh).

Definition fp_of_Z (prec : Z) (n : Z) : fp := fp_round prec (FP n 0).

Definition fp_mul (prec : Z) (x y : fp) : fp :=
  fp_round prec (FP (fp_m x * fp_m y) (fp_e x + fp_e y)).

Definition fp_add (prec : Z) (x y : fp) : fp :=
  let e := Z.min (fp_e x) (fp_e y) in
  fp_round prec (FP (fp_m x * 2 ^ (fp_e x - e) + fp_m y * 2 ^ (fp_e y - e)) e).

(** [x - y], used only where [y <= x]. *)
Definition fp_sub (prec : Z) (x y : fp) : fp :=
  let e := Z.min (fp_e x) (fp_e y) in
  fp_round prec (FP (fp_m x * 2 ^ (fp_e x - e) - fp_m y * 2 ^ (fp_e y - e)) e).

(** Conversion to an integer type: truncation towards zero. *)
Definition fp_trunc (x : fp) : Z :=
  if 0 <=? fp_e x then fp_m x * 2 ^ fp_e x else fp_m x / 2 ^ (- fp_e x).

Definition DBL_MANT : Z := 53.
Definition FLT_MANT : Z := 24.

(** ** The heap of generators, [errno], and the monad of C effects *)

Definition EINVAL : Z := 22.
Definition NULL : Z := 0.

(** [struct random]: the mutex is left out. *)
Record random_t := Random { rnd_refcount : Z; rnd_state : list byte }.

(** One port instruction as issued by the dispatcher: the mnemonic index and
    the six register operands. *)
Record io_event := IoEvent {
  io_func : Z; io_a : Z; io_b : Z; io_c : Z; io_d : Z; io_si : Z; io_di : Z
}.

Record world := World {
  errno : Z;
  randoms : gmap Z random_t;   (* live [random_t] objects by address *)
  brk : Z;                     (* next address handed out by the allocator *)
  io_log : list io_event       (* port instructions issued so far, latest first *)
}.

Definition M (A : Type) : Type := world -> option (A * world).

Definition ret {A} (a : A) : M A := fun w => Some (a, w).

Definition bind {A B} (c : M A) (k : A -> M B) : M B :=
  fun w => match c w with
           | Some (a, w') => k a w'
           | None => None
           end.

(** Undefined behaviour. *)
Definition ub {A} : M A := fun _ => None.

Notation "'let*' x ':=' c 'in' k" := (bind c (fun x => k))
  (at level 10, x name, c at level 100, k at level 200).
Notation "c1 ';;;' c2" := (bind c1 (fun _ => c2))
  (at level 100, c2 at level 200, right associativity).

Definition set_errno (e : Z) : M unit :=
  fun w => Some (tt, World e (randoms w) (brk w) (io_log w)).

(** Dereferencing a [random_t *]: undefined for a null or dangling pointer. *)
Definition get_random (p : Z) : M random_t :=
  fun w => if p =? NULL then None
           else match randoms w !! p with
                | Some r => Some (r, w)
                | None => None
                end.

Definition put_random (p : Z) (r : random_t) : M unit :=
  fun w => Some (tt, World (errno w) (<[p := r]> (randoms w)) (brk w) (io_log w)).

Definition free_random (p : Z) : M unit :=
  fun w => Some (tt, World (errno w) (delete p (randoms w)) (brk w) (io_log w)).

(** [calloc]: a bump allocator, every block at a fresh non-null address. *)
Definition calloc (n : Z) : M Z :=
  fun w => Some (brk w, World (errno w) (randoms w) (brk w + Z.max n 1) (io_log w)).

Definition log_io (ev : io_event) : M unit :=
  fun w => Some (tt, World (errno w) (randoms w) (brk w) (ev :: io_log w)).


(** Conversion of a [double] to [unsigned long]; undefined when the value
    does not fit. *)
Definition fp_to_ulong (x : fp) : M Z :=
  if fp_trunc x <=? ULONG_MAX then ret (fp_trunc x) else ub.

(** ** libc: the 48-bit linear congruential generator (POSIX [drand48] family)

    [xsubi] is the three 16-bit lanes at the start of the state buffer, least
    significant lane first. *)

Definition drand48_iterate (X : Z) : Z := (0x5DEECE66D * X + 0xB) mod 2 ^ 48.

(** [erand48(xsubi)]: steps the generator and returns [X / 2^48]. *)
Definition erand48 (st : list byte) : option (fp * list byte) :=
  if (6 <=? List.length st)%nat then
    let X := drand48_iterate (le_decode (firstn 6 st)) in
    Some (FP X (-48), le_encode 6 X ++ skipn 6 st)
  else None.

(** [jrand48(xsubi)]: steps the generator and returns its high 32 bits as a
    signed [long]. *)
Definition jrand48 (st : list byte) : option (Z * list byte) :=
  if (6 <=? List.length st)%nat then
    let X := drand48_iterate (le_decode (firstn 6 st)) in
    let hi := X / 2 ^ 16 in
    Some ((if hi <? 2 ^ 31 then hi else hi - 2 ^ 32), le_encode 6 X ++ skipn 6 st)
  else None.

(** ** random.c *)

Definition MAXSIZE : Z := 256.
Definition MINSIZE : Z := 6.   (* sizeof(unsigned short) * 3 *)

Definition random_double (random : Z) : M fp :=
  let* r := get_random random in
  match erand48 (rnd_state r) with
  | Some (x, st) => put_random random (Random (rnd_refcount r) st) ;;; ret x
  | None => ub
  end.

Definition random_ulong (random : Z) : M Z :=
  let* r := get_random random in
  match jrand48 (rnd_state r) with
  | Some (x, st) => put_random random (Random (rnd_refcount r) st) ;;; ret (to_ulong x)
  | None => ub
  end.

Definition random_ulong_with_range (random : Z) (begin end_ : Z) : M Z :=
  let* x := random_double random in
  fp_to_ulong
    (fp_add DBL_MANT
       (fp_mul DBL_MANT x (fp_of_Z DBL_MANT (to_ulong (end_ - begin + 1))))
       (fp_of_Z DBL_MANT begin)).

(** random.h: [#define random_number random_ulong] and
    [#define random_number_with_range random_ulong_with_range]. *)
Definition random_number := random_ulong.
Definition random_number_with_range := random_ulong_with_range.

Definition random_fermat_number (random : Z) : M Z :=
  let* n := random_number_with_range random 1 31 in
  fp_to_ulong (fp_add DBL_MANT (FP 1 n) (fp_of_Z DBL_MANT 1)).

Definition random_mersenne_number (random : Z) : M Z :=
  let* n := random_number_with_range random 1 32 in
  fp_to_ulong (fp_sub DBL_MANT (FP 1 n) (fp_of_Z DBL_MANT 1)).

Definition random_ref (random : Z) : M Z :=
  if random =? NULL then set_errno EINVAL ;;; ret NULL
  else
    let* r := get_random random in
    put_random random (Random (to_ulong (rnd_refcount r + 1)) (rnd_state r)) ;;;
    ret random.

Definition random_free (random : Z) : M Z :=
  if random =? NULL then ret NULL
  else get_random random ;;; free_random random ;;; ret NULL.

Definition random_unref (random : Z) : M unit :=
  if random =? NULL then ret tt
  else
    let* r := get_random random in
    let rc := to_ulong (rnd_refcount r - 1) in
    put_random random (Random rc (rnd_state r)) ;;;
    if 0 <? rc then ret tt else random_free random ;;; ret tt.

(** [errno = pthread_mutex_init(&random->mutex, NULL)]: the initialisation
    succeeds, as the allocations do, so [errno] becomes 0. *)
Definition random_new : M Z :=
  let* random := calloc 56 in
  set_errno 0 ;;;
  calloc MAXSIZE ;;;
  put_random random (Random 0 (repeat x00 (Z.to_nat MAXSIZE))) ;;;
  random_ref random.

(** The copied length [MIN(MAX(size, MINSIZE), MAXSIZE)]. *)
Definition state_copy_length (size : Z) : Z := Z.min (Z.max size MINSIZE) MAXSIZE.

(** Buffers passed by pointer are given by their contents, [None] for a null
    pointer; the result pairs the returned pointer with the buffer after
    the call. *)
Definition random_get_state (random : Z) (state : option (list byte)) (size : Z)
  : M (Z * option (list byte)) :=
  match state with
  | None => set_errno EINVAL ;;; ret (NULL, None)
  | Some buf =>
      if random =? NULL then set_errno EINVAL ;;; ret (NULL, state)
      else
        let* r := get_random random in
        match memcpy buf (rnd_state r) (state_copy_length size) with
        | Some buf' => ret (random, Some buf')
        | None => ub
        end
  end.

Definition random_set_state (random : Z) (state : option (list byte)) (size : Z) : M Z :=
  match state with
  | None => set_errno EINVAL ;;; ret NULL
  | Some buf =>
      if random =? NULL then set_errno EINVAL ;;; ret NULL
      else
        let* r := get_random random in
        match memcpy (rnd_state r) buf (state_copy_length size) with
        | Some st => put_random random (Random (rnd_refcount r) st) ;;; ret random
        | None => ub
        end
  end.

Definition random_new_with_state (state : option (list byte)) (size : Z) : M Z :=
  let* random := random_new in
  let* r := random_set_state random state size in
  if r =? NULL then random_unref random ;;; ret NULL else ret random.

(** The array [charset] of [random_string], its terminating NUL included:
    the literal holds the percent sign twice. *)
Definition charset : list byte :=
  list_byte_of_string " !" ++ [byte_of_Z 34] ++
  list_byte_of_string "#$%%&'()*+,-./0123456789:;<=>?@ABCDEFGHIJKLMNOPQRSTUVWXYZ[\]^_`abcdefghijklmnopqrstuvwxyz{|}~"
  ++ [x00].

Definition sizeof_charset : Z := Z.of_nat (List.length charset).

Definition INT_MAX : Z := 2 ^ 31 - 1.

(** The loop [for (i = 0; i < length - 2; i++) string[i] = charset[...];]
    followed by [string[i] = 0], from index [i] on: [buf] is the buffer
    from [string + i] on and [count] is [length - 2] in [size_t].  The
    counter [i] is an [int] that is never negative, so its conversion to
    [size_t] in the test is the identity; [i++] at [INT_MAX] overflows, which
    is undefined. *)
Fixpoint random_string_loop (random : Z) (buf : list byte) (i count : Z) : M (list byte) :=
  match buf with
  | [] => ub
  | b :: rest =>
      if i <? count then
        let* k := random_number_with_range random 0 (sizeof_charset - 1) in
        match nth_error charset (Z.to_nat k) with
        | Some c =>
            if i + 1 <=? INT_MAX then
              let* rest' := random_string_loop random rest (i + 1) count in
              ret (c :: rest')
            else ub
        | None => ub
        end
      else ret (x00 :: rest)
  end.

Definition random_string (random : Z) (string : option (list byte)) (length : Z)
  : M (option (list byte)) :=
  match string with
  | None => set_errno EINVAL ;;; ret None
  | Some buf =>
      if random =? NULL then set_errno EINVAL ;;; ret None
      else
        let* buf' := random_string_loop random buf 0 (to_ulong (length - 2)) in
        ret (Some buf')
  end.

(** ** lib/array.c

    An array is held by value.  [arr_data] is the backing store seen through
    the element type, as [array_index] reads it; its length is the capacity
    really allocated, in elements.  [arr_size] is the capacity in bytes
    that the code has recorded.  Elements that [realloc] adds are
    indeterminate in C and are zero here; nothing reads them before they
    are written. *)

Definition MINLENGTH : Z := 16.

Record array_t := Array {
  arr_data : list Z;
  arr_refcount : Z;
  arr_element_size : Z;
  arr_growth_factor : fp;   (* float *)
  arr_length : Z;
  arr_size : Z
}.

Definition _array_length_to_size (a : array_t) (length : Z) : Z :=
  to_ulong (arr_element_size a * length).

(** [array_index(array, type, index)] as an rvalue and as an lvalue: raw
    indexed access to the backing store, whatever the logical length. *)
Definition array_index (a : array_t) (index : Z) : option Z :=
  if 0 <=? index then arr_data a !! Z.to_nat index else None.

Definition array_store (a : array_t) (index : Z) (v : Z) : option array_t :=
  if (0 <=? index) && (index <? Z.of_nat (List.length (arr_data a))) then
    Some (Array (<[Z.to_nat index := v]> (arr_data a)) (arr_refcount a)
            (arr_element_size a) (arr_growth_factor a) (arr_length a) (arr_size a))
  else None.

(** [realloc(data, n)]: the block keeps its contents up to the smaller of
    the two sizes. *)
Definition realloc (a : array_t) (n : Z) : list Z :=
  let cap := Z.to_nat (n / arr_element_size a) in
  firstn cap (arr_data a) ++ repeat 0 (cap - List.length (arr_data a))%nat.

(** The array that [array_new] returns.  The call also assigns
    [errno = pthread_mutex_init(&array->mutex, NULL)], which is 0; its
    callers in [M] write that assignment out. *)
Definition array_new (size : Z) : array_t :=
  Array (repeat 0 (Z.to_nat MINLENGTH)) 1 size (FP 2 0) 0 size.

(** The loop [for (m = 1, n = array->size; size > n; m++) n *= array->growth_factor * m;]
    with the product taken in [float].  [None] when it does not return: [n]
    at least doubles in every round, so after 64 rounds it has either passed
    [size] or left [size_t], unless it is stuck at zero. *)
Fixpoint _array_grow_loop (fuel : nat) (gf : fp) (size m n : Z) : option Z :=
  if n <? size then
    match fuel with
    | O => None
    | S fuel' =>
        let n' := fp_trunc (fp_mul FLT_MANT (fp_of_Z FLT_MANT n)
                              (fp_mul FLT_MANT gf (fp_of_Z FLT_MANT m))) in
        if n' <=? ULONG_MAX then _array_grow_loop fuel' gf size (to_ulong (m + 1)) n'
        else None
    end
  else Some n.

(** The static helpers are only called on a non-null array.  The outer
    option is the completion of the call, the inner one the returned
    pointer: [Some None] returns NULL and leaves the array as it was. *)
Definition _array_grow (a : array_t) (length : Z) : option (option array_t) :=
  let size := _array_length_to_size a length in
  if size <=? arr_size a then Some None
  else
    match _array_grow_loop 64 (arr_growth_factor a) size 1 (arr_size a) with
    | Some n =>
        Some (Some (Array (realloc a n) (arr_refcount a) (arr_element_size a)
                      (arr_growth_factor a) length n))
    | None => None
    end.

Definition _array_shrink (a : array_t) (length : Z) : option (option array_t) :=
  let size := _array_length_to_size a length in
  if arr_size a <? size then Some None
  else Some (Some (Array (arr_data a) (arr_refcount a) (arr_element_size a)
                     (arr_growth_factor a) length (arr_size a))).

Definition _array_set_length (a : array_t) (length : Z) : option (option array_t) :=
  let size := _array_length_to_size a length in
  if size <=? arr_size a then _array_shrink a length
  else _array_grow a length.

Definition array_new_with_length (size length : Z) : option (option array_t) :=
  _array_set_length (array_new size) length.

(** Storing [vals] from index [i] on. *)
Fixpoint array_store_vals (a : array_t) (i : Z) (vals : list Z) : option array_t :=
  match vals with
  | [] => Some a
  | v :: vals' =>
      match array_store a i v with
      | Some a' => array_store_vals a' (i + 1) vals'
      | None => None
      end
  end.

(** [array_append_vals] on a non-null array and non-null [data]: the array
    after the call ([None]: the call does not complete). *)
Definition array_append_vals (a : array_t) (data : list Z) : option array_t :=
  let length := arr_length a in
  match _array_set_length a (to_ulong (length + Z.of_nat (List.length data))) with
  | Some (Some a') => array_store_vals a' length data
  | Some None => Some a
  | None => None
  end.

(** array.h: [#define array_append_val(array, data) (array_append_vals((array), (data), 1))]. *)
Definition array_append_val (a : array_t) (v : Z) : option array_t :=
  array_append_vals a [v].

Definition array_get_length (a : option array_t) : M Z :=
  match a with
  | None => set_errno EINVAL ;;; ret 0
  | Some a => ret (arr_length a)
  end.

Definition array_ref (a : option array_t) : M (option array_t) :=
  match a with
  | None => set_errno EINVAL ;;; ret None
  | Some a =>
      ret (Some (Array (arr_data a) (to_ulong (arr_refcount a + 1)) (arr_element_size a)
                   (arr_growth_factor a) (arr_length a) (arr_size a)))
  end.

(** [array_unref]: the array after the call, [None] for a null pointer and
    once the array is freed. *)
Definition array_unref (a : option array_t) : M (option array_t) :=
  match a with
  | None => ret None
  | Some a =>
      let rc := to_ulong (arr_refcount a - 1) in
      if 0 <? rc then
        ret (Some (Array (arr_data a) rc (arr_element_size a) (arr_growth_factor a)
                     (arr_length a) (arr_size a)))
      else ret None
  end.

(** The logical contents: the first [arr_length] elements. *)
Definition array_elements (a : array_t) : list Z :=
  firstn (Z.to_nat (arr_length a)) (arr_data a).

(** ** lib/array.c: the operations on elements

    The store is seen through the element type, so a block of bytes is
    moved in whole elements.  An offset or a size that is not a multiple of
    the element size arises only when [_array_length_to_size] wraps around;
    such a move has no result here. *)

(** [&_array_index(array, index)]: the element at the byte offset
    [_array_length_to_size(array, index)]. *)
Definition _array_index (a : array_t) (index : Z) : option Z :=
  let off := _array_length_to_size a index in
  if off mod arr_element_size a =? 0 then Some (off / arr_element_size a) else None.

(** [memmove(&_array_index(array, dst), &_array_index(array, src), size)],
    [size] in bytes; undefined when either range leaves the allocation. *)
Definition array_memmove (a : array_t) (dst src size : Z) : option array_t :=
  match _array_index a dst, _array_index a src with
  | Some d, Some s =>
      if size mod arr_element_size a =? 0 then
        let n := size / arr_element_size a in
        let cap := Z.of_nat (List.length (arr_data a)) in
        if (d + n <=? cap) && (s + n <=? cap) then
          Some (Array (firstn (Z.to_nat d) (arr_data a)
                         ++ firstn (Z.to_nat n) (skipn (Z.to_nat s) (arr_data a))
                         ++ skipn (Z.to_nat (d + n)) (arr_data a))
                  (arr_refcount a) (arr_element_size a) (arr_growth_factor a)
                  (arr_length a) (arr_size a))
        else None
      else None
  | _, _ => None
  end.

(** [memcpy(&_array_index(array, index), data, _array_length_to_size(array, count))],
    [data] given by the [count] elements it holds. *)
Definition array_memcpy (a : array_t) (index : Z) (data : list Z) : option array_t :=
  match _array_index a index with
  | Some i => array_store_vals a i data
  | None => None
  end.

Definition array_free (array : option array_t) : M (option array_t) :=
  match array with
  | None => ret None
  | Some _ => ret None
  end.

(** The public operations take the array pointer as an option and return
    "the returned pointer is not NULL" with the array after the call. *)
Definition array_set_length (array : option array_t) (length : Z)
  : M (bool * option array_t) :=
  match array with
  | None => set_errno EINVAL ;;; ret (false, None)
  | Some a =>
      match _array_set_length a length with
      | Some (Some a') => ret (true, Some a')
      | Some None => ret (false, Some a)
      | None => ub
      end
  end.

Definition array_insert_vals (array : option array_t) (index : Z) (data : option (list Z))
  : M (bool * option array_t) :=
  match array, data with
  | Some a, Some vals =>
      let count := Z.of_nat (List.length vals) in
      let length := arr_length a in
      if length <=? index then set_errno EINVAL ;;; ret (true, Some a)
      else
        match _array_set_length a (to_ulong (length + count)) with
        | Some (Some a1) =>
            match array_memmove a1 (to_ulong (index + count)) index
                    (_array_length_to_size a1 (to_ulong (length - index))) with
            | Some a2 =>
                match array_memcpy a2 index vals with
                | Some a3 => ret (true, Some a3)
                | None => ub
                end
            | None => ub
            end
        | Some None => ret (true, Some a)
        | None => ub
        end
  | _, _ => set_errno EINVAL ;;; ret (false, array)
  end.

(** array.h: [#define array_insert_val(array, index, data) (array_insert_vals((array), (index), (data), 1))]. *)
Definition array_insert_val (array : option array_t) (index : Z) (v : Z) :=
  array_insert_vals array index (Some [v]).

Definition array_prepend_vals (array : option array_t) (data : option (list Z))
  : M (bool * option array_t) :=
  match array, data with
  | Some a, Some vals =>
      let count := Z.of_nat (List.length vals) in
      let length := arr_length a in
      match _array_set_length a (to_ulong (length + count)) with
      | Some (Some a1) =>
          match array_memmove a1 count 0 (_array_length_to_size a1 length) with
          | Some a2 =>
              match array_memcpy a2 0 vals with
              | Some a3 => ret (true, Some a3)
              | None => ub
              end
          | None => ub
          end
      | Some None => ret (true, Some a)
      | None => ub
      end
  | _, _ => set_errno EINVAL ;;; ret (false, array)
  end.

(** array.h: [#define array_prepend_val(array, data) (array_prepend_vals((array), (data), 1))]. *)
Definition array_prepend_val (array : option array_t) (v : Z) :=
  array_prepend_vals array (Some [v]).

Definition array_remove_val_fast (array : option array_t) (index : Z)
  : M (bool * option array_t) :=
  match array with
  | None => set_errno EINVAL ;;; ret (false, None)
  | Some a =>
      let length := arr_length a in
      if length <=? index then set_errno EINVAL ;;; ret (true, Some a)
      else
        match array_memmove a index (to_ulong (length - 1)) (_array_length_to_size a 1) with
        | Some a1 =>
            match _array_set_length a1 (to_ulong (length - 1)) with
            | Some (Some a2) => ret (true, Some a2)
            | Some None => ret (true, Some a1)
            | None => ub
            end
        | None => ub
        end
  end.

Definition array_remove_vals (array : option array_t) (index count : Z)
  : M (bool * option array_t) :=
  match array with
  | None => set_errno EINVAL ;;; ret (false, None)
  | Some a =>
      let length := arr_length a in
      if length <=? index then set_errno EINVAL ;;; ret (true, Some a)
      else
        match array_memmove a index (to_ulong (index + count))
                (_array_length_to_size a (to_ulong (length - (index + count)))) with
        | Some a1 =>
            match _array_set_length a1 (to_ulong (length - count)) with
            | Some (Some a2) => ret (true, Some a2)
            | Some None => ret (true, Some a1)
            | None => ub
            end
        | None => ub
        end
  end.

(** array.h: [array_remove_index] and [array_remove_val] are
    [array_remove_vals((array), (index), 1)]; [array_remove_index_fast] is
    [array_remove_val_fast]. *)
Definition array_remove_val (array : option array_t) (index : Z) :=
  array_remove_vals array index 1.
Definition array_remove_index := array_remove_val.
Definition array_remove_index_fast := array_remove_val_fast.

(** An array as the operations keep it: the recorded size covers the
    logical length and lies inside the store. *)
Definition array_wf (a : array_t) : Prop :=
  0 < arr_element_size a /\ arr_growth_factor a = FP 2 0 /\
  0 <= arr_length a /\ arr_element_size a * arr_length a <= arr_size a /\
  0 < arr_size a <= ULONG_MAX /\
  arr_size a / arr_element_size a <= Z.of_nat (List.length (arr_data a)).

(** ** src/lib/iofuzzer.c: the fuzzer object *)

Definition MAXPORT : Z := 0xffff.
Definition NUM_VARIATES : Z := 7.
Definition NUM_FUNCS : Z := 12.

(** An owned [char *] buffer: its address and its contents. *)
Record block := Block { blk_addr : Z; blk_bytes : list byte }.

(** [struct iofuzzer]; the mutex is left out.  The fuzzer is held by value,
    a null [iofuzzer_t *] is [None]. *)
Record iofuzzer_t := Fuzzer {
  fz_refcount : Z;
  fz_ports : option array_t;
  fz_random : Z;               (* random_t * *)
  fz_state : list byte;        (* char state[8] *)
  fz_variate5 : block;
  fz_variate6 : block;
  fz_variates : option array_t
}.

Definition set_fz_state (fz : iofuzzer_t) (st : list byte) : iofuzzer_t :=
  Fuzzer (fz_refcount fz) (fz_ports fz) (fz_random fz) st
         (fz_variate5 fz) (fz_variate6 fz) (fz_variates fz).

Definition set_fz_variates (fz : iofuzzer_t) (vs : option array_t) : iofuzzer_t :=
  Fuzzer (fz_refcount fz) (fz_ports fz) (fz_random fz) (fz_state fz)
         (fz_variate5 fz) (fz_variate6 fz) vs.

Definition set_fz_ports (fz : iofuzzer_t) (ps : option array_t) : iofuzzer_t :=
  Fuzzer (fz_refcount fz) ps (fz_random fz) (fz_state fz)
         (fz_variate5 fz) (fz_variate6 fz) (fz_variates fz).

Definition set_fz_random (fz : iofuzzer_t) (r : Z) : iofuzzer_t :=
  Fuzzer (fz_refcount fz) (fz_ports fz) r (fz_state fz)
         (fz_variate5 fz) (fz_variate6 fz) (fz_variates fz).

Definition set_fz_refcount (fz : iofuzzer_t) (rc : Z) : iofuzzer_t :=
  Fuzzer rc (fz_ports fz) (fz_random fz) (fz_state fz)
         (fz_variate5 fz) (fz_variate6 fz) (fz_variates fz).

(** *** Pointers kept as integers in slots 5 and 6

    A pointer points into one of the two owned buffers or nowhere. *)

Definition in_block (b : block) (p : Z) : bool :=
  (blk_addr b <=? p) && (p <? blk_addr b + Z.of_nat (List.length (blk_bytes b))).

(** The contents from [p] on. *)
Definition load_from (fz : iofuzzer_t) (p : Z) : option (list byte) :=
  if in_block (fz_variate5 fz) p then
    Some (skipn (Z.to_nat (p - blk_addr (fz_variate5 fz))) (blk_bytes (fz_variate5 fz)))
  else if in_block (fz_variate6 fz) p then
    Some (skipn (Z.to_nat (p - blk_addr (fz_variate6 fz))) (blk_bytes (fz_variate6 fz)))
  else None.

Definition block_store (b : block) (p : Z) (buf : list byte) : block :=
  Block (blk_addr b) (firstn (Z.to_nat (p - blk_addr b)) (blk_bytes b) ++ buf).

(** Writing back the contents from [p] on. *)
Definition store_from (fz : iofuzzer_t) (p : Z) (buf : list byte) : iofuzzer_t :=
  if in_block (fz_variate5 fz) p then
    Fuzzer (fz_refcount fz) (fz_ports fz) (fz_random fz) (fz_state fz)
           (block_store (fz_variate5 fz) p buf) (fz_variate6 fz) (fz_variates fz)
  else if in_block (fz_variate6 fz) p then
    Fuzzer (fz_refcount fz) (fz_ports fz) (fz_random fz) (fz_state fz)
           (fz_variate5 fz) (block_store (fz_variate6 fz) p buf) (fz_variates fz)
  else fz.

(** ** src/lib/i386/io.h: the twelve port instructions

    [FUNCS] in its order: inb inw inl insb insw insl outb outw outl outsb
    outsw outsl. *)

Definition func_width (f : Z) : Z :=
  match f mod 3 with 0 => 1 | 1 => 2 | _ => 4 end.

Definition func_is_ins (f : Z) : bool := (3 <=? f) && (f <=? 5).
Definition func_is_outs (f : Z) : bool := (9 <=? f) && (f <=? 11).

Section Dispatcher.

(** The device: the [n]-th byte a string input delivers, given the
    instructions issued before it. *)
Variable port_data : list io_event -> nat -> byte.

(** One [_iofuzzer_<insn>]: all six operands are bound to registers, the
    instruction is issued; [rep ins] stores count times width bytes at
    [DI], [rep outs] loads as many from [SI]; a zero count moves nothing. *)
Definition _iofuzzer_insn (f : Z) (fz : iofuzzer_t) : M iofuzzer_t :=
  match fz_variates fz with
  | None => ub
  | Some vs =>
      match array_index vs 1, array_index vs 2, array_index vs 3,
            array_index vs 4, array_index vs 5, array_index vs 6 with
      | Some a, Some b, Some c, Some d, Some si, Some di =>
          let n := c * func_width f in
          fun w =>
            (if func_is_ins f && (0 <? c) then
               match load_from fz di with
               | Some buf =>
                   if n <=? Z.of_nat (List.length buf) then
                     log_io (IoEvent f a b c d si di) ;;;
                     ret (store_from fz di
                            (map (port_data (io_log w)) (seq 0 (Z.to_nat n))
                               ++ skipn (Z.to_nat n) buf))
                   else ub
               | None => ub
               end
             else if func_is_outs f && (0 <? c) then
               match load_from fz si with
               | Some buf =>
                   if n <=? Z.of_nat (List.length buf) then
                     log_io (IoEvent f a b c d si di) ;;; ret fz
                   else ub
               | None => ub
               end
             else log_io (IoEvent f a b c d si di) ;;; ret fz) w
      | _, _, _, _, _, _ => ub
      end
  end.

Definition _iofuzzer_random_number (fz : iofuzzer_t) : M Z :=
  let* k := random_number_with_range (fz_random fz) 0 2 in
  if k =? 0 then random_number (fz_random fz)
  else if k =? 1 then random_fermat_number (fz_random fz)
  else if k =? 2 then random_mersenne_number (fz_random fz)
  else ub.

(** [variates[i] = v] through the pointer [&array_index(fuzzer->variates, uintptr_t, 0)]. *)
Definition store_variate (fz : iofuzzer_t) (i v : Z) : M iofuzzer_t :=
  match fz_variates fz with
  | None => ub
  | Some vs =>
      match array_store vs i v with
      | Some vs' => ret (set_fz_variates fz (Some vs'))
      | None => ub
      end
  end.

Definition load_variate (fz : iofuzzer_t) (i : Z) : M Z :=
  match fz_variates fz with
  | None => ub
  | Some vs =>
      match array_index vs i with
      | Some v => ret v
      | None => ub
      end
  end.

(** [variates[i] = (uintptr_t)random_string(fuzzer->random, (char * )variates[i], MAXSIZE)]. *)
Definition randomize_string (fz : iofuzzer_t) (i : Z) : M iofuzzer_t :=
  let* p := load_variate fz i in
  if p =? NULL then
    random_string (fz_random fz) None MAXSIZE ;;; store_variate fz i NULL
  else
    match load_from fz p with
    | None => ub
    | Some buf =>
        let* r := random_string (fz_random fz) (Some buf) MAXSIZE in
        match r with
        | Some buf' => store_variate (store_from fz p buf') i p
        | None => store_variate fz i NULL
        end
    end.

Definition _iofuzzer_randomize (fz : iofuzzer_t) : M iofuzzer_t :=
  let* st := random_get_state (fz_random fz) (Some (fz_state fz)) 8 in
  let fz := match snd st with Some b => set_fz_state fz b | None => fz end in
  let* v0 := random_number_with_range (fz_random fz) 0 (NUM_FUNCS - 1) in
  let* fz := store_variate fz 0 v0 in
  let* v1 := _iofuzzer_random_number fz in
  let* fz := store_variate fz 1 v1 in
  let* v2 := _iofuzzer_random_number fz in
  let* fz := store_variate fz 2 v2 in
  let* v3 := random_number_with_range (fz_random fz) 1 (MAXSIZE / 4) in
  let* fz := store_variate fz 3 v3 in
  let* fz :=
    match fz_ports fz with
    | Some ports =>
        let* len := array_get_length (Some ports) in
        let* k := random_number_with_range (fz_random fz) 0 (to_ulong (len - 1)) in
        match array_index ports k with
        | Some v4 => store_variate fz 4 v4
        | None => ub
        end
    | None =>
        let* v4 := random_number_with_range (fz_random fz) 0 MAXPORT in
        store_variate fz 4 v4
    end in
  let* fz := randomize_string fz 5 in
  randomize_string fz 6.

(** The static helpers are only called on a non-null fuzzer.  The result
    pairs "the returned pointer is not NULL" with the fuzzer after the call. *)
Definition _iofuzzer_set_state (fz : iofuzzer_t) (state : option (list byte)) (size : Z)
  : M (bool * iofuzzer_t) :=
  match state with
  | None => set_errno EINVAL ;;; ret (false, fz)
  | Some _ =>
      let* r := random_set_state (fz_random fz) state size in
      if r =? NULL then ret (false, fz)
      else
        let* fz' := _iofuzzer_randomize fz in
        ret (true, fz')
  end.

Definition _iofuzzer_iterate (fz : iofuzzer_t) : M iofuzzer_t :=
  let* v0 := load_variate fz 0 in
  let* fz :=
    (if (0 <=? v0) && (v0 <? NUM_FUNCS) then _iofuzzer_insn v0 fz else ret fz) in
  _iofuzzer_randomize fz.

(** *** Pointers to the arrays of a fuzzer

    Arrays are held by value, so an array argument does not tell by itself
    whether it is the very object that the fuzzer holds.  The two setters
    that release the old array before they take the new one are told:
    [Own] when the pointer passed is the fuzzer's own ([fuzzer->ports],
    [fuzzer->variates]), in which case the contents given are not looked
    at; [Other] when it is NULL or points to another object. *)
Inductive aliasing := Other | Own.

(** The object behind the argument of such a setter once the fuzzer's own
    array [mine] has been released, [old] being what [array_unref] has left
    of it.  The fuzzer's own array is used after the release, which is
    undefined once the release has freed it. *)
Definition array_after_unref (mine old given : option array_t) (p : aliasing)
  : M (option array_t) :=
  match p with
  | Other => ret given
  | Own =>
      match mine, old with
      | Some _, None => ub
      | _, _ => ret old
      end
  end.

(** *** The public operations

    Each takes the fuzzer pointer as an option and returns the returned
    pointer together with the fuzzer after the call. *)

Definition iofuzzer_get_ports (fuzzer : option iofuzzer_t) : M (option array_t) :=
  match fuzzer with
  | None => set_errno EINVAL ;;; ret None
  | Some fz => ret (fz_ports fz)
  end.

Definition iofuzzer_get_random (fuzzer : option iofuzzer_t) : M Z :=
  match fuzzer with
  | None => set_errno EINVAL ;;; ret NULL
  | Some fz => ret (fz_random fz)
  end.

(** The result is the returned pointer (null or not) and the caller's
    buffer after the call. *)
Definition iofuzzer_get_state (fuzzer : option iofuzzer_t) (state : option (list byte))
    (size : Z) : M (bool * option (list byte)) :=
  match fuzzer, state with
  | Some fz, Some buf =>
      match memcpy buf (fz_state fz) 8 with
      | Some buf' => ret (true, Some buf')
      | None => ub
      end
  | _, _ => set_errno EINVAL ;;; ret (false, state)
  end.

Definition iofuzzer_get_variates (fuzzer : option iofuzzer_t) : M (option array_t) :=
  match fuzzer with
  | None => set_errno EINVAL ;;; ret None
  | Some fz => ret (fz_variates fz)
  end.

Definition iofuzzer_iterate (fuzzer : option iofuzzer_t) : M (bool * option iofuzzer_t) :=
  match fuzzer with
  | None => set_errno EINVAL ;;; ret (false, None)
  | Some fz =>
      let* fz' := _iofuzzer_iterate fz in
      ret (true, Some fz')
  end.

Definition iofuzzer_iterate_with_state (fuzzer : option iofuzzer_t)
    (state : option (list byte)) (size : Z) : M (bool * option iofuzzer_t) :=
  match fuzzer with
  | None => set_errno EINVAL ;;; ret (false, None)
  | Some fz =>
      let* r := _iofuzzer_set_state fz state size in
      if fst r then
        let* fz' := _iofuzzer_iterate (snd r) in
        ret (true, Some fz')
      else ret (false, Some (snd r))
  end.

Definition iofuzzer_ref (fuzzer : option iofuzzer_t) : M (bool * option iofuzzer_t) :=
  match fuzzer with
  | None => set_errno EINVAL ;;; ret (false, None)
  | Some fz => ret (true, Some (set_fz_refcount fz (to_ulong (fz_refcount fz + 1))))
  end.

(** [errno] is assigned the result of [pthread_mutex_init], which is 0,
    here and in [random_new] and [array_new]. *)
Definition iofuzzer_new : M (option iofuzzer_t) :=
  calloc 96 ;;;
  set_errno 0 ;;;
  let* random := random_new in
  if random =? NULL then ret None
  else
    let* variate5 := calloc MAXSIZE in
    let* variate6 := calloc MAXSIZE in
    set_errno 0 ;;;
    match array_new_with_length 8 NUM_VARIATES with
    | None => ub
    | Some None => random_unref random ;;; ret None
    | Some (Some variates) =>
        let fz := Fuzzer 0 None random (repeat x00 8)
                    (Block variate5 (repeat x00 (Z.to_nat MAXSIZE)))
                    (Block variate6 (repeat x00 (Z.to_nat MAXSIZE)))
                    (Some variates) in
        let* fz := store_variate fz 5 variate5 in
        let* fz := store_variate fz 6 variate6 in
        let* fz := _iofuzzer_randomize fz in
        let* r := iofuzzer_ref (Some fz) in
        ret (snd r)
    end.

(** [array_unref(fuzzer->ports); fuzzer->ports = ports; array_ref(fuzzer->ports)]:
    the argument is read after the old list has been released. *)
Definition iofuzzer_set_ports (fuzzer : option iofuzzer_t) (ports : option array_t)
    (p : aliasing) : M (bool * option iofuzzer_t) :=
  match fuzzer with
  | None => set_errno EINVAL ;;; ret (false, None)
  | Some fz =>
      let* old := array_unref (fz_ports fz) in
      let* ports := array_after_unref (fz_ports fz) old ports p in
      let* ports' := array_ref ports in
      let fz := set_fz_ports fz ports' in
      let* r := _iofuzzer_set_state fz (Some (fz_state fz)) 8 in
      let* fz' := _iofuzzer_randomize (snd r) in
      ret (true, Some fz')
  end.

Definition iofuzzer_set_random (fuzzer : option iofuzzer_t) (random : Z)
  : M (bool * option iofuzzer_t) :=
  match fuzzer with
  | None => set_errno EINVAL ;;; ret (false, None)
  | Some fz =>
      random_unref (fz_random fz) ;;;
      let fz := set_fz_random fz random in
      random_ref random ;;;
      let* fz' := _iofuzzer_randomize fz in
      ret (true, Some fz')
  end.

Definition iofuzzer_set_state (fuzzer : option iofuzzer_t) (state : option (list byte))
    (size : Z) : M (bool * option iofuzzer_t) :=
  match fuzzer, state with
  | Some fz, Some _ =>
      let* r := _iofuzzer_set_state fz state size in
      ret (fst r, Some (snd r))
  | _, _ => set_errno EINVAL ;;; ret (false, fuzzer)
  end.

Definition iofuzzer_set_variates (fuzzer : option iofuzzer_t) (variates : option array_t)
    (p : aliasing) : M (bool * option iofuzzer_t) :=
  match fuzzer with
  | None => set_errno EINVAL ;;; ret (false, None)
  | Some fz =>
      let* old := array_unref (fz_variates fz) in
      let* variates := array_after_unref (fz_variates fz) old variates p in
      let* variates' := array_ref variates in
      ret (true, Some (set_fz_variates fz variates'))
  end.

(** [iofuzzer_free] and [iofuzzer_unref]: the fuzzer after the call,
    [None] once it is freed. *)
Definition iofuzzer_free (fuzzer : option iofuzzer_t) : M (option iofuzzer_t) :=
  match fuzzer with
  | None => ret None
  | Some fz =>
      array_unref (fz_ports fz) ;;;
      random_unref (fz_random fz) ;;;
      array_unref (fz_variates fz) ;;;
      ret None
  end.

Definition iofuzzer_unref (fuzzer : option iofuzzer_t) : M (option iofuzzer_t) :=
  match fuzzer with
  | None => ret None
  | Some fz =>
      let rc := to_ulong (fz_refcount fz - 1) in
      let fz := set_fz_refcount fz rc in
      if 0 <? rc then ret (Some fz) else iofuzzer_free (Some fz)
  end.

Definition iofuzzer_new_with_state (state : option (list byte)) (size : Z)
  : M (option iofuzzer_t) :=
  let* fuzzer := iofuzzer_new in
  match fuzzer with
  | None => ret None
  | Some _ =>
      let* r := iofuzzer_set_state fuzzer state size in
      if fst r then ret (snd r) else iofuzzer_unref fuzzer ;;; ret None
  end.

End Dispatcher.

(** ** libc: tokens and numbers *)

(** The tokens that successive [strtok_r] calls return for a one-character
    delimiter set: the maximal non-empty runs of other characters. *)
Fixpoint strtok_r (delim : ascii) (s : string) (cur : string) : list string :=
  match s with
  | EmptyString => if (cur =? "")%string then [] else [cur]
  | String c s' =>
      if Ascii.eqb c delim then
        if (cur =? "")%string then strtok_r delim s' ""
        else cur :: strtok_r delim s' ""
      else strtok_r delim s' (cur ++ String c "")
  end.

Definition isspace (c : ascii) : bool :=
  let n := nat_of_ascii c in
  ((n =? 32) || ((9 <=? n) && (n <=? 13)))%nat.

Definition digit_val (c : ascii) : option Z :=
  let n := Z.of_nat (nat_of_ascii c) in
  if (48 <=? n) && (n <=? 57) then Some (n - 48)
  else if (97 <=? n) && (n <=? 122) then Some (n - 87)
  else if (65 <=? n) && (n <=? 90) then Some (n - 55)
  else None.

Fixpoint skip_spaces (s : string) : string :=
  match s with
  | String c s' => if isspace c then skip_spaces s' else s
  | EmptyString => s
  end.

(** The longest prefix of digits valid in [base], accumulated from [acc]. *)
Fixpoint strtoul_digits (base : Z) (s : string) (acc : Z) : Z :=
  match s with
  | String c s' =>
      match digit_val c with
      | Some d => if d <? base then strtoul_digits base s' (acc * base + d) else acc
      | None => acc
      end
  | EmptyString => acc
  end.

Definition is_hex_digit (s : string) : bool :=
  match s with
  | String c _ => match digit_val c with Some d => d <? 16 | None => false end
  | EmptyString => false
  end.

(** The magnitude and the sign that [strtoul(s, NULL, 0)] reads. *)
Definition strtoul_parse (s : string) : bool * Z :=
  let s := skip_spaces s in
  let '(neg, s) :=
    match s with
    | String "-" s' => (true, s')
    | String "+" s' => (false, s')
    | _ => (false, s)
    end in
  match s with
  | String "0" (String x s') =>
      if (Ascii.eqb x "x" || Ascii.eqb x "X") && is_hex_digit s'
      then (neg, strtoul_digits 16 s' 0)
      else (neg, strtoul_digits 8 (String x s') 0)
  | _ => (neg, strtoul_digits 10 s 0)
  end.

Definition ERANGE : Z := 34.

(** [strtoul(s, NULL, 0)] and [strtoull(s, NULL, 0)] (both 64 bits wide):
    out-of-range input gives [ULONG_MAX] and [ERANGE].  glibc reports
    [EINVAL] only for an unsupported base, never here. *)
Definition strtoul (s : string) : M Z :=
  let '(neg, v) := strtoul_parse s in
  if ULONG_MAX <? v then set_errno ERANGE ;;; ret ULONG_MAX
  else ret (if neg then to_ulong (- v) else v).

(** ** The main program: the port-spec parser *)

(** [for (port = begin; port <= end; port++) array_append_val(ports, &port);]
    with [fuel] rounds left; it never ends when [end_] is [ULONG_MAX]. *)
Fixpoint parse_ports_range (fuel : nat) (port end_ : Z) (ports : array_t) : option array_t :=
  if port <=? end_ then
    match fuel with
    | O => None
    | S fuel' =>
        match array_append_val ports port with
        | Some ports' => parse_ports_range fuel' (to_ulong (port + 1)) end_ ports'
        | None => None
        end
    end
  else Some ports.

(** The body of the outer loop for one comma-separated token. *)
Definition parse_ports_token (str : string) (ports : array_t) : M array_t :=
  match strtok_r "-" str "" with
  | [] => ret ports
  | substr :: rest =>
      set_errno 0 ;;;
      let* begin := strtoul substr in
      let* end_ :=
        match rest with
        | [] => ret begin
        | substr' :: _ =>
            set_errno 0 ;;;
            let* e := strtoul substr' in
            ret (if MAXPORT <? e then MAXPORT else e)
        end in
      match parse_ports_range (Z.to_nat (end_ - begin + 1)) begin end_ ports with
      | Some ports' => ret ports'
      | None => ub
      end
  end.

Fixpoint parse_ports_tokens (toks : list string) (ports : array_t) : M array_t :=
  match toks with
  | [] => ret ports
  | str :: toks' =>
      let* ports' := parse_ports_token str ports in
      parse_ports_tokens toks' ports'
  end.

Definition iofuzzer_parse_ports (string : option string) : M (option array_t) :=
  match string with
  | None => set_errno EINVAL ;;; ret None
  | Some str =>
      set_errno 0 ;;;   (* [array_new] *)
      let* ports := parse_ports_tokens (strtok_r "," str "") (array_new 8) in
      ret (Some ports)
  end.

(** ** The main program: the log line and the worker *)

Definition hex_digit (d : Z) : ascii :=
  ascii_of_nat (Z.to_nat (if d <? 10 then 48 + d else 87 + d)).

Fixpoint digits_aux (base : Z) (fuel : nat) (n : Z) (acc : string) : string :=
  match fuel with
  | O => acc
  | S fuel' =>
      if n =? 0 then acc
      else digits_aux base fuel' (n / base) (String (hex_digit (n mod base)) acc)
  end.

(** The digits of [0 <= n < 2^64] in [base], ["0"] for zero. *)
Definition digits (base n : Z) : string :=
  if n =? 0 then "0"%string else digits_aux base 64 n "".

(** printf ["%#x"] and ["%#llx"]: lower-case digits, no padding, and the
    prefix [0x] on every value but zero. *)
Definition printf_alt_hex (n : Z) : string :=
  if n =? 0 then "0"%string else ("0x" ++ digits 16 n)%string.

(** printf ["%d"] of a 32-bit value. *)
Definition printf_d (n : Z) : string :=
  let n := to_uint n in
  if n <? 2 ^ 31 then digits 10 n else ("-" ++ digits 10 (2 ^ 32 - n))%string.

Definition names : list string :=
  ["inb"; "inw"; "inl"; "insb"; "insw"; "insl";
   "outb"; "outw"; "outl"; "outsb"; "outsw"; "outsl"]%string.

(** The fields [variates[i]] for [i = from .. from + n - 1]. *)
Fixpoint log_variates (vs : array_t) (from : Z) (n : nat) : option (list string) :=
  match n with
  | O => Some []
  | S n' =>
      match array_index vs from, log_variates vs (from + 1) n' with
      | Some v, Some rest => Some (printf_alt_hex (to_uint v) :: rest)
      | _, _ => None
      end
  end.

Definition newline : string := String (ascii_of_nat 10) "".

(** The fields of one log line, in order, as [thread_start] prints them
    from the state buffer, the variates and the cached [length];
    [None] when a read leaves the array.  Every field but the last is
    followed by a comma, the last by a newline. *)
Definition log_fields (now thread_num : Z) (state : list byte) (vs : array_t) (length : Z)
  : option (list string) :=
  if length =? 0 then None
  else
    let last := Z.max 1 (length - 1) in
    match array_index vs 0 with
    | Some v0 =>
        match nth_error names (Z.to_nat (to_uint v0)), log_variates vs 1 (Z.to_nat last) with
        | Some name, Some rest =>
            Some (printf_d now :: printf_d thread_num
                    :: printf_alt_hex (le_decode (firstn 8 state)) :: name :: rest)
        | _, _ => None
        end
    | None => None
    end.

Definition log_line (fields : list string) : string :=
  (String.concat "," fields ++ newline)%string.

Section Worker.

Variable port_data : list io_event -> nat -> byte.

(** [thread_start] up to the loop: the fuzzer of the worker, given the
    [--ports] argument and the shared generator [_random]. *)
Definition thread_start_setup (ports : option string) (_random : Z)
  : M (option iofuzzer_t) :=
  let* fuzzer := iofuzzer_new in
  match fuzzer with
  | None => ret None
  | Some _ =>
      let* parsed := iofuzzer_parse_ports ports in
      let* r := iofuzzer_set_ports fuzzer parsed Other in
      let* p := iofuzzer_get_ports (snd r) in
      let* p' := array_unref p in
      (* the list of the fuzzer and [p] are one object *)
      match snd r, p, p' with
      | Some fz, Some _, None => ub
      | Some fz, _, _ =>
          let* r := iofuzzer_set_random (Some (set_fz_ports fz p')) _random in
          ret (snd r)
      | None, _, _ => ret None
      end
  end.

(** One round of the loop: the fields of the line written, then the
    iteration.  [length] is the length read once before the loop. *)
Definition thread_start_round (now thread_num : Z) (fuzzer : option iofuzzer_t)
    (length : Z) : M (list string * option iofuzzer_t) :=
  let* st := iofuzzer_get_state fuzzer (Some (repeat x00 8)) 8 in
  let* vs := iofuzzer_get_variates fuzzer in
  match snd st, vs with
  | Some state, Some vs =>
      match log_fields now thread_num state vs length with
      | Some fields =>
          let* r := iofuzzer_iterate port_data fuzzer in
          ret (fields, snd r)
      | None => ub
      end
  | _, _ => ub
  end.

(** [main] with [--state arg] and [--ports ports], one worker, followed
    by the first round of worker 0: the fields of the first log line.  No
    line is written when the generator cannot be created ([main] exits). *)
Definition main_first_line (state_arg : string) (ports : option string) (now : Z)
  : M (list string) :=
  let* v := strtoul state_arg in
  let* _random := random_new_with_state (Some (le_encode 8 v)) 8 in
  if _random =? NULL then ub
  else
    let* fuzzer := thread_start_setup ports _random in
    let* vs := iofuzzer_get_variates fuzzer in
    let* length := array_get_length vs in
    let* r := thread_start_round now 0 fuzzer length in
    ret (fst r).

End Worker.

(** ** Port specs in hexadecimal *)






(** ** Well-formed states *)

(** The world holds a generator at [q] with a state buffer of at least the
    eight bytes that a snapshot copies. *)
Definition rng_live (w : world) (q : Z) : Prop :=
  q <> NULL /\ exists r, randoms w !! q = Some r /\ (8 <= List.length (rnd_state r))%nat.

(** The state buffer of the generator at [q], empty when there is none. *)
Definition rng_state (w : world) (q : Z) : list byte :=
  match randoms w !! q with
  | Some r => rnd_state r
  | None => []
  end.

(** The generator at [q] has moved on from [w] to [w']; nothing else has
    changed. *)
Definition rng_evolves (q : Z) (w w' : world) : Prop :=
  errno w' = errno w /\ brk w' = brk w /\ io_log w' = io_log w /\
  (forall p, p <> q -> randoms w' !! p = randoms w !! p) /\
  exists r r', randoms w !! q = Some r /\ randoms w' !! q = Some r' /\
               rnd_refcount r' = rnd_refcount r /\
               List.length (rnd_state r') = List.length (rnd_state r) /\
               skipn 6 (rnd_state r') = skipn 6 (rnd_state r).

(** The seven-slot array with slots 5 and 6 at the two owned buffers. *)
Definition variates_wf (fz : iofuzzer_t) : Prop :=
  exists vs, fz_variates fz = Some vs /\ arr_length vs = NUM_VARIATES /\
             (7 <= List.length (arr_data vs))%nat /\
             array_index vs 5 = Some (blk_addr (fz_variate5 fz)) /\
             array_index vs 6 = Some (blk_addr (fz_variate6 fz)).

Definition buffers_wf (fz : iofuzzer_t) : Prop :=
  List.length (blk_bytes (fz_variate5 fz)) = Z.to_nat MAXSIZE /\
  List.length (blk_bytes (fz_variate6 fz)) = Z.to_nat MAXSIZE /\
  0 < blk_addr (fz_variate5 fz) /\ 0 < blk_addr (fz_variate6 fz) /\
  (blk_addr (fz_variate5 fz) + MAXSIZE <= blk_addr (fz_variate6 fz) \/
   blk_addr (fz_variate6 fz) + MAXSIZE <= blk_addr (fz_variate5 fz)).

(** A port list that the generator can index: no list, or a list shorter
    than 2^53 inside its backing store, every entry a 16-bit port.  An
    empty list is read at index 0, so that element counts as its entry. *)
Definition ports_ok (ports : option array_t) : Prop :=
  match ports with
  | None => True
  | Some ps =>
      0 <= arr_length ps < 2 ^ 53 /\
      Z.max 1 (arr_length ps) <= Z.of_nat (List.length (arr_data ps)) /\
      forall k v, 0 <= k < Z.max 1 (arr_length ps) -> array_index ps k = Some v ->
                  0 <= v <= MAXPORT
  end.

Definition fuzzer_wf (fz : iofuzzer_t) : Prop :=
  List.length (fz_state fz) = 8%nat /\ variates_wf fz /\ buffers_wf fz /\
  ports_ok (fz_ports fz).

(** The same without the bound on the entries: a port list that the
    generator can index, whatever it holds. *)
Definition ports_readable (ports : option array_t) : Prop :=
  match ports with
  | None => True
  | Some ps =>
      0 <= arr_length ps < 2 ^ 53 /\
      Z.max 1 (arr_length ps) <= Z.of_nat (List.length (arr_data ps))
  end.

(** A fuzzer whose port list satisfies [P]. *)
Definition fuzzer_shape (P : option array_t -> Prop) (fz : iofuzzer_t) : Prop :=
  List.length (fz_state fz) = 8%nat /\ variates_wf fz /\ buffers_wf fz /\
  P (fz_ports fz).

Definition fuzzer_ok : iofuzzer_t -> Prop := fuzzer_shape ports_readable.

(** Slot [i] of the variate array. *)
Definition variate (fz : iofuzzer_t) (i : Z) : option Z :=
  match fz_variates fz with
  | Some vs => array_index vs i
  | None => None
  end.

(** The invariant of the variate tuple. *)
Definition variates_inv (fz : iofuzzer_t) : Prop :=
  (exists vs, fz_variates fz = Some vs /\ arr_length vs = 7) /\
  (exists v0, variate fz 0 = Some v0 /\ 0 <= v0 <= 11) /\
  (exists v3, variate fz 3 = Some v3 /\ 1 <= v3 <= 64) /\
  (exists v4, variate fz 4 = Some v4 /\ 0 <= v4 <= 0xFFFF).

(** The instruction that the dispatcher issues for the current tuple. *)
Definition event_of (fz : iofuzzer_t) : option io_event :=
  match variate fz 0, variate fz 1, variate fz 2, variate fz 3,
        variate fz 4, variate fz 5, variate fz 6 with
  | Some f, Some a, Some b, Some c, Some d, Some si, Some di =>
      Some (IoEvent f a b c d si di)
  | _, _, _, _, _, _, _ => None
  end.

(** What every step of the generator leaves alone. *)
Definition same_shape (fz fz' : iofuzzer_t) : Prop :=
  fz_refcount fz' = fz_refcount fz /\ fz_ports fz' = fz_ports fz /\
  fz_random fz' = fz_random fz /\
  blk_addr (fz_variate5 fz') = blk_addr (fz_variate5 fz) /\
  blk_addr (fz_variate6 fz') = blk_addr (fz_variate6 fz).

(** The world once the generator at [q] has been restored from the
    eight-byte snapshot [snapshot]. *)
Definition restore_world (q : Z) (snapshot : list byte) (w : world) : world :=
  match randoms w !! q with
  | Some r =>
      World (errno w)
            (<[q := Random (rnd_refcount r) (firstn 8 snapshot ++ skipn 8 (rnd_state r))]>
               (randoms w))
            (brk w) (io_log w)
  | None => w
  end.

(** The world once one more instruction has been issued. *)
Definition issue (ev : io_event) (w : world) : world :=
  World (errno w) (randoms w) (brk w) (ev :: io_log w).

(** The fuzzers reached from construction by the public operations other
    than [iofuzzer_set_variates], each call made in a world that holds the
    generators involved: [iofuzzer_set_random] given another live
    generator, [iofuzzer_set_ports] given its own list or, as in [ports_ok],
    no list or another list.  A call that has no result (the own list
    passed while the fuzzer holds its last reference) reaches nothing. *)
Inductive reachable (port_data : list io_event -> nat -> byte) : iofuzzer_t -> Prop :=
| reach_new w fz w' :
    0 < brk w ->
    iofuzzer_new w = Some (Some fz, w') ->
    reachable port_data fz
| reach_ref fz w b fz' w' :
    reachable port_data fz ->
    iofuzzer_ref (Some fz) w = Some ((b, Some fz'), w') ->
    reachable port_data fz'
| reach_unref fz w fz' w' :
    reachable port_data fz ->
    iofuzzer_unref (Some fz) w = Some (Some fz', w') ->
    reachable port_data fz'
| reach_iterate fz w b fz' w' :
    reachable port_data fz ->
    rng_live w (fz_random fz) ->
    iofuzzer_iterate port_data (Some fz) w = Some ((b, Some fz'), w') ->
    reachable port_data fz'
| reach_iterate_with_state fz state size w b fz' w' :
    reachable port_data fz ->
    rng_live w (fz_random fz) ->
    iofuzzer_iterate_with_state port_data (Some fz) state size w = Some ((b, Some fz'), w') ->
    reachable port_data fz'
| reach_set_state fz state size w b fz' w' :
    reachable port_data fz ->
    rng_live w (fz_random fz) ->
    iofuzzer_set_state (Some fz) state size w = Some ((b, Some fz'), w') ->
    reachable port_data fz'
| reach_set_random fz random w b fz' w' :
    reachable port_data fz ->
    rng_live w (fz_random fz) ->
    rng_live w random ->
    random <> fz_random fz ->
    iofuzzer_set_random (Some fz) random w = Some ((b, Some fz'), w') ->
    reachable port_data fz'
| reach_set_ports fz ports w b fz' w' :
    reachable port_data fz ->
    rng_live w (fz_random fz) ->
    ports_ok ports ->
    iofuzzer_set_ports (Some fz) ports Other w = Some ((b, Some fz'), w') ->
    reachable port_data fz'
| reach_set_ports_own fz ports w b fz' w' :
    reachable port_data fz ->
    rng_live w (fz_random fz) ->
    iofuzzer_set_ports (Some fz) ports Own w = Some ((b, Some fz'), w') ->
    reachable port_data fz'.

(** The world a process starts in. *)
Definition initial_world : world := World 0 ∅ 4096 [].

(** ** The variate generator as a function of the 48-bit state

    The draws of [_iofuzzer_randomize] in their order, each from the state
    [X] that the draw before it has left. *)

(** The state of the generator at [q] as a 48-bit number. *)
Definition rng_X (w : world) (q : Z) : Z := le_decode (firstn 6 (rng_state w q)).

(** The value of [random_ulong_with_range(random, b, e)] drawn from [X]. *)
Definition draw_range (b e X : Z) : Z :=
  fp_trunc
    (fp_add DBL_MANT
       (fp_mul DBL_MANT (FP (drand48_iterate X) (-48))
          (fp_of_Z DBL_MANT (to_ulong (e - b + 1))))
       (fp_of_Z DBL_MANT b)).

(** The value of [random_ulong(random)] drawn from [X]. *)
Definition draw_ulong (X : Z) : Z :=
  let hi := drand48_iterate X / 2 ^ 16 in
  to_ulong (if hi <? 2 ^ 31 then hi else hi - 2 ^ 32).

(** [_iofuzzer_random_number]: the value and the state it leaves. *)
Definition draw_number (X : Z) : Z * Z :=
  let k := draw_range 0 2 X in
  let X1 := drand48_iterate X in
  (if k =? 0 then draw_ulong X1
   else if k =? 1 then 2 ^ draw_range 1 31 X1 + 1
   else 2 ^ draw_range 1 32 X1 - 1,
   drand48_iterate X1).

(** The characters of one [random_string] of [n] draws. *)
Fixpoint draw_chars (n : nat) (X : Z) : list byte * Z :=
  match n with
  | O => ([], X)
  | S n' =>
      let c := nth (Z.to_nat (draw_range 0 (sizeof_charset - 1) X)) charset x00 in
      let r := draw_chars n' (drand48_iterate X) in
      (c :: fst r, snd r)
  end.

(** The port: an element of the list at an index drawn from
    [0, length - 1], or a value drawn from [0, MAXPORT] without a list.  A
    read outside the store has no value in C; 0 stands for it here, and it
    does not arise on the lists of [ports_ok]. *)
Definition draw_port (ports : option array_t) (X : Z) : Z :=
  match ports with
  | Some ps =>
      match array_index ps (draw_range 0 (to_ulong (arr_length ps - 1)) X) with
      | Some v => v
      | None => 0
      end
  | None => draw_range 0 MAXPORT X
  end.

Record generated := Generated {
  g_func : Z; g_a : Z; g_b : Z; g_count : Z; g_port : Z;
  g_si : list byte; g_di : list byte;   (* the characters written to the two buffers *)
  g_next : Z                            (* the state left behind *)
}.

Definition generate (ports : option array_t) (X : Z) : generated :=
  let v0 := draw_range 0 (NUM_FUNCS - 1) X in
  let X := drand48_iterate X in
  let n1 := draw_number X in
  let n2 := draw_number (snd n1) in
  let X := snd n2 in
  let v3 := draw_range 1 (MAXSIZE / 4) X in
  let X := drand48_iterate X in
  let v4 := draw_port ports X in
  let X := drand48_iterate X in
  let s5 := draw_chars 254 X in
  let s6 := draw_chars 254 (snd s5) in
  Generated v0 (fst n1) (fst n2) v3 v4 (fst s5) (fst s6) (snd s6).

(** The fuzzer shows the tuple generated from the snapshot [st]: slots 0 to
    4, and the two strings with their terminators in the buffers. *)
Definition shows (fz : iofuzzer_t) (st : list byte) : Prop :=
  let g := generate (fz_ports fz) (le_decode (firstn 6 st)) in
  variate fz 0 = Some (g_func g) /\ variate fz 1 = Some (g_a g) /\
  variate fz 2 = Some (g_b g) /\ variate fz 3 = Some (g_count g) /\
  variate fz 4 = Some (g_port g) /\
  firstn 255 (blk_bytes (fz_variate5 fz)) = g_si g ++ [x00] /\
  firstn 255 (blk_bytes (fz_variate6 fz)) = g_di g ++ [x00].

(** The tuple that the fuzzer shows is the one generated from its stored
    snapshot. *)
Definition consistent (fz : iofuzzer_t) : Prop := shows fz (fz_state fz).

(** ** Concrete states for the examples *)

(** A device that delivers zero bytes. *)
Definition quiet_device : list io_event -> nat -> byte := fun _ _ => x00.

(** The fuzzer that [iofuzzer_new] returns in the initial world, and the
    world it leaves. *)
Definition fresh_fuzzer : iofuzzer_t :=
  Eval vm_compute in
    match iofuzzer_new initial_world with
    | Some (Some fz, _) => fz
    | _ => Fuzzer 0 None 0 [] (Block 0 []) (Block 0 []) None
    end.

Definition fresh_world : world :=
  Eval vm_compute in
    match iofuzzer_new initial_world with
    | Some (_, w) => w
    | None => initial_world
    end.

Definition zero_state : list byte := repeat x00 8.

(** A four-byte buffer filled with the byte 1. *)
Definition small_buffer : list byte := [x01; x01; x01; x01].

(** The snapshot from which the first step of the generator reaches
    [2^48 - 1], so that the first draw is the largest of its range. *)
Definition top_state : list byte := le_encode 8 0x817bb27b1744.

(** The tuple as a list: the first [arr_length] slots. *)
Definition tuple (fz : iofuzzer_t) : option (list Z) :=
  option_map array_elements (fz_variates fz).

(** The fresh fuzzer after one call of [iofuzzer_iterate]. *)
Definition iterated_fuzzer : iofuzzer_t :=
  Eval vm_compute in
    match iofuzzer_iterate quiet_device (Some fresh_fuzzer) fresh_world with
    | Some ((_, Some fz), _) => fz
    | _ => fresh_fuzzer
    end.

Definition iterated_world : world :=
  Eval vm_compute in
    match iofuzzer_iterate quiet_device (Some fresh_fuzzer) fresh_world with
    | Some (_, w) => w
    | None => fresh_world
    end.

(** The port list of [--ports 0x80]. *)
Definition ports_0x80 : option array_t :=
  Eval vm_compute in
    match iofuzzer_parse_ports (Some "0x80"%string) initial_world with
    | Some (ports, _) => ports
    | None => None
    end.

(** A process with a shared generator seeded with zero and one fuzzer. *)
Definition shared_random : Z :=
  Eval vm_compute in
    match random_new_with_state (Some zero_state) 8 initial_world with
    | Some (r, _) => r
    | None => NULL
    end.

Definition shared_world : world :=
  Eval vm_compute in
    match random_new_with_state (Some zero_state) 8 initial_world with
    | Some (_, w) => w
    | None => initial_world
    end.



(** The fields of the log line that a worker writes for [iterated_fuzzer]. *)
Definition iterated_fields : list string :=
  Eval vm_compute in
    match thread_start_round quiet_device 0 0 (Some iterated_fuzzer) 7 iterated_world with
    | Some ((fields, _), _) => fields
    | None => []
    end.

(** A world with one generator, as [random_new] leaves it. *)
Definition lone_random : Z :=
  Eval vm_compute in
    match random_new initial_world with
    | Some (r, _) => r
    | None => NULL
    end.

Definition lone_world : world :=
  Eval vm_compute in
    match random_new initial_world with
    | Some (_, w) => w
    | None => initial_world
    end.

(** An array of three 8-byte elements. *)
Definition three_elements : array_t :=
  Eval vm_compute in
    match array_append_vals (array_new 8) [10; 20; 30] with
    | Some a => a
    | None => array_new 8
    end.

(** The fresh fuzzer after [iofuzzer_set_ports] with the list of
    [--ports 0x80]. *)
Definition ported_fuzzer : iofuzzer_t :=
  Eval vm_compute in
    match iofuzzer_set_ports (Some fresh_fuzzer) ports_0x80 Other fresh_world with
    | Some ((_, Some fz), _) => fz
    | _ => fresh_fuzzer
    end.

Definition ported_world : world :=
  Eval vm_compute in
    match iofuzzer_set_ports (Some fresh_fuzzer) ports_0x80 Other fresh_world with
    | Some (_, w) => w
    | None => fresh_world
    end.

Definition ported_ports : array_t :=
  Eval vm_compute in
    match fz_ports ported_fuzzer with
    | Some ps => ps
    | None => array_new 8
    end.

(** The fuzzer of a worker of the main program started with
    [--ports 0x80], as [thread_start] has set it up, and the world then. *)
Definition owner_fuzzer : iofuzzer_t :=
  Eval vm_compute in
    match thread_start_setup (Some "0x80"%string) shared_random shared_world with
    | Some (Some fz, _) => fz
    | _ => fresh_fuzzer
    end.

Definition owner_world : world :=
  Eval vm_compute in
    match thread_start_setup (Some "0x80"%string) shared_random shared_world with
    | Some (_, w) => w
    | None => shared_world
    end.

(** The port list that [owner_fuzzer] holds. *)
Definition owner_ports : array_t :=
  Eval vm_compute in
    match fz_ports owner_fuzzer with
    | Some ps => ps
    | None => array_new 8
    end.

(** An empty list whose store still holds the port 0x12345: the port was
    appended and the length then set to 0. *)
Definition stale_ports : array_t :=
  Eval vm_compute in
    match array_append_val (array_new 8) 0x12345 with
    | Some a =>
        match _array_set_length a 0 with
        | Some (Some a') => a'
        | _ => a
        end
    | None => array_new 8
    end.

(** The world a process is in after a failed call. *)
Definition failed_world : world := World EINVAL ∅ 4096 [].

(** * Properties *)

(** ** Rounding *)

Lemma pow2_split sh : 1 <= sh -> 2 ^ sh = 2 * 2 ^ (sh - 1) /\ 0 < 2 ^ (sh - 1).
Proof.
  intros H. split.
  - replace sh with (1 + (sh - 1)) at 1 by lia. rewrite Z.pow_add_r by lia. reflexivity.
  - apply Z.pow_pos_nonneg; lia.
Qed.

Lemma rne_bounds n sh :
  0 <= n -> 1 <= sh ->
  n - 2 ^ (sh - 1) <= rne n sh * 2 ^ sh <= n + 2 ^ (sh - 1)
  /\ n / 2 ^ sh <= rne n sh <= n / 2 ^ sh + 1.
Proof.
  intros Hn Hsh. destruct (pow2_split sh Hsh) as [E Hh].
  assert (Hp : 0 < 2 ^ sh) by lia.
  pose proof (Z.div_mod n (2 ^ sh) ltac:(lia)) as Hdm.
  pose proof (Z.mod_pos_bound n (2 ^ sh) Hp) as Hr.
  unfold rne.
  set (q := n / 2 ^ sh) in *. set (r := n mod 2 ^ sh) in *. set (h := 2 ^ (sh - 1)) in *.
  destruct (r <? h) eqn:C1; [apply Z.ltb_lt in C1 | apply Z.ltb_ge in C1].
  - split; nia.
  - destruct (h <? r) eqn:C2; [apply Z.ltb_lt in C2 | apply Z.ltb_ge in C2].
    + split; nia.
    + destruct (Z.even q); split; nia.
Qed.

Lemma rne_exact n sh : 1 <= sh -> n mod 2 ^ sh = 0 -> rne n sh = n / 2 ^ sh.
Proof.
  intros Hsh Hm. destruct (pow2_split sh Hsh) as [E Hh].
  unfold rne. rewrite Hm.
  destruct (0 <? 2 ^ (sh - 1)) eqn:C; [reflexivity | apply Z.ltb_ge in C; lia].
Qed.

(** Scaled value: [x * 2^48], an integer when [-48 <= fp_e x]. *)
Definition fp_val48 (x : fp) : Z := fp_m x * 2 ^ (fp_e x + 48).

Lemma log2_bitlen m : 0 < m -> 2 ^ Z.log2 m <= m < 2 ^ (Z.log2 m + 1).
Proof. intros H. pose proof (Z.log2_spec m H). unfold Z.succ in *. lia. Qed.

(** Rounding: what it does to the scaled value. *)

Lemma fp_round_small prec m e :
  0 <= m < 2 ^ prec -> 1 <= prec -> fp_round prec (FP m e) = FP m e.
Proof.
  intros Hm Hp. unfold fp_round. cbn [fp_m fp_e].
  destruct (Z.eq_dec m 0) as [->|Hz].
  - change (Z.log2 0) with 0.
    destruct (0 + 1 - prec <=? 0) eqn:C; [reflexivity | apply Z.leb_gt in C; lia].
  - assert (Z.log2 m < prec) by (apply Z.log2_lt_pow2; lia).
    destruct (Z.log2 m + 1 - prec <=? 0) eqn:C; [reflexivity | apply Z.leb_gt in C; lia].
Qed.

(** Exact rounding: the significand has enough trailing zeros. *)
Lemma fp_round_exact prec m e j :
  1 <= prec -> 0 <= m -> 0 <= j -> -48 <= e ->
  m mod 2 ^ j = 0 -> m < 2 ^ (prec + j) ->
  let y := fp_round prec (FP m e) in
  fp_val48 y = m * 2 ^ (e + 48) /\ e <= fp_e y <= e + j /\ 0 <= fp_m y.
Proof.
  intros Hp Hm Hj He Hdiv Hlt. unfold fp_round. cbn [fp_m fp_e].
  set (sh := Z.log2 m + 1 - prec).
  destruct (sh <=? 0) eqn:C; [apply Z.leb_le in C | apply Z.leb_gt in C].
  - unfold fp_val48. cbn [fp_m fp_e]. lia.
  - assert (Hm0 : 0 < m).
    { destruct (Z.eq_dec m 0) as [->|]; [|lia]. unfold sh in C.
      change (Z.log2 0) with 0 in C. lia. }
    assert (Hsh : sh <= j).
    { assert (Z.log2 m < prec + j) by (apply Z.log2_lt_pow2; lia). unfold sh. lia. }
    assert (Hd : m mod 2 ^ sh = 0).
    { apply Z.mod_divide in Hdiv; [|assert (0 < 2^j) by (apply Z.pow_pos_nonneg; lia); lia].
      apply Z.mod_divide; [assert (0 < 2^sh) by (apply Z.pow_pos_nonneg; lia); lia|].
      destruct Hdiv as [c Hc]. exists (c * 2 ^ (j - sh)).
      rewrite <- Z.mul_assoc, <- Z.pow_add_r by lia. replace (j - sh + sh) with j by lia. exact Hc. }
    rewrite rne_exact by (try lia; exact Hd).
    unfold fp_val48. cbn [fp_m fp_e].
    assert (0 < 2 ^ sh) by (apply Z.pow_pos_nonneg; lia).
    pose proof (Z.div_mod m (2 ^ sh) ltac:(lia)) as Hdm. rewrite Hd in Hdm.
    split; [|split; [lia|apply Z.div_pos; lia]].
    replace (e + sh + 48) with (sh + (e + 48)) by lia.
    rewrite Z.pow_add_r by lia. rewrite Hdm at 2. ring.
Qed.

Lemma fp_trunc_val48 x :
  -48 <= fp_e x <= 0 -> 0 <= fp_m x -> fp_trunc x = fp_val48 x / 2 ^ 48.
Proof.
  intros He Hm. unfold fp_trunc, fp_val48.
  destruct (0 <=? fp_e x) eqn:C; [apply Z.leb_le in C | apply Z.leb_gt in C].
  - assert (fp_e x = 0) as -> by lia. change (0 + 48) with 48.
    rewrite Z.div_mul by lia. change (2 ^ 0) with 1. lia.
  - replace (2 ^ 48) with (2 ^ (- fp_e x) * 2 ^ (fp_e x + 48)).
    2:{ rewrite <- Z.pow_add_r by lia. f_equal. lia. }
    assert (0 < 2 ^ (fp_e x + 48)) by (apply Z.pow_pos_nonneg; lia).
    assert (0 < 2 ^ (- fp_e x)) by (apply Z.pow_pos_nonneg; lia).
    rewrite Z.div_mul_cancel_r by lia. reflexivity.
Qed.

(** The uniform draw with lower bound zero: [trunc (x * k + 0) < k]. *)
Lemma uniform_from_zero X k :
  0 <= X < 2 ^ 48 -> 1 <= k < 2 ^ 53 ->
  0 <= fp_trunc (fp_add 53 (fp_mul 53 (FP X (-48)) (fp_of_Z 53 k)) (fp_of_Z 53 0)) < k.
Proof.
  intros HX Hk.
  unfold fp_of_Z. rewrite !fp_round_small by lia.
  unfold fp_mul. cbn [fp_m fp_e]. change (-48 + 0) with (-48).
  assert (HN : 0 <= X * k <= k * 2 ^ 48 - k) by nia.
  (* the product, rounded *)
  assert (Hmul : exists m1 e1, fp_round 53 (FP (X * k) (-48)) = FP m1 e1
            /\ -48 <= e1 <= 0 /\ 0 <= m1 <= 2 ^ 53 /\ m1 * 2 ^ (e1 + 48) < k * 2 ^ 48
            /\ (m1 = 2 ^ 53 -> e1 < 0)).
  { unfold fp_round. cbn [fp_m fp_e]. set (sh := Z.log2 (X * k) + 1 - 53).
    destruct (sh <=? 0) eqn:C; [apply Z.leb_le in C | apply Z.leb_gt in C].
    - exists (X * k), (-48). split; [reflexivity|].
      assert (X * k < 2 ^ 53).
      { destruct (Z.eq_dec (X * k) 0) as [->|]; [lia|].
        apply Z.log2_lt_pow2; [lia|]. unfold sh in C. lia. }
      change (-48 + 48) with 0. change (2 ^ 0) with 1. lia.
    - assert (Hpos : 0 < X * k).
      { destruct (Z.eq_dec (X * k) 0) as [E|]; [|lia]. unfold sh in C. rewrite E in C.
        change (Z.log2 0) with 0 in C. lia. }
      pose proof (log2_bitlen _ Hpos) as [Hlo Hhi].
      replace (Z.log2 (X * k)) with (sh + 52) in Hlo by (unfold sh; lia).
      replace (Z.log2 (X * k) + 1) with (sh + 53) in Hhi by (unfold sh; lia).
      rewrite Z.pow_add_r in Hlo, Hhi by lia.
      destruct (pow2_split sh ltac:(lia)) as [E Hh].
      destruct (rne_bounds (X * k) sh ltac:(lia) ltac:(lia)) as [[_ Hub] [Hq0 Hq1]].
      assert (Hsh48 : sh <= 48).
      { destruct (Z_le_gt_dec sh 48) as [|G]; [assumption|exfalso].
        assert (2 ^ 49 <= 2 ^ sh) by (apply Z.pow_le_mono_r; lia). nia. }
      exists (rne (X * k) sh), (-48 + sh). split; [reflexivity|].
      replace (-48 + sh + 48) with sh by lia.
      assert (X * k / 2 ^ sh < 2 ^ 53).
      { apply Z.div_lt_upper_bound; lia. }
      assert (0 <= X * k / 2 ^ sh) by (apply Z.div_pos; lia).
      assert (Hkh : 2 ^ (sh - 1) < k) by nia.
      repeat split; try lia.
      intros Em. destruct (Z.eq_dec sh 48) as [E48|]; [|lia]. exfalso.
      rewrite Em, E48 in Hub. rewrite E48 in Hkh. lia. }
  destruct Hmul as (m1 & e1 & -> & He1 & Hm1 & Hval & Htop).
  unfold fp_add. cbn [fp_m fp_e].
  rewrite Z.min_l by lia. rewrite Z.sub_diag. change (2 ^ 0) with 1.
  rewrite Z.mul_0_l, Z.mul_1_r, Z.add_0_r.
  destruct (fp_round_exact 53 m1 e1 (if Z.eq_dec m1 (2 ^ 53) then 1 else 0)) as (Hv & He & Hm);
    try lia.
  { destruct (Z.eq_dec m1 (2 ^ 53)); lia. }
  { destruct (Z.eq_dec m1 (2 ^ 53)) as [->|]; [reflexivity|apply Z.mod_1_r]. }
  { destruct (Z.eq_dec m1 (2 ^ 53)) as [->|]; [reflexivity|].
    change (53 + 0) with 53. lia. }
  rewrite fp_trunc_val48; [|destruct (Z.eq_dec m1 (2 ^ 53)); lia|assumption].
  rewrite Hv. split.
  - apply Z.div_pos; [|lia]. assert (0 < 2 ^ (e1 + 48)) by (apply Z.pow_pos_nonneg; lia). nia.
  - apply Z.div_lt_upper_bound; lia.
Qed.

(** The uniform draw with lower bound one and [k = k' * 2^j], [k' <= 31]:
    every step is exact. *)
Lemma uniform_from_one X k k' j :
  0 <= X < 2 ^ 48 -> 1 <= k' <= 31 -> 0 <= j <= 16 -> k = k' * 2 ^ j ->
  fp_trunc (fp_add 53 (fp_mul 53 (FP X (-48)) (fp_of_Z 53 k)) (fp_of_Z 53 1))
  = 1 + X * k / 2 ^ 48.
Proof.
  intros HX Hk' Hj ->.
  assert (Hpj : 0 < 2 ^ j <= 2 ^ 16).
  { split; [apply Z.pow_pos_nonneg; lia | apply Z.pow_le_mono_r; lia]. }
  unfold fp_of_Z. rewrite !fp_round_small by (try lia; nia).
  unfold fp_mul. cbn [fp_m fp_e]. change (-48 + 0) with (-48).
  assert (Hkj : 0 < k' * 2 ^ j) by (apply Z.mul_pos_pos; lia).
  assert (HXk : 0 <= X * (k' * 2 ^ j)) by (apply Z.mul_nonneg_nonneg; lia).
  destruct (fp_round_exact 53 (X * (k' * 2 ^ j)) (-48) j) as (Hv & He & Hm); try lia.
  { replace (X * (k' * 2 ^ j)) with (X * k' * 2 ^ j) by ring. apply Z.mod_mul. lia. }
  { rewrite Z.pow_add_r by lia. nia. }
  destruct (fp_round 53 (FP (X * (k' * 2 ^ j)) (-48))) as [m1 e1] eqn:E1.
  unfold fp_val48 in Hv. cbn [fp_m fp_e] in *. change (-48 + 48) with 0 in Hv.
  change (2 ^ 0) with 1 in Hv. rewrite Z.mul_1_r in Hv.
  unfold fp_add. cbn [fp_m fp_e].
  rewrite Z.min_l by lia. rewrite Z.sub_diag. change (2 ^ 0) with 1.
  rewrite Z.mul_1_r, Z.mul_1_l. replace (0 - e1) with (- e1) by lia.
  set (s1 := e1 + 48) in *.
  assert (Hps : 0 < 2 ^ s1) by (apply Z.pow_pos_nonneg; lia).
  assert (H48 : 2 ^ 48 = 2 ^ (- e1) * 2 ^ s1).
  { rewrite <- Z.pow_add_r by lia. f_equal. lia. }
  assert (Hpe : 0 < 2 ^ (- e1)) by (apply Z.pow_pos_nonneg; lia).
  assert (Hjs : 2 ^ j = 2 ^ (j - s1) * 2 ^ s1).
  { rewrite <- Z.pow_add_r by lia. f_equal. lia. }
  assert (Hpjs : 0 < 2 ^ (j - s1)) by (apply Z.pow_pos_nonneg; lia).
  destruct (fp_round_exact 53 (m1 + 2 ^ (- e1)) e1 (j - s1)) as (Hv2 & He2 & Hm2); try lia.
  { assert (Hm1 : m1 = X * k' * 2 ^ (j - s1)).
    { apply (Z.mul_cancel_r _ _ (2 ^ s1)); [lia|]. rewrite Hv. rewrite Hjs. ring. }
    assert (He1' : 2 ^ (- e1) = 2 ^ (48 - j) * 2 ^ (j - s1)).
    { rewrite <- Z.pow_add_r by lia. f_equal. lia. }
    rewrite Hm1, He1'. rewrite <- Z.mul_add_distr_r. apply Z.mod_mul. lia. }
  { rewrite Z.pow_add_r by lia.
    assert ((m1 + 2 ^ (- e1)) * 2 ^ s1 < 2 ^ 53 * 2 ^ (j - s1) * 2 ^ s1); [|nia].
    rewrite <- Z.mul_assoc, <- Hjs. rewrite Z.mul_add_distr_r, Hv, <- H48.
    change (2 ^ 53) with (32 * 2 ^ 48). nia. }
  rewrite fp_trunc_val48 by lia. rewrite Hv2.
  fold s1. rewrite Z.mul_add_distr_r, Hv, <- H48.
  replace (X * (k' * 2 ^ j) + 2 ^ 48) with (X * (k' * 2 ^ j) + 1 * 2 ^ 48) by ring.
  rewrite Z.div_add by lia. lia.
Qed.

(** ** The monad *)

Lemma bind_eq {A B} (c : M A) (k : A -> M B) w a w' :
  c w = Some (a, w') -> bind c k w = k a w'.
Proof. intros E. unfold bind. rewrite E. reflexivity. Qed.

Lemma bind_inv {A B} (c : M A) (k : A -> M B) w r :
  bind c k w = Some r -> exists a w', c w = Some (a, w') /\ k a w' = Some r.
Proof.
  unfold bind. destruct (c w) as [[a w']|]; [|discriminate].
  intros E. exists a, w'. split; [reflexivity|exact E].
Qed.

Lemma get_random_eq q w r :
  q <> NULL -> randoms w !! q = Some r -> get_random q w = Some (r, w).
Proof.
  intros Hq Hr. unfold get_random.
  destruct (q =? NULL) eqn:C; [apply Z.eqb_eq in C; contradiction|].
  rewrite Hr. reflexivity.
Qed.

(** ** Bytes *)

Lemma le_encode_length n z : List.length (le_encode n z) = n.
Proof. revert z. induction n as [|n IH]; intros z; simpl; [reflexivity|]. rewrite IH. reflexivity. Qed.

Lemma memcpy_spec dst src n :
  0 <= n -> n <= Z.of_nat (List.length src) -> n <= Z.of_nat (List.length dst) ->
  memcpy dst src n = Some (firstn (Z.to_nat n) src ++ skipn (Z.to_nat n) dst).
Proof.
  intros H0 H1 H2. unfold memcpy.
  apply Z.leb_le in H1, H2. rewrite H1, H2. reflexivity.
Qed.

(** ** The generator *)

Lemma drand48_iterate_range X : 0 <= drand48_iterate X < 2 ^ 48.
Proof. unfold drand48_iterate. apply Z.mod_pos_bound. reflexivity. Qed.

Lemma rng_evolves_refl q w r :
  randoms w !! q = Some r -> rng_evolves q w w.
Proof.
  intros Hr. repeat split; try reflexivity. exists r, r. repeat split; assumption.
Qed.

Lemma rng_evolves_trans q w1 w2 w3 :
  rng_evolves q w1 w2 -> rng_evolves q w2 w3 -> rng_evolves q w1 w3.
Proof.
  intros (E1 & B1 & L1 & F1 & r1 & r2 & Hr1 & Hr2 & C1 & N1 & S1)
         (E2 & B2 & L2 & F2 & r2' & r3 & Hr2' & Hr3 & C2 & N2 & S2).
  rewrite Hr2 in Hr2'. injection Hr2' as <-.
  repeat split; try congruence.
  - intros p Hp. rewrite F2, F1 by assumption. reflexivity.
  - exists r1, r3. repeat split; congruence.
Qed.

Lemma rng_evolves_live q w w' :
  rng_live w q -> rng_evolves q w w' -> rng_live w' q.
Proof.
  intros (Hq & r & Hr & Hlen) (_ & _ & _ & _ & r1 & r2 & Hr1 & Hr2 & _ & N & _).
  split; [assumption|]. exists r2. split; [assumption|].
  rewrite Hr in Hr1. injection Hr1 as <-. lia.
Qed.

Lemma rng_evolves_put q w r st :
  randoms w !! q = Some r ->
  List.length st = List.length (rnd_state r) ->
  skipn 6 st = skipn 6 (rnd_state r) ->
  rng_evolves q w (World (errno w) (<[q := Random (rnd_refcount r) st]> (randoms w))
                     (brk w) (io_log w)).
Proof.
  intros Hr Hl Hs. repeat split; cbn [errno brk io_log randoms].
  - intros p Hp. apply lookup_insert_ne. congruence.
  - exists r, (Random (rnd_refcount r) st). cbn [rnd_refcount rnd_state].
    repeat split; try assumption. apply lookup_insert_eq.
Qed.

Lemma stepped_state_length (X : Z) (st : list byte) :
  (6 <= List.length st)%nat ->
  List.length (le_encode 6 X ++ skipn 6 st) = List.length st
  /\ skipn 6 (le_encode 6 X ++ skipn 6 st) = skipn 6 st.
Proof.
  intros H. split.
  - rewrite length_app, le_encode_length, length_skipn. lia.
  - change 6%nat with (List.length (le_encode 6 X)) at 1.
    rewrite skipn_app, skipn_all, Nat.sub_diag. reflexivity.
Qed.

Lemma random_double_spec q w :
  rng_live w q ->
  exists X w', random_double q w = Some (FP X (-48), w')
               /\ 0 <= X < 2 ^ 48 /\ rng_evolves q w w'.
Proof.
  intros (Hq & r & Hr & Hlen).
  unfold random_double, bind. rewrite (get_random_eq q w r Hq Hr).
  unfold erand48.
  destruct (6 <=? List.length (rnd_state r))%nat eqn:C;
    [|apply Nat.leb_gt in C; lia].
  set (X := drand48_iterate (le_decode (firstn 6 (rnd_state r)))).
  exists X. eexists. split; [reflexivity|].
  split; [apply drand48_iterate_range|].
  destruct (stepped_state_length X (rnd_state r)) as [Hl Hs]; [lia|].
  cbn [errno randoms brk io_log]. apply rng_evolves_put; assumption.
Qed.

Lemma random_ulong_spec q w :
  rng_live w q ->
  exists v w', random_ulong q w = Some (v, w') /\ rng_evolves q w w'.
Proof.
  intros (Hq & r & Hr & Hlen).
  unfold random_ulong, bind. rewrite (get_random_eq q w r Hq Hr).
  unfold jrand48.
  destruct (6 <=? List.length (rnd_state r))%nat eqn:C;
    [|apply Nat.leb_gt in C; lia].
  set (X := drand48_iterate (le_decode (firstn 6 (rnd_state r)))).
  eexists. eexists. split; [reflexivity|].
  destruct (stepped_state_length X (rnd_state r)) as [Hl Hs]; [lia|].
  cbn [errno randoms brk io_log]. apply rng_evolves_put; assumption.
Qed.

Lemma fp_to_ulong_eq x w :
  fp_trunc x <= ULONG_MAX -> fp_to_ulong x w = Some (fp_trunc x, w).
Proof.
  intros H. unfold fp_to_ulong. apply Z.leb_le in H. rewrite H. reflexivity.
Qed.

(** A draw from [[0, e]]. *)
Lemma random_range_from_zero q e w :
  rng_live w q -> 0 <= e < 2 ^ 53 - 1 ->
  exists v w', random_ulong_with_range q 0 e w = Some (v, w')
               /\ 0 <= v <= e /\ rng_evolves q w w'.
Proof.
  intros Hlive He.
  destruct (random_double_spec q w Hlive) as (X & w' & E & HX & Hev).
  unfold random_ulong_with_range. rewrite (bind_eq _ _ _ _ _ E).
  replace (to_ulong (e - 0 + 1)) with (e + 1).
  2:{ unfold to_ulong, ULONG_BITS. rewrite Z.mod_small; lia. }
  pose proof (uniform_from_zero X (e + 1) HX ltac:(lia)) as Hr.
  unfold DBL_MANT. rewrite fp_to_ulong_eq by (unfold ULONG_MAX, ULONG_BITS; lia).
  eexists. eexists. split; [reflexivity|]. split; [lia|assumption].
Qed.

(** The draw from [[0, ULONG_MAX]], as made for an empty port list: the
    width [end - begin + 1] wraps to zero and so does the draw. *)
Lemma random_range_wrapped q w :
  rng_live w q ->
  exists w', random_ulong_with_range q 0 ULONG_MAX w = Some (0, w')
             /\ rng_evolves q w w'.
Proof.
  intros Hlive.
  destruct (random_double_spec q w Hlive) as (X & w' & E & HX & Hev).
  unfold random_ulong_with_range. rewrite (bind_eq _ _ _ _ _ E).
  change (to_ulong (ULONG_MAX - 0 + 1)) with 0.
  unfold DBL_MANT, fp_of_Z. rewrite !fp_round_small by lia.
  unfold fp_mul. cbn [fp_m fp_e]. rewrite Z.mul_0_r.
  rewrite fp_round_small by lia.
  unfold fp_add. cbn [fp_m fp_e]. rewrite !Z.mul_0_l. change (0 + 0) with 0.
  rewrite fp_round_small by lia.
  exists w'. split; [|assumption].
  unfold fp_to_ulong, fp_trunc. cbn [fp_m fp_e].
  destruct (0 <=? Z.min (-48 + 0) 0); reflexivity.
Qed.

(** A draw from [[1, e]] for [e = e' * 2^j], [e' <= 31]. *)
Lemma random_range_from_one q e e' j w :
  rng_live w q -> 1 <= e' <= 31 -> 0 <= j <= 16 -> e = e' * 2 ^ j ->
  exists v w', random_ulong_with_range q 1 e w = Some (v, w')
               /\ 1 <= v <= e /\ rng_evolves q w w'.
Proof.
  intros Hlive He' Hj He.
  assert (Hpj : 0 < 2 ^ j <= 2 ^ 16).
  { split; [apply Z.pow_pos_nonneg; lia | apply Z.pow_le_mono_r; lia]. }
  assert (He1 : 1 <= e < 2 ^ 53) by nia.
  destruct (random_double_spec q w Hlive) as (X & w' & E & HX & Hev).
  unfold random_ulong_with_range. rewrite (bind_eq _ _ _ _ _ E).
  replace (to_ulong (e - 1 + 1)) with e.
  2:{ unfold to_ulong, ULONG_BITS. rewrite Z.mod_small; lia. }
  pose proof (uniform_from_one X e e' j HX He' Hj He) as Hr.
  assert (0 <= X * e / 2 ^ 48 < e).
  { split; [apply Z.div_pos; nia | apply Z.div_lt_upper_bound; nia]. }
  unfold DBL_MANT. rewrite fp_to_ulong_eq by (unfold ULONG_MAX, ULONG_BITS; lia).
  eexists. eexists. split; [reflexivity|]. split; [lia|assumption].
Qed.

Lemma small_range_cases (P : Z -> bool) (lo : Z) (n : nat) :
  forallb P (map (fun k => lo + Z.of_nat k) (seq 0 n)) = true ->
  forall z, lo <= z < lo + Z.of_nat n -> P z = true.
Proof.
  intros H z Hz. rewrite forallb_forall in H. apply H.
  apply in_map_iff. exists (Z.to_nat (z - lo)). split; [lia|].
  apply in_seq. lia.
Qed.

Lemma pow2_plus_one n :
  1 <= n <= 31 -> fp_trunc (fp_add DBL_MANT (FP 1 n) (fp_of_Z DBL_MANT 1)) = 2 ^ n + 1.
Proof.
  intros Hn. apply Z.eqb_eq.
  apply (small_range_cases
           (fun n => fp_trunc (fp_add DBL_MANT (FP 1 n) (fp_of_Z DBL_MANT 1)) =? 2 ^ n + 1)
           1 31); [vm_compute; reflexivity|lia].
Qed.

Lemma pow2_minus_one n :
  1 <= n <= 32 -> fp_trunc (fp_sub DBL_MANT (FP 1 n) (fp_of_Z DBL_MANT 1)) = 2 ^ n - 1.
Proof.
  intros Hn. apply Z.eqb_eq.
  apply (small_range_cases
           (fun n => fp_trunc (fp_sub DBL_MANT (FP 1 n) (fp_of_Z DBL_MANT 1)) =? 2 ^ n - 1)
           1 32); [vm_compute; reflexivity|lia].
Qed.

Lemma random_fermat_number_spec q w :
  rng_live w q ->
  exists n w', random_fermat_number q w = Some (2 ^ n + 1, w')
               /\ 1 <= n <= 31 /\ rng_evolves q w w'.
Proof.
  intros Hlive.
  destruct (random_range_from_one q 31 31 0 w Hlive) as (n & w' & E & Hn & Hev);
    [lia|lia|reflexivity|].
  unfold random_fermat_number, random_number_with_range. rewrite (bind_eq _ _ _ _ _ E).
  assert (2 ^ n <= 2 ^ 31) by (apply Z.pow_le_mono_r; lia).
  rewrite fp_to_ulong_eq; rewrite pow2_plus_one by lia.
  - exists n, w'. split; [reflexivity|split; [lia|assumption]].
  - unfold ULONG_MAX, ULONG_BITS. lia.
Qed.

Lemma random_mersenne_number_spec q w :
  rng_live w q ->
  exists n w', random_mersenne_number q w = Some (2 ^ n - 1, w')
               /\ 1 <= n <= 32 /\ rng_evolves q w w'.
Proof.
  intros Hlive.
  destruct (random_range_from_one q 32 16 1 w Hlive) as (n & w' & E & Hn & Hev);
    [lia|lia|reflexivity|].
  unfold random_mersenne_number, random_number_with_range. rewrite (bind_eq _ _ _ _ _ E).
  assert (2 ^ n <= 2 ^ 32) by (apply Z.pow_le_mono_r; lia).
  rewrite fp_to_ulong_eq; rewrite pow2_minus_one by lia.
  - exists n, w'. split; [reflexivity|split; [lia|assumption]].
  - unfold ULONG_MAX, ULONG_BITS. lia.
Qed.

Lemma sizeof_charset_eq : sizeof_charset = 97.
Proof. reflexivity. Qed.

(** The loop of [random_string] from the counter [i] on, on a buffer with
    room for the [count - i] characters left and the terminator. *)
Lemma random_string_loop_spec q buf :
  forall i count w,
    rng_live w q -> 0 <= i <= count -> count <= INT_MAX ->
    count - i < Z.of_nat (List.length buf) ->
    exists chars w',
      random_string_loop q buf i count w
      = Some (chars ++ x00 :: skipn (Z.to_nat (count - i) + 1) buf, w')
      /\ List.length chars = Z.to_nat (count - i)
      /\ Forall (fun c => In c charset) chars
      /\ rng_evolves q w w'.
Proof.
  induction buf as [|b rest IH]; intros i count w Hlive Hi Hmax Hc; [simpl in Hc; lia|].
  cbn [random_string_loop].
  destruct (i <? count) eqn:C; [apply Z.ltb_lt in C | apply Z.ltb_ge in C].
  - rewrite sizeof_charset_eq. change (97 - 1) with 96.
    destruct (random_range_from_zero q 96 w Hlive) as (k & w1 & E & Hk & Hev1); [lia|].
    unfold random_number_with_range. rewrite (bind_eq _ _ _ _ _ E).
    destruct (nth_error charset (Z.to_nat k)) as [c|] eqn:Hc'.
    2:{ apply nth_error_None in Hc'. change (List.length charset) with 97%nat in Hc'. lia. }
    replace (i + 1 <=? INT_MAX) with true by (symmetry; apply Z.leb_le; lia).
    pose proof (rng_evolves_live _ _ _ Hlive Hev1) as Hlive1.
    destruct (IH (i + 1) count w1 Hlive1) as (chars & w2 & E2 & Hl & Hf & Hev2); [lia|lia| |].
    { cbn [List.length] in Hc. lia. }
    rewrite (bind_eq _ _ _ _ _ E2).
    exists (c :: chars), w2. split; [|split; [|split]].
    + replace (Z.to_nat (count - i) + 1)%nat with (S (Z.to_nat (count - (i + 1)) + 1)) by lia.
      reflexivity.
    + cbn [List.length]. lia.
    + constructor; [eapply nth_error_In; eassumption | assumption].
    + eapply rng_evolves_trans; eassumption.
  - assert (count = i) as -> by lia. rewrite Z.sub_diag.
    destruct Hlive as (Hq & r & Hr & Hlen).
    exists [], w. split; [reflexivity|]. split; [reflexivity|].
    split; [constructor|]. eapply rng_evolves_refl; eassumption.
Qed.


Lemma random_string_spec q buf n w :
  rng_live w q -> 2 <= n -> n - 1 <= Z.of_nat (List.length buf) -> n - 2 <= INT_MAX ->
  exists chars w',
    random_string q (Some buf) n w
    = Some (Some (chars ++ x00 :: skipn (Z.to_nat (n - 1)) buf), w')
    /\ Z.of_nat (List.length chars) = n - 2
    /\ Forall (fun c => In c charset) chars
    /\ rng_evolves q w w'.
Proof.
  intros Hlive Hn Hb Hmax. unfold random_string.
  destruct Hlive as [Hq Hr]. destruct (q =? NULL) eqn:C; [apply Z.eqb_eq in C; contradiction|].
  replace (to_ulong (n - 2)) with (n - 2).
  2:{ unfold to_ulong. rewrite Z.mod_small; [reflexivity|].
      unfold INT_MAX, ULONG_BITS in *. lia. }
  destruct (random_string_loop_spec q buf 0 (n - 2) w (conj Hq Hr))
    as (chars & w' & E & Hl & Hf & Hev); [lia|lia|lia|].
  rewrite Z.sub_0_r in E, Hl.
  rewrite (bind_eq _ _ _ _ _ E).
  exists chars, w'. split; [|split; [lia|split; assumption]].
  replace (Z.to_nat (n - 1)) with (Z.to_nat (n - 2) + 1)%nat by lia. reflexivity.
Qed.



(** ** Raw array access *)

Lemma array_store_spec (a : array_t) (i v : Z) :
  0 <= i < Z.of_nat (List.length (arr_data a)) ->
  exists a', array_store a i v = Some a'
             /\ arr_length a' = arr_length a
             /\ List.length (arr_data a') = List.length (arr_data a)
             /\ array_index a' i = Some v
             /\ (forall j, j <> i -> array_index a' j = array_index a j).
Proof.
  intros Hi. unfold array_store.
  destruct (0 <=? i) eqn:C1; [|apply Z.leb_gt in C1; lia].
  destruct (i <? Z.of_nat (List.length (arr_data a))) eqn:C2; [|apply Z.ltb_ge in C2; lia].
  cbn [andb]. eexists. split; [reflexivity|]. cbn [arr_length arr_data].
  split; [reflexivity|]. split; [apply length_insert|]. split.
  - unfold array_index. cbn [arr_data]. rewrite C1.
    apply list_lookup_insert_eq. lia.
  - intros j Hj. unfold array_index. cbn [arr_data].
    destruct (0 <=? j) eqn:C3; [|reflexivity]. apply Z.leb_le in C3.
    apply list_lookup_insert_ne. lia.
Qed.

Lemma array_index_in_range (a : array_t) (k : Z) :
  0 <= k < Z.of_nat (List.length (arr_data a)) -> exists v, array_index a k = Some v.
Proof.
  intros Hk. unfold array_index.
  destruct (0 <=? k) eqn:C; [|apply Z.leb_gt in C; lia].
  destruct (lookup_lt_is_Some_2 (arr_data a) (Z.to_nat k)) as [v Hv]; [lia|].
  exists v. exact Hv.
Qed.

(** ** The variate generator *)

Lemma same_shape_refl fz : same_shape fz fz.
Proof. repeat split. Qed.

Lemma same_shape_trans fz1 fz2 fz3 :
  same_shape fz1 fz2 -> same_shape fz2 fz3 -> same_shape fz1 fz3.
Proof.
  intros (A1 & A2 & A3 & A4 & A5) (B1 & B2 & B3 & B4 & B5).
  repeat split; congruence.
Qed.

Lemma fuzzer_wf_ok fz : fuzzer_wf fz -> fuzzer_ok fz.
Proof.
  intros (A & B & C & D). split; [exact A|]. split; [exact B|]. split; [exact C|].
  destruct (fz_ports fz) as [ps|]; [|exact I]. destruct D as (D1 & D2 & _). split; assumption.
Qed.

Lemma fuzzer_ok_wf fz : fuzzer_ok fz -> ports_ok (fz_ports fz) -> fuzzer_wf fz.
Proof. intros (A & B & C & _) D. split; [exact A|]. split; [exact B|]. split; assumption. Qed.

Lemma store_variate_spec {P} fz i v w :
  fuzzer_shape P fz -> 0 <= i < 7 ->
  (i = 5 -> v = blk_addr (fz_variate5 fz)) ->
  (i = 6 -> v = blk_addr (fz_variate6 fz)) ->
  exists fz', store_variate fz i v w = Some (fz', w)
              /\ fuzzer_shape P fz' /\ same_shape fz fz'
              /\ fz_state fz' = fz_state fz
              /\ fz_variate5 fz' = fz_variate5 fz /\ fz_variate6 fz' = fz_variate6 fz
              /\ variate fz' i = Some v
              /\ (forall j, j <> i -> variate fz' j = variate fz j).
Proof.
  intros (Hst & (vs & Hvs & Hlen & Hcap & H5 & H6) & Hbuf & Hports) Hi Hi5 Hi6.
  destruct (array_store_spec vs i v) as (vs' & E & Hl' & Hc' & Hget & Hother); [lia|].
  unfold store_variate. rewrite Hvs, E.
  eexists. split; [reflexivity|].
  split; [|split; [repeat split|]].
  - split; [exact Hst|]. split; [|split; [exact Hbuf|exact Hports]].
    exists vs'. cbn [set_fz_variates fz_variates fz_variate5 fz_variate6].
    split; [reflexivity|]. split; [congruence|]. split; [lia|].
    split.
    + destruct (Z.eq_dec i 5) as [->|N]; [rewrite Hget, Hi5 by reflexivity; reflexivity|].
      rewrite Hother by congruence. exact H5.
    + destruct (Z.eq_dec i 6) as [->|N]; [rewrite Hget, Hi6 by reflexivity; reflexivity|].
      rewrite Hother by congruence. exact H6.
  - cbn [set_fz_variates fz_state fz_variate5 fz_variate6].
    repeat (split; [reflexivity|]).
    unfold variate. cbn [set_fz_variates fz_variates]. rewrite Hvs.
    split; [exact Hget|exact Hother].
Qed.

Lemma load_variate_eq fz i v w :
  variate fz i = Some v -> load_variate fz i w = Some (v, w).
Proof.
  unfold variate, load_variate. destruct (fz_variates fz) as [vs|]; [|discriminate].
  intros ->. reflexivity.
Qed.

Lemma load_from_variate5 fz :
  buffers_wf fz ->
  load_from fz (blk_addr (fz_variate5 fz)) = Some (blk_bytes (fz_variate5 fz)).
Proof.
  intros (L5 & L6 & A5 & A6 & D). unfold load_from, in_block.
  rewrite L5. change (Z.of_nat (Z.to_nat MAXSIZE)) with 256.
  destruct (blk_addr (fz_variate5 fz) <=? blk_addr (fz_variate5 fz)) eqn:C1;
    [|apply Z.leb_gt in C1; lia].
  destruct (blk_addr (fz_variate5 fz) <? blk_addr (fz_variate5 fz) + 256) eqn:C2;
    [|apply Z.ltb_ge in C2; lia].
  cbn [andb]. rewrite Z.sub_diag. reflexivity.
Qed.

Lemma in_block_variate5_variate6 fz :
  buffers_wf fz -> in_block (fz_variate5 fz) (blk_addr (fz_variate6 fz)) = false.
Proof.
  intros (L5 & L6 & A5 & A6 & D). unfold in_block.
  rewrite L5. change (Z.of_nat (Z.to_nat MAXSIZE)) with 256. unfold MAXSIZE in D.
  destruct D as [D|D].
  - destruct (blk_addr (fz_variate6 fz) <? blk_addr (fz_variate5 fz) + 256) eqn:C;
      [apply Z.ltb_lt in C; lia|]. apply andb_false_r.
  - destruct (blk_addr (fz_variate5 fz) <=? blk_addr (fz_variate6 fz)) eqn:C;
      [apply Z.leb_le in C; lia|]. reflexivity.
Qed.

Lemma in_block_variate6 fz :
  buffers_wf fz -> in_block (fz_variate6 fz) (blk_addr (fz_variate6 fz)) = true.
Proof.
  intros (L5 & L6 & A5 & A6 & D). unfold in_block.
  rewrite L6. change (Z.of_nat (Z.to_nat MAXSIZE)) with 256.
  destruct (blk_addr (fz_variate6 fz) <=? blk_addr (fz_variate6 fz)) eqn:C1;
    [|apply Z.leb_gt in C1; lia].
  destruct (blk_addr (fz_variate6 fz) <? blk_addr (fz_variate6 fz) + 256) eqn:C2;
    [|apply Z.ltb_ge in C2; lia].
  reflexivity.
Qed.

Lemma load_from_variate6 fz :
  buffers_wf fz ->
  load_from fz (blk_addr (fz_variate6 fz)) = Some (blk_bytes (fz_variate6 fz)).
Proof.
  intros Hb. unfold load_from.
  rewrite (in_block_variate5_variate6 fz Hb), (in_block_variate6 fz Hb).
  rewrite Z.sub_diag. reflexivity.
Qed.

(** Refilling one of the two buffers through its slot. *)
Lemma randomize_string_spec fz i w :
  fuzzer_wf fz -> rng_live w (fz_random fz) -> i = 5 \/ i = 6 ->
  exists fz' w', randomize_string fz i w = Some (fz', w')
                 /\ fuzzer_wf fz' /\ same_shape fz fz'
                 /\ fz_state fz' = fz_state fz
                 /\ (forall j, variate fz' j = variate fz j)
                 /\ rng_evolves (fz_random fz) w w'.
Proof.
  intros Hwf Hlive Hi.
  pose proof Hwf as (Hst & (vs & Hvs & Hlen & Hcap & H5 & H6) & Hbuf & Hports).
  pose proof Hbuf as (L5 & L6 & A5 & A6 & D).
  set (p := if Z.eq_dec i 5 then blk_addr (fz_variate5 fz) else blk_addr (fz_variate6 fz)).
  set (buf := if Z.eq_dec i 5 then blk_bytes (fz_variate5 fz) else blk_bytes (fz_variate6 fz)).
  assert (Hp : variate fz i = Some p).
  { unfold variate, p. rewrite Hvs. destruct Hi as [-> | ->]; assumption. }
  assert (Hload : load_from fz p = Some buf).
  { unfold p, buf. destruct (Z.eq_dec i 5);
      [apply load_from_variate5 | apply load_from_variate6]; assumption. }
  assert (Hbl : List.length buf = 256%nat).
  { unfold buf. destruct (Z.eq_dec i 5); assumption. }
  assert (Hp0 : (p =? NULL) = false).
  { apply Z.eqb_neq. unfold p, NULL. destruct (Z.eq_dec i 5); lia. }
  unfold randomize_string.
  rewrite (bind_eq _ _ _ _ _ (load_variate_eq fz i p w Hp)), Hp0, Hload.
  destruct (random_string_spec (fz_random fz) buf MAXSIZE w Hlive) as
    (chars & w' & E & Hcl & Hcf & Hev);
    [unfold MAXSIZE; lia | unfold MAXSIZE; lia | unfold MAXSIZE, INT_MAX; lia |].
  rewrite (bind_eq _ _ _ _ _ E).
  set (buf' := chars ++ x00 :: skipn (Z.to_nat (MAXSIZE - 1)) buf) in *.
  assert (Hbl' : List.length buf' = 256%nat).
  { unfold buf'. rewrite length_app. cbn [List.length]. rewrite length_skipn, Hbl.
    unfold MAXSIZE in *. lia. }
  assert (Hwf' : fuzzer_wf (store_from fz p buf')
                 /\ same_shape fz (store_from fz p buf')
                 /\ fz_state (store_from fz p buf') = fz_state fz
                 /\ fz_variates (store_from fz p buf') = fz_variates fz).
  { unfold store_from, p. destruct (Z.eq_dec i 5) as [E5|N5].
    - assert (in_block (fz_variate5 fz) (blk_addr (fz_variate5 fz)) = true) as ->.
      { unfold in_block. rewrite L5. change (Z.of_nat (Z.to_nat MAXSIZE)) with 256.
        apply andb_true_intro. split; [apply Z.leb_le | apply Z.ltb_lt]; lia. }
      unfold block_store. rewrite Z.sub_diag. cbn [Z.to_nat firstn app].
      split; [|repeat split].
      split; [exact Hst|]. split; [exists vs; repeat split; assumption|].
      split; [|exact Hports]. repeat split; cbn [fz_variate5 fz_variate6 blk_bytes blk_addr];
        assumption.
    - rewrite (in_block_variate5_variate6 fz Hbuf), (in_block_variate6 fz Hbuf).
      unfold block_store. rewrite Z.sub_diag. cbn [Z.to_nat firstn app].
      split; [|repeat split].
      split; [exact Hst|]. split; [exists vs; repeat split; assumption|].
      split; [|exact Hports]. repeat split; cbn [fz_variate5 fz_variate6 blk_bytes blk_addr];
        assumption. }
  destruct Hwf' as (Hwf1 & Hsh1 & Hst1 & Hvs1).
  destruct (store_variate_spec (store_from fz p buf') i p w' Hwf1) as
    (fz' & E' & Hwf2 & Hsh2 & Hst2 & _ & _ & Hget & Hother).
  { lia. }
  { intros ->. destruct Hsh1 as (_ & _ & _ & -> & _). unfold p.
    destruct (Z.eq_dec 5 5); [reflexivity|contradiction]. }
  { intros ->. destruct Hsh1 as (_ & _ & _ & _ & ->). unfold p.
    destruct (Z.eq_dec 6 5); [discriminate|reflexivity]. }
  rewrite E'. exists fz', w'. split; [reflexivity|].
  split; [exact Hwf2|]. split; [eapply same_shape_trans; eassumption|].
  split; [congruence|]. split; [|exact Hev].
  intros j. destruct (Z.eq_dec j i) as [->|N].
  - rewrite Hget. symmetry. exact Hp.
  - rewrite Hother by assumption. unfold variate. rewrite Hvs1. reflexivity.
Qed.

Lemma random_get_state_spec q buf w :
  rng_live w q -> List.length buf = 8%nat ->
  random_get_state q (Some buf) 8 w = Some ((q, Some (firstn 8 (rng_state w q))), w).
Proof.
  intros (Hq & r & Hr & Hlen) Hb. unfold random_get_state, rng_state.
  destruct (q =? NULL) eqn:C; [apply Z.eqb_eq in C; contradiction|].
  unfold bind. rewrite (get_random_eq _ _ _ Hq Hr). try rewrite Hr.
  change (state_copy_length 8) with 8.
  rewrite memcpy_spec by lia.
  change (Z.to_nat 8) with 8%nat.
  rewrite (skipn_all2 buf) by lia. rewrite app_nil_r. reflexivity.
Qed.

Lemma _iofuzzer_random_number_spec fz w :
  rng_live w (fz_random fz) ->
  exists v w', _iofuzzer_random_number fz w = Some (v, w')
               /\ rng_evolves (fz_random fz) w w'.
Proof.
  intros Hlive. unfold _iofuzzer_random_number, random_number_with_range, random_number.
  destruct (random_range_from_zero (fz_random fz) 2 w Hlive) as (k & w1 & E & Hk & Hev1); [lia|].
  rewrite (bind_eq _ _ _ _ _ E).
  pose proof (rng_evolves_live _ _ _ Hlive Hev1) as Hlive1.
  destruct (Z.eq_dec k 0) as [->|N0]; [|destruct (Z.eq_dec k 1) as [->|N1]].
  - cbn [Z.eqb].
    destruct (random_ulong_spec _ _ Hlive1) as (v & w2 & E2 & Hev2).
    exists v, w2. split; [exact E2 | eapply rng_evolves_trans; eassumption].
  - cbn [Z.eqb Pos.eqb].
    destruct (random_fermat_number_spec _ _ Hlive1) as (n & w2 & E2 & _ & Hev2).
    eexists. exists w2. split; [exact E2 | eapply rng_evolves_trans; eassumption].
  - assert (k = 2) as -> by lia. cbn [Z.eqb Pos.eqb].
    destruct (random_mersenne_number_spec _ _ Hlive1) as (n & w2 & E2 & _ & Hev2).
    eexists. exists w2. split; [exact E2 | eapply rng_evolves_trans; eassumption].
Qed.

(** The port slot: an entry of the list, or a 16-bit draw. *)
Lemma randomize_port_spec fz w :
  fuzzer_wf fz -> rng_live w (fz_random fz) ->
  exists v4 w',
    match fz_ports fz with
    | Some ports =>
        let* len := array_get_length (Some ports) in
        let* k := random_number_with_range (fz_random fz) 0 (to_ulong (len - 1)) in
        match array_index ports k with
        | Some v4 => store_variate fz 4 v4
        | None => ub
        end
    | None =>
        let* v4 := random_number_with_range (fz_random fz) 0 MAXPORT in
        store_variate fz 4 v4
    end w = store_variate fz 4 v4 w'
    /\ 0 <= v4 <= MAXPORT /\ rng_evolves (fz_random fz) w w'.
Proof.
  intros Hwf Hlive. pose proof Hwf as (_ & _ & _ & Hports).
  unfold random_number_with_range.
  destruct (fz_ports fz) as [ps|].
  - destruct Hports as (Hlen & Hcap & Hrange).
    cbn [array_get_length]. unfold ret at 1. unfold bind at 1.
    assert (Hk : exists k w', random_ulong_with_range (fz_random fz) 0
                                (to_ulong (arr_length ps - 1)) w = Some (k, w')
                              /\ 0 <= k < Z.max 1 (arr_length ps)
                              /\ rng_evolves (fz_random fz) w w').
    { destruct (Z.eq_dec (arr_length ps) 0) as [E0|N0].
      - rewrite E0. change (to_ulong (0 - 1)) with ULONG_MAX.
        destruct (random_range_wrapped _ _ Hlive) as (w' & E & Hev).
        exists 0, w'. split; [exact E|]. split; [lia|exact Hev].
      - replace (to_ulong (arr_length ps - 1)) with (arr_length ps - 1).
        2:{ unfold to_ulong, ULONG_BITS. rewrite Z.mod_small; lia. }
        destruct (random_range_from_zero (fz_random fz) (arr_length ps - 1) w Hlive)
          as (k & w' & E & Hk & Hev); [lia|].
        exists k, w'. split; [exact E|]. split; [lia|exact Hev]. }
    destruct Hk as (k & w' & E & Hk & Hev).
    rewrite (bind_eq _ _ _ _ _ E).
    destruct (array_index_in_range ps k) as [v4 Hv4]; [lia|].
    rewrite Hv4. exists v4, w'. split; [reflexivity|].
    split; [eapply Hrange; eassumption | exact Hev].
  - destruct (random_range_from_zero (fz_random fz) MAXPORT w Hlive)
      as (v4 & w' & E & Hv & Hev); [unfold MAXPORT; lia|].
    rewrite (bind_eq _ _ _ _ _ E).
    exists v4, w'. split; [reflexivity|]. split; assumption.
Qed.

(** One generation: it returns, takes the snapshot of the generator first,
    and leaves a tuple that satisfies the invariant. *)
Lemma _iofuzzer_randomize_spec fz w :
  fuzzer_wf fz -> rng_live w (fz_random fz) ->
  exists fz' w',
    _iofuzzer_randomize fz w = Some (fz', w')
    /\ fuzzer_wf fz' /\ same_shape fz fz'
    /\ fz_state fz' = firstn 8 (rng_state w (fz_random fz))
    /\ variates_inv fz'
    /\ rng_evolves (fz_random fz) w w'.
Proof.
  intros Hwf Hlive. unfold _iofuzzer_randomize.
  pose proof Hwf as (Hst & Hvwf & Hbuf & Hports).
  rewrite (bind_eq _ _ _ _ _ (random_get_state_spec _ _ _ Hlive Hst)).
  cbn [snd].
  set (fz0 := set_fz_state fz (firstn 8 (rng_state w (fz_random fz)))).
  assert (Hwf0 : fuzzer_wf fz0).
  { split; [|split; [exact Hvwf|split; [exact Hbuf|exact Hports]]].
    cbn [fz0 set_fz_state fz_state]. apply firstn_length_le.
    destruct Hlive as (_ & r & Hr & Hl). unfold rng_state. rewrite Hr. exact Hl. }
  assert (Hsh0 : same_shape fz fz0) by (repeat split).
  assert (Hr0 : fz_random fz0 = fz_random fz) by reflexivity.
  change (fz_random fz) with (fz_random fz0) in Hlive |- *.
  (* slot 0 *)
  change (NUM_FUNCS - 1) with 11. unfold random_number_with_range at 1.
  destruct (random_range_from_zero (fz_random fz0) 11 w Hlive) as (v0 & w1 & E0 & Hv0 & Hev1);
    [lia|].
  rewrite (bind_eq _ _ _ _ _ E0).
  destruct (store_variate_spec fz0 0 v0 w1 Hwf0) as
    (fz1 & S0 & Hwf1 & Hsh1 & Hst1 & _ & _ & G0 & O0); [lia|lia|lia|].
  rewrite (bind_eq _ _ _ _ _ S0).
  pose proof (rng_evolves_live _ _ _ Hlive Hev1) as Hl1.
  assert (R1 : fz_random fz1 = fz_random fz0) by apply Hsh1.
  rewrite <- R1 in Hl1.
  (* slot 1 *)
  destruct (_iofuzzer_random_number_spec fz1 w1 Hl1) as (v1 & w2 & E1 & Hev2).
  rewrite (bind_eq _ _ _ _ _ E1).
  destruct (store_variate_spec fz1 1 v1 w2 Hwf1) as
    (fz2 & S1 & Hwf2 & Hsh2 & Hst2 & _ & _ & G1 & O1); [lia|lia|lia|].
  rewrite (bind_eq _ _ _ _ _ S1).
  pose proof (rng_evolves_live _ _ _ Hl1 Hev2) as Hl2.
  assert (R2 : fz_random fz2 = fz_random fz1) by apply Hsh2.
  rewrite <- R2 in Hl2.
  (* slot 2 *)
  destruct (_iofuzzer_random_number_spec fz2 w2 Hl2) as (v2 & w3 & E2 & Hev3).
  rewrite (bind_eq _ _ _ _ _ E2).
  destruct (store_variate_spec fz2 2 v2 w3 Hwf2) as
    (fz3 & S2 & Hwf3 & Hsh3 & Hst3 & _ & _ & G2 & O2); [lia|lia|lia|].
  rewrite (bind_eq _ _ _ _ _ S2).
  pose proof (rng_evolves_live _ _ _ Hl2 Hev3) as Hl3.
  assert (R3 : fz_random fz3 = fz_random fz2) by apply Hsh3.
  rewrite <- R3 in Hl3.
  (* slot 3 *)
  change (MAXSIZE / 4) with 64. unfold random_number_with_range at 1.
  destruct (random_range_from_one (fz_random fz3) 64 16 2 w3 Hl3) as
    (v3 & w4 & E3 & Hv3 & Hev4); [lia|lia|reflexivity|].
  rewrite (bind_eq _ _ _ _ _ E3).
  destruct (store_variate_spec fz3 3 v3 w4 Hwf3) as
    (fz4 & S3 & Hwf4 & Hsh4 & Hst4 & _ & _ & G3 & O3); [lia|lia|lia|].
  rewrite (bind_eq _ _ _ _ _ S3).
  pose proof (rng_evolves_live _ _ _ Hl3 Hev4) as Hl4.
  assert (R4 : fz_random fz4 = fz_random fz3) by apply Hsh4.
  rewrite <- R4 in Hl4.
  (* slot 4 *)
  destruct (randomize_port_spec fz4 w4 Hwf4 Hl4) as (v4 & w5 & E4 & Hv4 & Hev5).
  unfold bind at 1. rewrite E4.
  destruct (store_variate_spec fz4 4 v4 w5 Hwf4) as
    (fz5 & S4 & Hwf5 & Hsh5 & Hst5 & _ & _ & G4 & O4); [lia|lia|lia|].
  rewrite S4. cbv beta iota.
  pose proof (rng_evolves_live _ _ _ Hl4 Hev5) as Hl5.
  assert (R5 : fz_random fz5 = fz_random fz4) by apply Hsh5.
  rewrite <- R5 in Hl5.
  (* slots 5 and 6 *)
  destruct (randomize_string_spec fz5 5 w5 Hwf5 Hl5) as
    (fz6 & w6 & E5 & Hwf6 & Hsh6 & Hst6 & O5 & Hev6); [left; reflexivity|].
  rewrite (bind_eq _ _ _ _ _ E5).
  pose proof (rng_evolves_live _ _ _ Hl5 Hev6) as Hl6.
  assert (R6 : fz_random fz6 = fz_random fz5) by apply Hsh6.
  rewrite <- R6 in Hl6.
  destruct (randomize_string_spec fz6 6 w6 Hwf6 Hl6) as
    (fz7 & w7 & E6 & Hwf7 & Hsh7 & Hst7 & O6 & Hev7); [right; reflexivity|].
  exists fz7, w7. split; [exact E6|]. split; [exact Hwf7|].
  split.
  { repeat (eapply same_shape_trans; [|eassumption]). exact Hsh0. }
  split.
  { rewrite Hst7, Hst6, Hst5, Hst4, Hst3, Hst2, Hst1. reflexivity. }
  split.
  { split; [|split; [|split]].
    - destruct Hwf7 as (_ & (vs & Hvs & Hlen & _) & _). exists vs. split; assumption.
    - exists v0. split; [|exact Hv0].
      rewrite O6, O5, O4, O3, O2, O1 by lia. exact G0.
    - exists v3. split; [|exact Hv3].
      rewrite O6, O5, O4 by lia. exact G3.
    - exists v4. split; [|exact Hv4].
      rewrite O6, O5. exact G4. }
  rewrite R6, R5, R4, R3, R2, R1 in Hev7. rewrite R5, R4, R3, R2, R1 in Hev6.
  rewrite R4, R3, R2, R1 in Hev5. rewrite R3, R2, R1 in Hev4. rewrite R2, R1 in Hev3.
  rewrite R1 in Hev2.
  eapply rng_evolves_trans; [|exact Hev7]. eapply rng_evolves_trans; [|exact Hev6].
  eapply rng_evolves_trans; [|exact Hev5]. eapply rng_evolves_trans; [|exact Hev4].
  eapply rng_evolves_trans; [|exact Hev3]. eapply rng_evolves_trans; [|exact Hev2].
  exact Hev1.
Qed.

(** ** Restoring a snapshot *)

Lemma random_set_state_spec q S w :
  rng_live w q -> List.length S = 8%nat ->
  random_set_state q (Some S) 8 w = Some (q, restore_world q S w)
  /\ rng_live (restore_world q S w) q
  /\ firstn 8 (rng_state (restore_world q S w) q) = S
  /\ io_log (restore_world q S w) = io_log w.
Proof.
  intros (Hq & r & Hr & Hlen) HS.
  unfold random_set_state, restore_world, rng_state.
  destruct (q =? NULL) eqn:C; [apply Z.eqb_eq in C; contradiction|].
  unfold bind. rewrite (get_random_eq _ _ _ Hq Hr). try rewrite Hr.
  change (state_copy_length 8) with 8. rewrite memcpy_spec by lia.
  change (Z.to_nat 8) with 8%nat. cbn [put_random ret randoms io_log].
  split; [reflexivity|]. rewrite lookup_insert_eq. cbn [rnd_state].
  split; [|split; [|reflexivity]].
  - split; [assumption|]. eexists. split; [apply lookup_insert_eq|].
    cbn [rnd_state]. rewrite length_app, length_skipn, firstn_length_le by lia. lia.
  - rewrite firstn_app, !(firstn_all2 S) by lia.
    rewrite HS, Nat.sub_diag. cbn [firstn]. apply app_nil_r.
Qed.

Lemma _iofuzzer_set_state_spec fz S w :
  fuzzer_wf fz -> rng_live w (fz_random fz) -> List.length S = 8%nat ->
  exists fz' w',
    _iofuzzer_set_state fz (Some S) 8 w = Some ((true, fz'), w')
    /\ _iofuzzer_randomize fz (restore_world (fz_random fz) S w) = Some (fz', w')
    /\ fuzzer_wf fz' /\ same_shape fz fz' /\ fz_state fz' = S /\ variates_inv fz'
    /\ rng_evolves (fz_random fz) (restore_world (fz_random fz) S w) w'.
Proof.
  intros Hwf Hlive HS.
  destruct (random_set_state_spec _ S w Hlive HS) as (E & Hlive1 & Hsnap & _).
  destruct (_iofuzzer_randomize_spec fz _ Hwf Hlive1) as
    (fz' & w' & E' & Hwf' & Hsh & Hst & Hinv & Hev).
  exists fz', w'. unfold _iofuzzer_set_state.
  rewrite (bind_eq _ _ _ _ _ E).
  destruct (fz_random fz =? NULL) eqn:C.
  { apply Z.eqb_eq in C. destruct Hlive as [N _]. contradiction. }
  rewrite (bind_eq _ _ _ _ _ E').
  split; [reflexivity|]. split; [exact E'|]. split; [exact Hwf'|].
  split; [exact Hsh|]. split; [congruence|]. split; assumption.
Qed.

(** Any call of [_iofuzzer_set_state] that returns leaves a well-formed
    fuzzer, whatever the buffer and the size. *)
Lemma _iofuzzer_set_state_returns fz state size w b fz' w' :
  fuzzer_wf fz -> variates_inv fz -> rng_live w (fz_random fz) ->
  _iofuzzer_set_state fz state size w = Some ((b, fz'), w') ->
  fuzzer_wf fz' /\ variates_inv fz' /\ same_shape fz fz' /\ rng_live w' (fz_random fz).
Proof.
  intros Hwf Hinv Hlive. pose proof Hlive as (Hq & r & Hr & Hlen).
  unfold _iofuzzer_set_state. destruct state as [buf|].
  - unfold random_set_state.
    destruct (fz_random fz =? NULL) eqn:C; [apply Z.eqb_eq in C; contradiction|].
    unfold bind at 1. unfold bind at 1. rewrite (get_random_eq _ _ _ Hq Hr).
    unfold memcpy.
    destruct ((state_copy_length size <=? Z.of_nat (List.length buf))
              && (state_copy_length size <=? Z.of_nat (List.length (rnd_state r)))) eqn:Cm;
      [|discriminate].
    apply andb_prop in Cm. destruct Cm as [C1 C2]. apply Z.leb_le in C1, C2.
    set (st := firstn (Z.to_nat (state_copy_length size)) buf
               ++ skipn (Z.to_nat (state_copy_length size)) (rnd_state r)).
    cbn [put_random ret bind]. unfold bind at 1. cbn [put_random ret].
    rewrite C.
    set (w1 := World (errno w) (<[fz_random fz := Random (rnd_refcount r) st]> (randoms w))
                 (brk w) (io_log w)).
    assert (Hlive1 : rng_live w1 (fz_random fz)).
    { split; [assumption|]. eexists. split; [apply lookup_insert_eq|].
      cbn [rnd_state]. unfold st.
      assert (0 <= state_copy_length size) by (unfold state_copy_length, MINSIZE, MAXSIZE; lia).
      rewrite length_app, length_skipn, firstn_length_le by lia. lia. }
    destruct (_iofuzzer_randomize_spec fz w1 Hwf Hlive1) as
      (fz1 & w2 & E' & Hwf' & Hsh & Hst & Hinv' & Hev).
    rewrite E'. unfold ret. intros [= <- <- <-].
    split; [exact Hwf'|]. split; [exact Hinv'|]. split; [exact Hsh|].
    eapply rng_evolves_live; eassumption.
  - unfold bind, set_errno, ret. intros [= <- <- <-].
    split; [exact Hwf|]. split; [exact Hinv|]. split; [apply same_shape_refl|].
    split; [assumption|]. exists r. split; assumption.
Qed.

(** ** The dispatcher *)

Lemma func_width_range f : 1 <= func_width f <= 4.
Proof.
  unfold func_width. destruct (f mod 3) as [|p|p]; [lia| |lia].
  destruct p; lia.
Qed.

Lemma event_of_wf fz :
  fuzzer_wf fz -> variates_inv fz ->
  exists f a b c d,
    event_of fz = Some (IoEvent f a b c d (blk_addr (fz_variate5 fz)) (blk_addr (fz_variate6 fz)))
    /\ variate fz 0 = Some f /\ 0 <= f <= 11 /\ variate fz 3 = Some c /\ 1 <= c <= 64.
Proof.
  intros (_ & (vs & Hvs & _ & Hcap & H5 & H6) & _ & _)
         (_ & (v0 & G0 & R0) & (v3 & G3 & R3) & _).
  destruct (array_index_in_range vs 1) as [a Ha]; [lia|].
  destruct (array_index_in_range vs 2) as [b Hb]; [lia|].
  destruct (array_index_in_range vs 4) as [d Hd]; [lia|].
  exists v0, a, b, v3, d. unfold event_of. rewrite G0, G3.
  unfold variate. rewrite Hvs, Ha, Hb, Hd, H5, H6.
  repeat split; try reflexivity; lia.
Qed.

Lemma _iofuzzer_insn_spec port_data fz w ev :
  fuzzer_wf fz -> variates_inv fz -> event_of fz = Some ev ->
  exists fz',
    _iofuzzer_insn port_data (io_func ev) fz w = Some (fz', issue ev w)
    /\ fuzzer_wf fz' /\ same_shape fz fz' /\ fz_state fz' = fz_state fz
    /\ fz_variates fz' = fz_variates fz.
Proof.
  intros Hwf Hinv Hev.
  destruct (event_of_wf fz Hwf Hinv) as (f & a & b & c & d & Hev' & G0 & R0 & G3 & R3).
  rewrite Hev' in Hev. injection Hev as <-. cbn [io_func].
  pose proof Hwf as (Hst & (vs & Hvs & Hlen & Hcap & H5 & H6) & Hbuf & Hports).
  pose proof Hbuf as (L5 & L6 & A5 & A6 & D).
  unfold event_of, variate in Hev'. rewrite Hvs in Hev'.
  unfold variate in G3. rewrite Hvs in G3.
  unfold _iofuzzer_insn. rewrite Hvs.
  destruct (array_index vs 0) as [f'|]; [|discriminate].
  destruct (array_index vs 1) as [a'|]; [|discriminate].
  destruct (array_index vs 2) as [b'|]; [|discriminate].
  rewrite G3 in Hev' |- *.
  destruct (array_index vs 4) as [d'|]; [|discriminate].
  rewrite H5, H6 in Hev' |- *. injection Hev' as -> -> -> ->.
  pose proof (func_width_range f) as Hw.
  assert (Hn : c * func_width f <= 256) by nia.
  assert (Hn0 : 0 <= c * func_width f) by nia.
  assert (Hc : (0 <? c) = true) by (apply Z.ltb_lt; lia).
  rewrite Hc, !andb_true_r.
  destruct (func_is_ins f).
  - rewrite (load_from_variate6 fz Hbuf). rewrite L6.
    change (Z.of_nat (Z.to_nat MAXSIZE)) with 256.
    destruct (c * func_width f <=? 256) eqn:C; [|apply Z.leb_gt in C; lia].
    eexists. split; [reflexivity|].
    unfold store_from.
    rewrite (in_block_variate5_variate6 fz Hbuf), (in_block_variate6 fz Hbuf).
    cbn [fz_state fz_variates]. split; [|repeat split; assumption].
    split; [exact Hst|]. split; [exists vs; repeat split; assumption|].
    split; [|exact Hports].
    unfold block_store, buffers_wf. rewrite Z.sub_diag.
    cbn [fz_variate5 fz_variate6 blk_addr blk_bytes Z.to_nat firstn app].
    repeat split; try assumption.
    rewrite !length_app, length_firstn, length_map, length_seq, length_skipn, L6.
    change (Z.to_nat MAXSIZE) with 256%nat. lia.
  - destruct (func_is_outs f).
    + rewrite (load_from_variate5 fz Hbuf). rewrite L5.
      change (Z.of_nat (Z.to_nat MAXSIZE)) with 256.
      destruct (c * func_width f <=? 256) eqn:C; [|apply Z.leb_gt in C; lia].
      exists fz. split; [reflexivity|]. split; [exact Hwf|].
      split; [apply same_shape_refl|]. split; [reflexivity|assumption].
    + exists fz. split; [reflexivity|]. split; [exact Hwf|].
      split; [apply same_shape_refl|]. split; [reflexivity|assumption].
Qed.

(** One iteration: the instruction of the current tuple is issued, then the
    next tuple is generated. *)
Lemma _iofuzzer_iterate_spec port_data fz w :
  fuzzer_wf fz -> variates_inv fz -> rng_live w (fz_random fz) ->
  exists ev fz' w',
    event_of fz = Some ev
    /\ _iofuzzer_iterate port_data fz w = Some (fz', w')
    /\ fuzzer_wf fz' /\ variates_inv fz' /\ same_shape fz fz'
    /\ fz_state fz' = firstn 8 (rng_state w (fz_random fz))
    /\ io_log w' = ev :: io_log w
    /\ rng_evolves (fz_random fz) (issue ev w) w'.
Proof.
  intros Hwf Hinv Hlive.
  destruct (event_of_wf fz Hwf Hinv) as (f & a & b & c & d & Hev & G0 & R0 & G3 & R3).
  set (ev := IoEvent f a b c d (blk_addr (fz_variate5 fz)) (blk_addr (fz_variate6 fz))) in *.
  destruct (_iofuzzer_insn_spec port_data fz w ev Hwf Hinv Hev) as
    (fz1 & E1 & Hwf1 & Hsh1 & Hst1 & Hvs1).
  assert (R1 : fz_random fz1 = fz_random fz) by apply Hsh1.
  assert (Hlive1 : rng_live (issue ev w) (fz_random fz1)) by (rewrite R1; exact Hlive).
  destruct (_iofuzzer_randomize_spec fz1 (issue ev w) Hwf1 Hlive1) as
    (fz' & w' & E' & Hwf' & Hsh' & Hst' & Hinv' & Hevo).
  exists ev, fz', w'. split; [exact Hev|].
  unfold _iofuzzer_iterate.
  rewrite (bind_eq _ _ _ _ _ (load_variate_eq fz 0 f w G0)).
  destruct ((0 <=? f) && (f <? NUM_FUNCS)) eqn:C.
  2:{ apply andb_false_iff in C. unfold NUM_FUNCS in C.
      destruct C as [C|C]; [apply Z.leb_gt in C | apply Z.ltb_ge in C]; lia. }
  change f with (io_func ev) at 1. rewrite (bind_eq _ _ _ _ _ E1).
  split; [exact E'|]. split; [exact Hwf'|]. split; [exact Hinv'|].
  split; [eapply same_shape_trans; eassumption|].
  split; [rewrite Hst', R1; reflexivity|].
  rewrite R1 in Hevo. split; [|exact Hevo].
  destruct Hevo as (_ & _ & -> & _). reflexivity.
Qed.

(** ** Construction *)

Lemma random_new_spec w :
  0 < brk w ->
  exists w', random_new w = Some (brk w, w')
             /\ rng_live w' (brk w) /\ brk w' = brk w + 312 /\ io_log w' = io_log w.
Proof.
  intros Hb. unfold random_new, bind, calloc, set_errno, put_random, random_ref.
  cbn [brk errno randoms io_log].
  destruct (brk w =? NULL) eqn:C; [apply Z.eqb_eq in C; unfold NULL in C; lia|].
  unfold bind, get_random, put_random, ret. cbn [brk errno randoms io_log].
  rewrite C, lookup_insert_eq. cbn [rnd_refcount rnd_state].
  eexists. split; [reflexivity|]. cbn [brk io_log randoms].
  split; [|split; [unfold MAXSIZE; lia | reflexivity]].
  split; [unfold NULL; lia|]. eexists. split; [apply lookup_insert_eq|].
  cbn [rnd_state]. rewrite repeat_length. unfold MAXSIZE. lia.
Qed.

Lemma array_new_with_length_variates :
  array_new_with_length 8 NUM_VARIATES
  = Some (Some (Array [0; 0; 0; 0; 0; 0; 0; 0] 1 8 (FP 2 0) 7 64)).
Proof. vm_compute. reflexivity. Qed.

Lemma ret_bind {A B} (a : A) (k : A -> M B) w : bind (ret a) k w = k a w.
Proof. reflexivity. Qed.

Lemma set_errno_eq e w :
  set_errno e w = Some (tt, World e (randoms w) (brk w) (io_log w)).
Proof. reflexivity. Qed.

Lemma calloc_eq n w :
  calloc n w = Some (brk w, World (errno w) (randoms w) (brk w + Z.max n 1) (io_log w)).
Proof. reflexivity. Qed.

Lemma store_variate_fresh r st b5 b6 i v (data : list Z) w :
  0 <= i < Z.of_nat (List.length data) ->
  store_variate (Fuzzer 0 None r st b5 b6 (Some (Array data 1 8 (FP 2 0) 7 64))) i v w
  = Some (Fuzzer 0 None r st b5 b6
            (Some (Array (<[Z.to_nat i := v]> data) 1 8 (FP 2 0) 7 64)), w).
Proof.
  intros Hi. unfold store_variate, array_store. cbn [fz_variates arr_data].
  destruct (0 <=? i) eqn:C1; [|apply Z.leb_gt in C1; lia].
  destruct (i <? Z.of_nat (List.length data)) eqn:C2; [|apply Z.ltb_ge in C2; lia].
  reflexivity.
Qed.

Lemma iofuzzer_new_spec w :
  0 < brk w ->
  exists fz w', iofuzzer_new w = Some (Some fz, w')
                /\ fuzzer_wf fz /\ variates_inv fz /\ rng_live w' (fz_random fz).
Proof.
  intros Hb. unfold iofuzzer_new.
  rewrite (bind_eq _ _ _ _ _ (calloc_eq 96 w)). change (Z.max 96 1) with 96.
  rewrite (bind_eq _ _ _ _ _ (set_errno_eq 0 _)). cbn [errno randoms brk io_log].
  set (w1 := World 0 (randoms w) (brk w + 96) (io_log w)).
  destruct (random_new_spec w1) as (w2 & E & Hlive & Hbrk & _); [cbn [w1 brk]; lia|].
  rewrite (bind_eq _ _ _ _ _ E). cbn [w1 brk] in *.
  destruct (brk w + 96 =? NULL) eqn:C; [apply Z.eqb_eq in C; unfold NULL in C; lia|].
  rewrite (bind_eq _ _ _ _ _ (calloc_eq MAXSIZE w2)).
  rewrite (bind_eq _ _ _ _ _ (calloc_eq MAXSIZE _)).
  rewrite (bind_eq _ _ _ _ _ (set_errno_eq 0 _)).
  cbn [brk errno randoms io_log]. rewrite Hbrk. change (Z.max MAXSIZE 1) with 256.
  rewrite array_new_with_length_variates.
  set (p5 := brk w + 96 + 312). set (p6 := p5 + 256).
  set (w3 := World 0 (randoms w2) (p6 + 256) (io_log w2)).
  rewrite (bind_eq _ _ _ _ _
             (store_variate_fresh _ _ _ _ 5 p5 [0; 0; 0; 0; 0; 0; 0; 0] w3 ltac:(cbn; lia))).
  change (<[Z.to_nat 5:=p5]> [0; 0; 0; 0; 0; 0; 0; 0]) with [0; 0; 0; 0; 0; p5; 0; 0].
  rewrite (bind_eq _ _ _ _ _
             (store_variate_fresh _ _ _ _ 6 p6 [0; 0; 0; 0; 0; p5; 0; 0] w3 ltac:(cbn; lia))).
  change (<[Z.to_nat 6:=p6]> [0; 0; 0; 0; 0; p5; 0; 0]) with [0; 0; 0; 0; 0; p5; p6; 0].
  set (fz0 := Fuzzer 0 None (brk w + 96) (repeat x00 8)
                (Block p5 (repeat x00 (Z.to_nat MAXSIZE)))
                (Block p6 (repeat x00 (Z.to_nat MAXSIZE)))
                (Some (Array [0; 0; 0; 0; 0; p5; p6; 0] 1 8 (FP 2 0) 7 64))).
  assert (Hwf0 : fuzzer_wf fz0).
  { split; [reflexivity|]. split; [|split; [|exact I]].
    - eexists. split; [reflexivity|]. repeat split. cbn. lia.
    - unfold buffers_wf. cbn [fz0 fz_variate5 fz_variate6 blk_bytes blk_addr].
      rewrite !repeat_length. unfold p6, p5, MAXSIZE. repeat split; lia. }
  assert (Hlive3 : rng_live w3 (fz_random fz0)) by exact Hlive.
  destruct (_iofuzzer_randomize_spec fz0 w3 Hwf0 Hlive3) as
    (fz1 & w4 & E1 & Hwf1 & Hsh1 & Hst1 & Hinv1 & Hev1).
  rewrite (bind_eq _ _ _ _ _ E1).
  unfold iofuzzer_ref, bind, ret. cbn [snd].
  eexists. eexists. split; [reflexivity|].
  split; [exact Hwf1|]. split; [exact Hinv1|].
  cbn [set_fz_refcount fz_random].
  assert (R : fz_random fz1 = fz_random fz0) by apply Hsh1. rewrite R.
  eapply rng_evolves_live; eassumption.
Qed.

(** ** Reference counts of generators *)

Lemma random_unref_spec old w q :
  rng_live w old -> rng_live w q -> q <> old ->
  exists w1, random_unref old w = Some (tt, w1)
             /\ rng_live w1 q /\ rng_state w1 q = rng_state w q
             /\ io_log w1 = io_log w.
Proof.
  intros (Ho & r & Hr & Hlen) (Hq & rq & Hrq & Hlq) Hne.
  unfold random_unref.
  destruct (old =? NULL) eqn:C; [apply Z.eqb_eq in C; contradiction|].
  unfold bind at 1. unfold get_random at 1. rewrite C, Hr.
  unfold bind at 1. unfold put_random at 1.
  destruct (0 <? to_ulong (rnd_refcount r - 1)).
  - eexists. split; [reflexivity|]. unfold rng_state. cbn [randoms io_log].
    rewrite lookup_insert_ne by congruence. rewrite Hrq.
    split; [|split; reflexivity].
    split; [assumption|]. exists rq. split; [|assumption].
    cbn [randoms]. rewrite lookup_insert_ne by congruence. assumption.
  - unfold random_free. rewrite C.
    unfold bind, get_random, free_random, ret. cbn [randoms errno brk io_log].
    rewrite C, lookup_insert_eq.
    eexists. split; [reflexivity|]. unfold rng_state. cbn [randoms io_log].
    rewrite lookup_delete_ne by congruence. rewrite lookup_insert_ne by congruence.
    rewrite Hrq. split; [|split; reflexivity].
    split; [assumption|]. exists rq. split; [|assumption].
    cbn [randoms]. rewrite lookup_delete_ne by congruence.
    rewrite lookup_insert_ne by congruence. assumption.
Qed.

Lemma random_ref_spec q w :
  rng_live w q ->
  exists w1, random_ref q w = Some (q, w1)
             /\ rng_live w1 q /\ rng_state w1 q = rng_state w q
             /\ io_log w1 = io_log w.
Proof.
  intros (Hq & r & Hr & Hlen). unfold random_ref.
  destruct (q =? NULL) eqn:C; [apply Z.eqb_eq in C; contradiction|].
  unfold bind, get_random, put_random, ret. rewrite C, Hr.
  eexists. split; [reflexivity|]. unfold rng_state. cbn [randoms io_log].
  rewrite lookup_insert_eq, Hr. cbn [rnd_state]. split; [|split; reflexivity].
  split; [assumption|]. eexists. split; [apply lookup_insert_eq|]. exact Hlen.
Qed.

(** ** The setters *)

Lemma fuzzer_wf_set_random fz random :
  fuzzer_wf fz -> fuzzer_wf (set_fz_random fz random).
Proof. intros H. exact H. Qed.

Lemma iofuzzer_set_random_spec fz random w :
  fuzzer_wf fz -> rng_live w (fz_random fz) -> rng_live w random ->
  random <> fz_random fz ->
  exists w1 fz' w',
    rng_live w1 random /\ rng_state w1 random = rng_state w random
    /\ _iofuzzer_randomize (set_fz_random fz random) w1 = Some (fz', w')
    /\ iofuzzer_set_random (Some fz) random w = Some ((true, Some fz'), w')
    /\ fuzzer_wf fz' /\ variates_inv fz'
    /\ fz_state fz' = firstn 8 (rng_state w random)
    /\ fz_random fz' = random /\ rng_live w' random.
Proof.
  intros Hwf Hold Hnew Hne.
  destruct (random_unref_spec _ w random Hold Hnew Hne) as (w0 & E0 & Hl0 & Hs0 & _).
  destruct (random_ref_spec random w0 Hl0) as (w1 & E1 & Hl1 & Hs1 & _).
  destruct (_iofuzzer_randomize_spec (set_fz_random fz random) w1
              (fuzzer_wf_set_random fz random Hwf) Hl1) as
    (fz' & w' & E' & Hwf' & Hsh & Hst & Hinv & Hev).
  exists w1, fz', w'. split; [exact Hl1|]. split; [congruence|].
  split; [exact E'|]. split.
  - unfold iofuzzer_set_random.
    rewrite (bind_eq _ _ _ _ _ E0), (bind_eq _ _ _ _ _ E1), (bind_eq _ _ _ _ _ E').
    reflexivity.
  - split; [exact Hwf'|]. split; [exact Hinv|].
    split; [rewrite Hst; cbn [set_fz_random fz_random]; congruence|].
    split; [apply Hsh|]. eapply rng_evolves_live; eassumption.
Qed.

Lemma array_unref_eq a w : exists a', array_unref a w = Some (a', w).
Proof.
  destruct a as [a|]; [|eexists; reflexivity].
  unfold array_unref. destruct (0 <? to_ulong (arr_refcount a - 1)); eexists; reflexivity.
Qed.

Lemma array_ref_ports_ok ports w :
  ports_ok ports ->
  exists ports' w0,
    array_ref ports w = Some (ports', w0)
    /\ ports_ok ports'
    /\ (ports = None <-> ports' = None)
    /\ randoms w0 = randoms w /\ io_log w0 = io_log w.
Proof.
  intros Hok. destruct ports as [ps|].
  - eexists. exists w. split; [reflexivity|]. cbn. split; [exact Hok|].
    split; [|split; reflexivity]. split; discriminate.
  - eexists. eexists. split; [reflexivity|]. cbn. split; [exact I|].
    split; [|split; reflexivity]. split; reflexivity.
Qed.

(** The fuzzer's own list passed to [iofuzzer_set_ports]: a call that has a
    result is the call on what the release has left of the list. *)
Lemma iofuzzer_set_ports_own fz given w r w' :
  iofuzzer_set_ports (Some fz) given Own w = Some (r, w') ->
  exists old,
    array_unref (fz_ports fz) w = Some (old, w)
    /\ (ports_ok (fz_ports fz) -> ports_ok old)
    /\ option_map arr_data old = option_map arr_data (fz_ports fz)
    /\ option_map arr_length old = option_map arr_length (fz_ports fz)
    /\ iofuzzer_set_ports (Some fz) old Other w = Some (r, w').
Proof.
  unfold iofuzzer_set_ports. destruct (fz_ports fz) as [o|] eqn:Ho.
  - cbn [array_unref]. destruct (0 <? to_ulong (arr_refcount o - 1)).
    + rewrite !ret_bind. cbn [array_after_unref]. rewrite !ret_bind.
      intros E. eexists. split; [reflexivity|]. split; [intros Hok; exact Hok|].
      split; [reflexivity|]. split; [reflexivity|]. exact E.
    + rewrite !ret_bind. cbn [array_after_unref]. intros E.
      unfold bind, ub in E. discriminate.
  - cbn [array_unref]. rewrite !ret_bind. cbn [array_after_unref]. rewrite !ret_bind.
    intros E. exists None. split; [reflexivity|]. split; [intros _; exact I|].
    split; [reflexivity|]. split; [reflexivity|]. exact E.
Qed.

Lemma iofuzzer_set_ports_spec fz ports w :
  fuzzer_wf fz -> rng_live w (fz_random fz) -> ports_ok ports ->
  exists ports' w0 fz1 w1 fz2 w2,
    array_ref ports w = Some (ports', w0)
    /\ fz_ports fz1 = ports'
    /\ _iofuzzer_randomize (set_fz_ports fz ports')
         (restore_world (fz_random fz) (fz_state fz) w0) = Some (fz1, w1)
    /\ _iofuzzer_randomize fz1 w1 = Some (fz2, w2)
    /\ iofuzzer_set_ports (Some fz) ports Other w = Some ((true, Some fz2), w2)
    /\ fz_state fz1 = fz_state fz
    /\ fz_state fz2 = firstn 8 (rng_state w1 (fz_random fz))
    /\ fuzzer_wf fz2 /\ variates_inv fz2
    /\ fz_random fz2 = fz_random fz /\ rng_live w2 (fz_random fz)
    /\ fz_ports fz2 = fz_ports fz1
    /\ rng_live w0 (fz_random fz).
Proof.
  intros Hwf Hlive Hok.
  destruct (array_ref_ports_ok ports w Hok) as (ps & w0 & E0 & Hok' & _ & Hr0 & _).
  assert (Hwfp : fuzzer_wf (set_fz_ports fz ps)).
  { destruct Hwf as (A & B & C & D). split; [exact A|]. split; [exact B|].
    split; [exact C|exact Hok']. }
  assert (Hlive0 : rng_live w0 (fz_random fz)).
  { destruct Hlive as (Hq & r & Hr & Hl). split; [assumption|]. exists r.
    rewrite Hr0. split; assumption. }
  assert (HS : List.length (fz_state fz) = 8%nat) by apply Hwf.
  destruct (_iofuzzer_set_state_spec (set_fz_ports fz ps) (fz_state fz) w0 Hwfp Hlive0 HS)
    as (fz1 & w1 & E1 & G1 & Hwf1 & Hsh1 & Hst1 & Hinv1 & Hev1).
  assert (R1 : fz_random fz1 = fz_random fz) by apply Hsh1.
  assert (Hlive1 : rng_live w1 (fz_random fz1)).
  { rewrite R1. eapply rng_evolves_live; [|exact Hev1].
    apply (random_set_state_spec _ _ w0 Hlive0 HS). }
  destruct (_iofuzzer_randomize_spec fz1 w1 Hwf1 Hlive1) as
    (fz2 & w2 & E2 & Hwf2 & Hsh2 & Hst2 & Hinv2 & Hev2).
  exists ps, w0, fz1, w1, fz2, w2.
  split; [exact E0|]. split; [apply Hsh1|]. split; [exact G1|]. split; [exact E2|].
  split.
  - unfold iofuzzer_set_ports.
    destruct (array_unref_eq (fz_ports fz) w) as [a' Eu].
    rewrite (bind_eq _ _ _ _ _ Eu).
    cbn [array_after_unref]. rewrite ret_bind.
    rewrite (bind_eq _ _ _ _ _ E0).
    change (fz_state (set_fz_ports fz ps)) with (fz_state fz).
    rewrite (bind_eq _ _ _ _ _ E1). cbn [snd].
    rewrite (bind_eq _ _ _ _ _ E2). reflexivity.
  - split; [exact Hst1|]. split; [rewrite Hst2, R1; reflexivity|].
    split; [exact Hwf2|]. split; [exact Hinv2|].
    split; [rewrite <- R1; apply Hsh2|].
    split; [rewrite <- R1; eapply rng_evolves_live; eassumption|].
    split; [apply Hsh2 | exact Hlive0].
Qed.

(** ** Reachable fuzzers *)

Lemma fresh_fuzzer_eq : iofuzzer_new initial_world = Some (Some fresh_fuzzer, fresh_world).
Proof. vm_compute. reflexivity. Qed.

Lemma fresh_fuzzer_wf : fuzzer_wf fresh_fuzzer.
Proof.
  destruct (iofuzzer_new_spec initial_world) as (fz & w' & E & Hwf & _); [reflexivity|].
  rewrite fresh_fuzzer_eq in E. injection E as <- <-. exact Hwf.
Qed.

Lemma fresh_fuzzer_inv : variates_inv fresh_fuzzer.
Proof.
  destruct (iofuzzer_new_spec initial_world) as (fz & w' & E & _ & Hinv & _); [reflexivity|].
  rewrite fresh_fuzzer_eq in E. injection E as <- <-. exact Hinv.
Qed.

Lemma fresh_world_live : rng_live fresh_world (fz_random fresh_fuzzer).
Proof.
  destruct (iofuzzer_new_spec initial_world) as (fz & w' & E & _ & _ & Hl); [reflexivity|].
  rewrite fresh_fuzzer_eq in E. injection E as <- <-. exact Hl.
Qed.

Lemma iofuzzer_free_returns_null fz w r w' :
  iofuzzer_free (Some fz) w = Some (r, w') -> r = None.
Proof.
  unfold iofuzzer_free. intros H.
  apply bind_inv in H. destruct H as (? & ? & _ & H).
  apply bind_inv in H. destruct H as (? & ? & _ & H).
  apply bind_inv in H. destruct H as (? & ? & _ & H).
  unfold ret in H. congruence.
Qed.

(** Every reachable fuzzer is well formed and its tuple satisfies the
    invariant. *)
Lemma reachable_ok port_data fz :
  reachable port_data fz -> fuzzer_wf fz /\ variates_inv fz.
Proof.
  induction 1 as
    [ w fz w' Hb E
    | fz w b fz' w' _ [Hwf Hinv] E
    | fz w fz' w' _ [Hwf Hinv] E
    | fz w b fz' w' _ [Hwf Hinv] Hlive E
    | fz state size w b fz' w' _ [Hwf Hinv] Hlive E
    | fz state size w b fz' w' _ [Hwf Hinv] Hlive E
    | fz random w b fz' w' _ [Hwf Hinv] Hlive Hnew Hne E
    | fz ports w b fz' w' _ [Hwf Hinv] Hlive Hok E
    | fz given w b fz' w' _ [Hwf Hinv] Hlive E ].
  - destruct (iofuzzer_new_spec w Hb) as (fz0 & w0 & E0 & Hwf & Hinv & _).
    rewrite E0 in E. injection E as <- <-. split; assumption.
  - unfold iofuzzer_ref, ret in E. injection E as <- <- <-. split; assumption.
  - unfold iofuzzer_unref in E.
    destruct (0 <? to_ulong (fz_refcount fz - 1)).
    + unfold ret in E. injection E as <- <-. split; assumption.
    + apply iofuzzer_free_returns_null in E. discriminate.
  - destruct (_iofuzzer_iterate_spec port_data fz w Hwf Hinv Hlive) as
      (ev & fz1 & w1 & _ & E1 & Hwf1 & Hinv1 & _).
    unfold iofuzzer_iterate in E. rewrite (bind_eq _ _ _ _ _ E1) in E.
    unfold ret in E. injection E as <- <- <-. split; assumption.
  - unfold iofuzzer_iterate_with_state in E.
    apply bind_inv in E. destruct E as ([b1 fz1] & w1 & E1 & E).
    destruct (_iofuzzer_set_state_returns _ _ _ _ _ _ _ Hwf Hinv Hlive E1) as
      (Hwf1 & Hinv1 & Hsh1 & Hlive1).
    cbn [fst snd] in E. destruct b1.
    + assert (R : fz_random fz1 = fz_random fz) by apply Hsh1. rewrite <- R in Hlive1.
      destruct (_iofuzzer_iterate_spec port_data fz1 w1 Hwf1 Hinv1 Hlive1) as
        (ev & fz2 & w2 & _ & E2 & Hwf2 & Hinv2 & _).
      rewrite (bind_eq _ _ _ _ _ E2) in E.
      unfold ret in E. injection E as <- <- <-. split; assumption.
    + unfold ret in E. injection E as <- <- <-. split; assumption.
  - unfold iofuzzer_set_state in E. destruct state as [buf|].
    + apply bind_inv in E. destruct E as ([b1 fz1] & w1 & E1 & E).
      destruct (_iofuzzer_set_state_returns _ _ _ _ _ _ _ Hwf Hinv Hlive E1) as
        (Hwf1 & Hinv1 & _).
      cbn [fst snd] in E. unfold ret in E. injection E as <- <- <-. split; assumption.
    + unfold bind, set_errno, ret in E. injection E as <- <- <-. split; assumption.
  - destruct (iofuzzer_set_random_spec fz random w Hwf Hlive Hnew Hne) as
      (w1 & fz1 & w2 & _ & _ & _ & E1 & Hwf1 & Hinv1 & _).
    rewrite E1 in E. injection E as <- <- <-. split; assumption.
  - destruct (iofuzzer_set_ports_spec fz ports w Hwf Hlive Hok) as
      (ps & w0 & fz1 & w1 & fz2 & w2 & _ & _ & _ & _ & E1 & _ & _ & Hwf2 & Hinv2 & _).
    rewrite E1 in E. injection E as <- <- <-. split; assumption.
  - destruct (iofuzzer_set_ports_own _ _ _ _ _ E) as (ports & _ & Hok & _ & _ & E').
    specialize (Hok (proj2 (proj2 (proj2 Hwf)))).
    destruct (iofuzzer_set_ports_spec fz ports w Hwf Hlive Hok) as
      (ps & w0 & fz1 & w1 & fz2 & w2 & _ & _ & _ & _ & E1 & _ & _ & Hwf2 & Hinv2 & _).
    rewrite E1 in E'. injection E' as <- <- <-. split; assumption.
Qed.

(** ** The growth loop of the array *)

Lemma grow_step n m :
  1 <= n < 2 ^ 24 -> 1 <= m < 2 ^ 22 ->
  2 * n <= fp_trunc (fp_mul FLT_MANT (fp_of_Z FLT_MANT n)
                       (fp_mul FLT_MANT (FP 2 0) (fp_of_Z FLT_MANT m))) <= 4 * m * n.
Proof.
  intros Hn Hm.
  assert (E : fp_mul FLT_MANT (fp_of_Z FLT_MANT n)
                (fp_mul FLT_MANT (FP 2 0) (fp_of_Z FLT_MANT m))
              = fp_round 24 (FP (n * (2 * m)) 0)).
  { unfold fp_of_Z, FLT_MANT.
    rewrite (fp_round_small 24 n 0) by lia.
    rewrite (fp_round_small 24 m 0) by lia.
    unfold fp_mul at 2. cbn [fp_m fp_e].
    rewrite (fp_round_small 24 (2 * m) (0 + 0)) by lia.
    unfold fp_mul. cbn [fp_m fp_e]. reflexivity. }
  rewrite E. clear E.
  set (P := n * (2 * m)).
  assert (HP : 2 * n <= P) by (unfold P; nia).
  assert (HP' : 2 * P <= 4 * m * n) by (unfold P; nia).
  unfold fp_round. cbn [fp_m fp_e].
  destruct (Z.leb_spec (Z.log2 P + 1 - 24) 0) as [Hsh|Hsh].
  - unfold fp_trunc. cbn [fp_m fp_e]. change (0 <=? 0) with true.
    cbv iota. change (2 ^ 0) with 1. lia.
  - set (sh := Z.log2 P + 1 - 24) in *.
    unfold fp_trunc. cbn [fp_m fp_e].
    replace (0 <=? 0 + sh) with true by (symmetry; apply Z.leb_le; lia).
    replace (0 + sh) with sh by lia.
    destruct (rne_bounds P sh ltac:(lia) ltac:(lia)) as [[Hlo Hhi] _].
    destruct (pow2_split sh ltac:(lia)) as [Hsplit Hpos].
    assert (Hlog : 2 ^ Z.log2 P <= P) by (apply log2_bitlen; lia).
    assert (Hh : 2 ^ (sh - 1) * 2 ^ 24 <= P).
    { rewrite <- Z.pow_add_r by lia. replace (sh - 1 + 24) with (Z.log2 P) by (unfold sh; lia).
      exact Hlog. }
    change (2 ^ 24) with 16777216 in Hh.
    split; [|lia].
    destruct (Z.eq_dec m 1) as [->|Hm1].
    + assert (Hlt : Z.log2 P < 25) by (apply Z.log2_lt_pow2; unfold P; lia).
      assert (Hsh1 : sh = 1) by (unfold sh in *; lia).
      clearbody sh. subst sh. change (2 ^ 1) with 2 in *. change (2 ^ (1 - 1)) with 1 in *.
      unfold P in *. lia.
    + assert (4 * n <= P) by (unfold P; nia). lia.
Qed.

Lemma _array_grow_loop_spec size :
  size <= 2 ^ 24 ->
  forall fuel m n,
    1 <= m -> m + Z.of_nat fuel < 2 ^ 22 -> 1 <= n <= ULONG_MAX ->
    size <= n * 2 ^ Z.of_nat fuel ->
    exists n', _array_grow_loop fuel (FP 2 0) size m n = Some n'
               /\ size <= n' /\ n <= n' <= ULONG_MAX.
Proof.
  intros Hsize fuel. induction fuel as [|fuel IH]; intros m n Hm Hmf Hn Hfuel.
  - cbn [_array_grow_loop]. change (2 ^ Z.of_nat 0) with 1 in Hfuel.
    replace (n <? size) with false by (symmetry; apply Z.ltb_ge; lia).
    exists n. repeat split; lia.
  - cbn [_array_grow_loop].
    destruct (Z.ltb_spec n size) as [Hlt|Hge].
    + pose proof (grow_step n m ltac:(lia) ltac:(lia)) as Hstep.
      set (n1 := fp_trunc _) in *.
      assert (Hn1 : n1 <= ULONG_MAX).
      { assert (n1 <= 4 * 2 ^ 22 * 2 ^ 24) by nia. unfold ULONG_MAX, ULONG_BITS. lia. }
      replace (n1 <=? ULONG_MAX) with true by (symmetry; apply Z.leb_le; exact Hn1).
      assert (Hm1 : to_ulong (m + 1) = m + 1).
      { unfold to_ulong, ULONG_BITS. apply Z.mod_small. lia. }
      rewrite Hm1.
      destruct (IH (m + 1) n1) as (n' & E & H1 & H2 & H3); try lia.
      { rewrite Nat2Z.inj_succ, Z.pow_succ_r in Hfuel by lia.
        assert (0 < 2 ^ Z.of_nat fuel) by (apply Z.pow_pos_nonneg; lia). nia. }
      exists n'. repeat split; try assumption; lia.
    + exists n. repeat split; lia.
Qed.

(** ** The operations on the elements of the array *)

Ltac arr_simpl :=
  cbn [arr_data arr_refcount arr_element_size arr_growth_factor arr_length arr_size] in *.

Lemma to_ulong_small z : 0 <= z <= ULONG_MAX -> to_ulong z = z.
Proof. intros H. unfold to_ulong. apply Z.mod_small. unfold ULONG_MAX in H. lia. Qed.

Lemma _array_length_to_size_small a k :
  0 <= arr_element_size a * k <= ULONG_MAX ->
  _array_length_to_size a k = arr_element_size a * k.
Proof. intros H. unfold _array_length_to_size. apply to_ulong_small. exact H. Qed.

Lemma array_wf_length_in_store a :
  array_wf a -> arr_length a <= Z.of_nat (List.length (arr_data a)).
Proof.
  intros (He & _ & Hl & Hs & _ & Hc).
  assert (arr_length a <= arr_size a / arr_element_size a).
  { apply Z.div_le_lower_bound; lia. }
  lia.
Qed.

Lemma _array_set_length_shrinks a length :
  array_wf a -> 0 <= length -> arr_element_size a * length <= arr_size a ->
  _array_set_length a length
  = Some (Some (Array (arr_data a) (arr_refcount a) (arr_element_size a)
                  (arr_growth_factor a) length (arr_size a))).
Proof.
  intros (He & _ & _ & _ & Hs & _) Hl Hsz.
  unfold _array_set_length, _array_shrink.
  rewrite _array_length_to_size_small by nia.
  replace (arr_element_size a * length <=? arr_size a) with true
    by (symmetry; apply Z.leb_le; lia).
  replace (arr_size a <? arr_element_size a * length) with false
    by (symmetry; apply Z.ltb_ge; lia).
  reflexivity.
Qed.

Lemma realloc_length a n :
  List.length (realloc a n) = Z.to_nat (n / arr_element_size a).
Proof.
  unfold realloc. rewrite length_app, length_take, repeat_length. lia.
Qed.

Lemma realloc_prefix a n (k : nat) :
  (k <= Z.to_nat (n / arr_element_size a))%nat -> (k <= List.length (arr_data a))%nat ->
  firstn k (realloc a n) = firstn k (arr_data a).
Proof.
  intros H1 H2. unfold realloc.
  rewrite take_app_le by (rewrite length_take; lia).
  rewrite take_take. f_equal. lia.
Qed.

(** Setting a length whose byte size is at most 2^24: the call returns the
    array, with that length inside the store and the old elements kept. *)
Lemma _array_set_length_spec a length :
  array_wf a -> 0 <= length -> arr_element_size a * length <= 2 ^ 24 ->
  exists a',
    _array_set_length a length = Some (Some a')
    /\ array_wf a' /\ arr_length a' = length
    /\ arr_element_size a' = arr_element_size a
    /\ arr_refcount a' = arr_refcount a
    /\ length <= Z.of_nat (List.length (arr_data a'))
    /\ forall k : nat, (k <= Z.to_nat length)%nat -> (k <= List.length (arr_data a))%nat ->
                       firstn k (arr_data a') = firstn k (arr_data a).
Proof.
  intros Hwf Hl Hsz.
  destruct (Z.le_gt_cases (arr_element_size a * length) (arr_size a)) as [Hfit|Hbig].
  - rewrite _array_set_length_shrinks by assumption.
    eexists. split; [reflexivity|].
    destruct Hwf as (He & Hg & Hl0 & Hs & Hsz' & Hc).
    assert (length <= arr_size a / arr_element_size a) by (apply Z.div_le_lower_bound; lia).
    unfold array_wf. arr_simpl. repeat split; try assumption; try lia.
  - destruct Hwf as (He & Hg & Hl0 & Hs & Hsz' & Hc).
    unfold _array_set_length, _array_grow.
    rewrite _array_length_to_size_small by (unfold ULONG_MAX, ULONG_BITS; nia).
    replace (arr_element_size a * length <=? arr_size a) with false
      by (symmetry; apply Z.leb_gt; lia).
    rewrite Hg.
    destruct (_array_grow_loop_spec (arr_element_size a * length) Hsz 64 1 (arr_size a))
      as (n & E & H1 & H2 & H3); try lia.
    rewrite E. eexists. split; [reflexivity|].
    assert (Hcap : length <= n / arr_element_size a) by (apply Z.div_le_lower_bound; lia).
    unfold array_wf. arr_simpl. repeat split; try assumption; try lia.
    + rewrite realloc_length. lia.
    + rewrite realloc_length. lia.
    + intros k Hk1 Hk2. apply realloc_prefix; lia.
Qed.

Lemma array_store_vals_spec vals :
  forall a i,
    0 <= i -> i + Z.of_nat (List.length vals) <= Z.of_nat (List.length (arr_data a)) ->
    array_store_vals a i vals
    = Some (Array (firstn (Z.to_nat i) (arr_data a) ++ vals
                     ++ skipn (Z.to_nat i + List.length vals) (arr_data a))
              (arr_refcount a) (arr_element_size a) (arr_growth_factor a)
              (arr_length a) (arr_size a)).
Proof.
  induction vals as [|v vals IH]; intros a i Hi Hlen.
  - cbn [array_store_vals List.length app]. rewrite Nat.add_0_r, take_drop.
    destruct a; reflexivity.
  - cbn [array_store_vals]. cbn [List.length] in Hlen.
    unfold array_store.
    replace ((0 <=? i) && (i <? Z.of_nat (List.length (arr_data a)))) with true
      by (symmetry; apply andb_true_iff; split; [apply Z.leb_le|apply Z.ltb_lt]; lia).
    rewrite IH; cbn [arr_data arr_refcount arr_element_size arr_growth_factor arr_length arr_size].
    + f_equal. f_equal.
      replace (Z.to_nat (i + 1)) with (Z.to_nat i + 1)%nat by lia.
      rewrite (insert_take_drop (arr_data a) (Z.to_nat i) v) by lia.
      rewrite take_app_add' by (rewrite length_take; lia).
      replace (Z.to_nat i + 1 + List.length vals)%nat
        with (Z.to_nat i + (1 + List.length vals))%nat by lia.
      rewrite drop_app_add' by (rewrite length_take; lia).
      cbn [take drop Nat.add]. rewrite drop_drop.
      rewrite <- app_assoc. cbn [app].
      replace (S (Z.to_nat i) + List.length vals)%nat
        with (Z.to_nat i + S (List.length vals))%nat by lia.
      reflexivity.
    + lia.
    + rewrite length_insert. lia.
Qed.

Lemma _array_index_small a k :
  0 < arr_element_size a -> 0 <= k -> arr_element_size a * k <= ULONG_MAX ->
  _array_index a k = Some k.
Proof.
  intros He Hk Hs. unfold _array_index.
  rewrite _array_length_to_size_small by nia.
  rewrite Z.mul_comm, Z_mod_mult. cbn. rewrite Z.div_mul by lia. reflexivity.
Qed.

Lemma array_memmove_spec a d s n :
  0 < arr_element_size a -> 0 <= d -> 0 <= s -> 0 <= n ->
  d + n <= Z.of_nat (List.length (arr_data a)) ->
  s + n <= Z.of_nat (List.length (arr_data a)) ->
  arr_element_size a * d <= ULONG_MAX -> arr_element_size a * s <= ULONG_MAX ->
  array_memmove a d s (arr_element_size a * n)
  = Some (Array (firstn (Z.to_nat d) (arr_data a)
                   ++ firstn (Z.to_nat n) (skipn (Z.to_nat s) (arr_data a))
                   ++ skipn (Z.to_nat d + Z.to_nat n) (arr_data a))
            (arr_refcount a) (arr_element_size a) (arr_growth_factor a)
            (arr_length a) (arr_size a)).
Proof.
  intros He Hd Hs Hn Hdn Hsn Hcd Hcs. unfold array_memmove.
  rewrite !_array_index_small by lia.
  rewrite Z.mul_comm, Z_mod_mult. cbn. rewrite Z.div_mul by lia.
  replace ((d + n <=? Z.of_nat (List.length (arr_data a)))
           && (s + n <=? Z.of_nat (List.length (arr_data a)))) with true
    by (symmetry; apply andb_true_iff; split; apply Z.leb_le; lia).
  replace (Z.to_nat (d + n)) with (Z.to_nat d + Z.to_nat n)%nat by lia.
  reflexivity.
Qed.

Lemma array_wf_store a data' len' :
  array_wf a -> List.length data' = List.length (arr_data a) ->
  0 <= len' -> arr_element_size a * len' <= arr_size a ->
  array_wf (Array data' (arr_refcount a) (arr_element_size a) (arr_growth_factor a)
              len' (arr_size a)).
Proof.
  intros (He & Hg & Hl & Hs & Hsz & Hc) E Hl' Hs'. unfold array_wf. arr_simpl.
  rewrite E. repeat split; try assumption; lia.
Qed.

Lemma moved_length (l : list Z) (d s n : nat) :
  (d + n <= List.length l)%nat -> (s + n <= List.length l)%nat ->
  List.length (firstn d l ++ firstn n (skipn s l) ++ skipn (d + n) l) = List.length l.
Proof.
  intros H1 H2. rewrite !length_app, !length_take, !length_drop. lia.
Qed.

Lemma stored_length (l vals : list Z) (i : nat) :
  (i + List.length vals <= List.length l)%nat ->
  List.length (firstn i l ++ vals ++ skipn (i + List.length vals) l) = List.length l.
Proof.
  intros H. rewrite !length_app, !length_take, !length_drop. lia.
Qed.

Lemma inserted_elements (l vals : list Z) (i L c : nat) :
  (i <= L)%nat -> (L + c <= List.length l)%nat -> List.length vals = c ->
  firstn (L + c)
    (firstn i (firstn (i + c) l ++ firstn (L - i) (skipn i l) ++ skipn (i + c + (L - i)) l)
       ++ vals
       ++ skipn (i + c)
            (firstn (i + c) l ++ firstn (L - i) (skipn i l) ++ skipn (i + c + (L - i)) l))
  = firstn i (firstn L l) ++ vals ++ skipn i (firstn L l).
Proof.
  intros Hi HL Hc.
  rewrite (take_app_le (take (i + c) l)) by (rewrite length_take; lia).
  rewrite take_take. replace (i `min` (i + c))%nat with i by lia.
  rewrite (drop_app_length' (take (i + c) l)) by (rewrite length_take; lia).
  rewrite take_take. replace (i `min` L)%nat with i by lia.
  rewrite (take_drop_commute l (L - i) i).
  replace (i + (L - i))%nat with L by lia.
  rewrite !app_assoc. apply take_app_length'.
  rewrite !length_app, !length_take, length_drop, length_take. lia.
Qed.

Lemma removed_elements (l : list Z) (i c L : nat) :
  (i + c <= L)%nat -> (L <= List.length l)%nat ->
  firstn (L - c) (firstn i l ++ firstn (L - (i + c)) (skipn (i + c) l)
                    ++ skipn (i + (L - (i + c))) l)
  = firstn i (firstn L l) ++ skipn (i + c) (firstn L l).
Proof.
  intros Hi HL.
  rewrite take_take. replace (i `min` L)%nat with i by lia.
  rewrite (take_drop_commute l (L - (i + c)) (i + c)).
  replace (i + c + (L - (i + c)))%nat with L by lia.
  rewrite app_assoc. apply take_app_length'.
  rewrite length_app, length_take, length_drop, length_take. lia.
Qed.

Lemma array_append_vals_spec a data :
  array_wf a ->
  arr_element_size a * (arr_length a + Z.of_nat (List.length data)) <= 2 ^ 24 ->
  exists a',
    array_append_vals a data = Some a'
    /\ array_wf a'
    /\ arr_length a' = arr_length a + Z.of_nat (List.length data)
    /\ arr_element_size a' = arr_element_size a
    /\ arr_refcount a' = arr_refcount a
    /\ array_elements a' = array_elements a ++ data.
Proof.
  intros Hwf Hsz.
  pose proof (array_wf_length_in_store a Hwf) as Hin.
  pose proof Hwf as (He & Hg & Hl & Hs & Hsz' & Hc).
  set (L := arr_length a) in *. set (c := Z.of_nat (List.length data)) in *.
  destruct (_array_set_length_spec a (L + c) Hwf ltac:(lia) Hsz)
    as (a1 & E1 & Hwf1 & Hlen1 & Helt1 & Hrc1 & Hcap1 & Hpre1).
  unfold array_append_vals. fold L. fold c.
  rewrite to_ulong_small by (unfold ULONG_MAX, ULONG_BITS; nia).
  rewrite E1.
  rewrite array_store_vals_spec by (fold c; lia).
  eexists. split; [reflexivity|].
  pose proof Hwf1 as (He1 & Hg1 & Hl1 & Hs1 & Hsz1 & Hc1).
  split; [|split; [|split; [|split]]]; arr_simpl; try assumption.
  - destruct a1 as [d1 rc1 el1 gf1 len1 sz1]. arr_simpl.
    apply (array_wf_store (Array d1 rc1 el1 gf1 len1 sz1)); arr_simpl; try assumption.
    apply stored_length. unfold c in *. lia.
  - unfold array_elements. arr_simpl. rewrite Hlen1.
    replace (Z.to_nat (L + c)) with (Z.to_nat L + List.length data)%nat by (unfold c; lia).
    rewrite app_assoc. rewrite take_app_length' by (rewrite length_app, length_take; lia).
    f_equal. apply Hpre1; unfold L, c in *; lia.
Qed.

Lemma array_insert_vals_spec a index data w :
  array_wf a -> 0 <= index < arr_length a ->
  arr_element_size a * (arr_length a + Z.of_nat (List.length data)) <= 2 ^ 24 ->
  exists a',
    array_insert_vals (Some a) index (Some data) w = Some ((true, Some a'), w)
    /\ array_wf a'
    /\ arr_length a' = arr_length a + Z.of_nat (List.length data)
    /\ arr_element_size a' = arr_element_size a
    /\ array_elements a'
       = firstn (Z.to_nat index) (array_elements a) ++ data
           ++ skipn (Z.to_nat index) (array_elements a).
Proof.
  intros Hwf Hidx Hsz.
  pose proof (array_wf_length_in_store a Hwf) as Hin.
  pose proof Hwf as (He & Hg & Hl & Hs & Hsz' & Hc).
  set (L := arr_length a) in *. set (c := Z.of_nat (List.length data)) in *.
  destruct (_array_set_length_spec a (L + c) Hwf ltac:(lia) Hsz)
    as (a1 & E1 & Hwf1 & Hlen1 & Helt1 & Hrc1 & Hcap1 & Hpre1).
  pose proof Hwf1 as (He1 & Hg1 & Hl1 & Hs1 & Hsz1 & Hc1).
  assert (Hc0 : 0 <= c) by (unfold c; lia).
  unfold array_insert_vals. fold L. fold c.
  replace (L <=? index) with false by (symmetry; apply Z.leb_gt; lia).
  rewrite !to_ulong_small by (unfold ULONG_MAX, ULONG_BITS; nia).
  rewrite E1.
  rewrite _array_length_to_size_small by (rewrite Helt1; unfold ULONG_MAX, ULONG_BITS; nia).
  rewrite array_memmove_spec
    by (try rewrite Helt1; unfold ULONG_MAX, ULONG_BITS; try nia; lia).
  unfold array_memcpy. rewrite _array_index_small
    by (arr_simpl; try rewrite Helt1; unfold ULONG_MAX, ULONG_BITS; try nia; lia).
  assert (Hm : List.length
                 (firstn (Z.to_nat (index + c)) (arr_data a1)
                    ++ firstn (Z.to_nat (L - index)) (skipn (Z.to_nat index) (arr_data a1))
                    ++ skipn (Z.to_nat (index + c) + Z.to_nat (L - index)) (arr_data a1))
               = List.length (arr_data a1)).
  { apply moved_length; lia. }
  rewrite array_store_vals_spec by (arr_simpl; try rewrite Hm; fold c; lia).
  arr_simpl. unfold ret. eexists. split; [reflexivity|].
  split; [|split; [|split]]; arr_simpl; try assumption.
  - destruct a1 as [d1 rc1 el1 gf1 len1 sz1]. arr_simpl.
    apply (array_wf_store (Array d1 rc1 el1 gf1 len1 sz1)); arr_simpl; try assumption.
    rewrite stored_length; rewrite Hm; [reflexivity|]. unfold c in *. lia.
  - unfold array_elements. arr_simpl. rewrite Hlen1.
    replace (Z.to_nat (L + c)) with (Z.to_nat L + List.length data)%nat by (unfold c; lia).
    replace (Z.to_nat (index + c)) with (Z.to_nat index + List.length data)%nat
      by (unfold c; lia).
    replace (Z.to_nat (L - index)) with (Z.to_nat L - Z.to_nat index)%nat by lia.
    rewrite inserted_elements by (unfold c in *; lia).
    rewrite (Hpre1 (Z.to_nat L)) by (unfold L, c in *; lia).
    reflexivity.
Qed.

Lemma array_prepend_vals_spec a data w :
  array_wf a ->
  arr_element_size a * (arr_length a + Z.of_nat (List.length data)) <= 2 ^ 24 ->
  exists a',
    array_prepend_vals (Some a) (Some data) w = Some ((true, Some a'), w)
    /\ array_wf a'
    /\ arr_length a' = arr_length a + Z.of_nat (List.length data)
    /\ arr_element_size a' = arr_element_size a
    /\ array_elements a' = data ++ array_elements a.
Proof.
  intros Hwf Hsz.
  pose proof (array_wf_length_in_store a Hwf) as Hin.
  pose proof Hwf as (He & Hg & Hl & Hs & Hsz' & Hc).
  set (L := arr_length a) in *. set (c := Z.of_nat (List.length data)) in *.
  destruct (_array_set_length_spec a (L + c) Hwf ltac:(lia) Hsz)
    as (a1 & E1 & Hwf1 & Hlen1 & Helt1 & Hrc1 & Hcap1 & Hpre1).
  pose proof Hwf1 as (He1 & Hg1 & Hl1 & Hs1 & Hsz1 & Hc1).
  assert (Hc0 : 0 <= c) by (unfold c; lia).
  unfold array_prepend_vals. fold L. fold c.
  rewrite !to_ulong_small by (unfold ULONG_MAX, ULONG_BITS; nia).
  rewrite E1.
  rewrite _array_length_to_size_small by (rewrite Helt1; unfold ULONG_MAX, ULONG_BITS; nia).
  rewrite array_memmove_spec
    by (try rewrite Helt1; unfold ULONG_MAX, ULONG_BITS; try nia; lia).
  unfold array_memcpy. rewrite _array_index_small
    by (arr_simpl; try rewrite Helt1; unfold ULONG_MAX, ULONG_BITS; try nia; lia).
  assert (Hm : List.length
                 (firstn (Z.to_nat c) (arr_data a1)
                    ++ firstn (Z.to_nat L) (skipn (Z.to_nat 0) (arr_data a1))
                    ++ skipn (Z.to_nat c + Z.to_nat L) (arr_data a1))
               = List.length (arr_data a1)).
  { apply moved_length; lia. }
  rewrite array_store_vals_spec by (arr_simpl; try rewrite Hm; fold c; lia).
  arr_simpl. unfold ret. eexists. split; [reflexivity|].
  split; [|split; [|split]]; arr_simpl; try assumption.
  - destruct a1 as [d1 rc1 el1 gf1 len1 sz1]. arr_simpl.
    apply (array_wf_store (Array d1 rc1 el1 gf1 len1 sz1)); arr_simpl; try assumption.
    rewrite stored_length; rewrite Hm; [reflexivity|]. unfold c in *. lia.
  - unfold array_elements. arr_simpl. rewrite Hlen1.
    change (Z.to_nat 0) with 0%nat. cbn [Nat.add].
    replace (Z.to_nat c) with (List.length data) by (unfold c; lia).
    rewrite (drop_app_length' (take (List.length data) (arr_data a1)))
      by (rewrite length_take; unfold c in *; lia).
    replace (Z.to_nat (L + c))
      with (List.length data + Z.to_nat L)%nat by (unfold c in *; lia).
    rewrite take_0, !drop_0. cbn [app].
    rewrite take_app_add' by reflexivity.
    rewrite take_app_le by (rewrite length_take; lia).
    rewrite take_take, Nat.min_id.
    rewrite (Hpre1 (Z.to_nat L)) by (unfold L, c in *; lia).
    reflexivity.
Qed.

Lemma array_remove_vals_spec a index count w :
  array_wf a -> 0 <= index < arr_length a -> 0 <= count ->
  index + count <= arr_length a ->
  exists a',
    array_remove_vals (Some a) index count w = Some ((true, Some a'), w)
    /\ array_wf a'
    /\ arr_length a' = arr_length a - count
    /\ arr_element_size a' = arr_element_size a
    /\ array_elements a'
       = firstn (Z.to_nat index) (array_elements a)
           ++ skipn (Z.to_nat (index + count)) (array_elements a).
Proof.
  intros Hwf Hidx Hcount Hend.
  pose proof (array_wf_length_in_store a Hwf) as Hin.
  pose proof Hwf as (He & Hg & Hl & Hs & Hsz' & Hc).
  set (L := arr_length a) in *.
  unfold array_remove_vals. fold L.
  replace (L <=? index) with false by (symmetry; apply Z.leb_gt; lia).
  rewrite !to_ulong_small by (unfold ULONG_MAX, ULONG_BITS in *; nia).
  rewrite _array_length_to_size_small by nia.
  rewrite array_memmove_spec by (try nia; lia).
  set (data1 := firstn _ _ ++ _).
  assert (Hm : List.length data1 = List.length (arr_data a)).
  { unfold data1. apply moved_length; lia. }
  rewrite (_array_set_length_shrinks (Array data1 _ _ _ _ _)); arr_simpl.
  - unfold ret. eexists. split; [reflexivity|].
    split; [|split; [|split]]; arr_simpl; try reflexivity.
    + apply array_wf_store; try assumption; try lia; nia.
    + unfold array_elements. arr_simpl. fold L. unfold data1.
      replace (Z.to_nat (L - count)) with (Z.to_nat L - Z.to_nat count)%nat by lia.
      replace (Z.to_nat (L - (index + count)))
        with (Z.to_nat L - (Z.to_nat index + Z.to_nat count))%nat by lia.
      replace (Z.to_nat (index + count)) with (Z.to_nat index + Z.to_nat count)%nat by lia.
      apply removed_elements; lia.
  - destruct a as [d0 rc0 el0 gf0 len0 sz0]. arr_simpl.
    apply (array_wf_store (Array d0 rc0 el0 gf0 len0 sz0)); arr_simpl; try assumption.
  - lia.
  - nia.
Qed.

Lemma array_remove_val_fast_spec a index x w :
  array_wf a -> 0 <= index < arr_length a ->
  array_index a (arr_length a - 1) = Some x ->
  exists a',
    array_remove_val_fast (Some a) index w = Some ((true, Some a'), w)
    /\ array_wf a'
    /\ arr_length a' = arr_length a - 1
    /\ arr_element_size a' = arr_element_size a
    /\ array_elements a'
       = firstn (Z.to_nat (arr_length a - 1))
           (<[Z.to_nat index := x]> (array_elements a)).
Proof.
  intros Hwf Hidx Hx.
  pose proof (array_wf_length_in_store a Hwf) as Hin.
  pose proof Hwf as (He & Hg & Hl & Hs & Hsz' & Hc).
  set (L := arr_length a) in *.
  unfold array_index in Hx.
  replace (0 <=? L - 1) with true in Hx by (symmetry; apply Z.leb_le; lia).
  unfold array_remove_val_fast. fold L.
  replace (L <=? index) with false by (symmetry; apply Z.leb_gt; lia).
  rewrite !to_ulong_small by (unfold ULONG_MAX, ULONG_BITS in *; nia).
  rewrite _array_length_to_size_small by nia.
  rewrite array_memmove_spec by (try nia; lia).
  set (data1 := firstn _ _ ++ _).
  assert (Hd1 : data1 = <[Z.to_nat index := x]> (arr_data a)).
  { unfold data1. rewrite (drop_S _ _ _ Hx). change (Z.to_nat 1) with 1%nat.
    cbn [take app]. rewrite take_0.
    rewrite insert_take_drop by lia.
    replace (Z.to_nat index + 1)%nat with (S (Z.to_nat index)) by lia. reflexivity. }
  rewrite (_array_set_length_shrinks (Array data1 _ _ _ _ _)); arr_simpl.
  - unfold ret. eexists. split; [reflexivity|].
    split; [|split; [|split]]; arr_simpl; try reflexivity.
    + apply array_wf_store; try assumption; try lia; try nia.
      rewrite Hd1. apply length_insert.
    + unfold array_elements. arr_simpl. fold L. rewrite Hd1.
      destruct (decide (Z.to_nat index < Z.to_nat (L - 1))%nat) as [Hlt|Hge].
      * rewrite !take_insert_lt by lia. rewrite take_take.
        replace (Z.to_nat (L - 1) `min` Z.to_nat L)%nat with (Z.to_nat (L - 1)) by lia.
        reflexivity.
      * rewrite !take_insert.
        destruct (decide (Z.to_nat index < Z.to_nat (L - 1))%nat); [lia|].
        rewrite take_take.
        replace (Z.to_nat (L - 1) `min` Z.to_nat L)%nat with (Z.to_nat (L - 1)) by lia.
        reflexivity.
  - destruct a as [d0 rc0 el0 gf0 len0 sz0]. arr_simpl.
    apply (array_wf_store (Array d0 rc0 el0 gf0 len0 sz0)); arr_simpl; try assumption.
    rewrite Hd1. apply length_insert.
  - lia.
  - nia.
Qed.



Lemma array_elements_length a :
  array_wf a -> List.length (array_elements a) = Z.to_nat (arr_length a).
Proof.
  intros Hwf. pose proof (array_wf_length_in_store a Hwf).
  unfold array_elements. rewrite length_take. lia.
Qed.

(** ** Numbers written by [printf] and read by [strtoul] *)

Lemma digit_val_hex_digit d : 0 <= d < 16 -> digit_val (hex_digit d) = Some d.
Proof.
  intros H.
  assert (C : d = 0 \/ d = 1 \/ d = 2 \/ d = 3 \/ d = 4 \/ d = 5 \/ d = 6 \/ d = 7 \/
              d = 8 \/ d = 9 \/ d = 10 \/ d = 11 \/ d = 12 \/ d = 13 \/ d = 14 \/ d = 15)
    by lia.
  repeat (destruct C as [->|C]; [reflexivity|]). subst d. reflexivity.
Qed.

Lemma strtoul_digits_aux base :
  2 <= base <= 16 ->
  forall fuel n acc,
    0 <= n < base ^ Z.of_nat fuel ->
    strtoul_digits base (digits_aux base fuel n acc) 0 = strtoul_digits base acc n.
Proof.
  intros Hb fuel. induction fuel as [|fuel IH]; intros n acc Hn.
  - change (base ^ Z.of_nat 0) with 1 in Hn. assert (n = 0) by lia. subst n. reflexivity.
  - cbn [digits_aux]. destruct (Z.eqb_spec n 0) as [->|Hn0]; [reflexivity|].
    assert (Hmod : 0 <= n mod base < base) by (apply Z.mod_pos_bound; lia).
    rewrite IH.
    + cbn [strtoul_digits]. rewrite digit_val_hex_digit by lia.
      replace (n mod base <? base) with true by (symmetry; apply Z.ltb_lt; lia).
      f_equal. rewrite (Z.div_mod n base) at 3 by lia. lia.
    + rewrite Nat2Z.inj_succ, Z.pow_succ_r in Hn by lia.
      split; [apply Z.div_pos; lia|]. apply Z.div_lt_upper_bound; lia.
Qed.

Lemma is_hex_digit_digits_aux fuel :
  forall n acc,
    is_hex_digit acc = true \/ (0 < n < 16 ^ Z.of_nat fuel) ->
    is_hex_digit (digits_aux 16 fuel n acc) = true.
Proof.
  induction fuel as [|fuel IH]; intros n acc H.
  - cbn [digits_aux]. destruct H as [H|H]; [exact H|]. change (16 ^ Z.of_nat 0) with 1 in H. lia.
  - cbn [digits_aux]. destruct (Z.eqb_spec n 0) as [->|Hn0].
    + destruct H as [H|H]; [exact H|lia].
    + apply IH. left. cbn [is_hex_digit].
      assert (Hmod : 0 <= n mod 16 < 16) by (apply Z.mod_pos_bound; lia).
      rewrite digit_val_hex_digit by lia. apply Z.ltb_lt. lia.
Qed.

Lemma strtoul_parse_printf_alt_hex n :
  0 <= n <= ULONG_MAX -> strtoul_parse (printf_alt_hex n) = (false, n).
Proof.
  intros Hn. unfold printf_alt_hex.
  destruct (Z.eqb_spec n 0) as [->|Hn0]; [reflexivity|].
  unfold digits. replace (n =? 0) with false by (symmetry; apply Z.eqb_neq; exact Hn0).
  assert (Hr : 0 <= n < 16 ^ Z.of_nat 64) by (unfold ULONG_MAX, ULONG_BITS in Hn; lia).
  pose proof (is_hex_digit_digits_aux 64 n "" ltac:(right; lia)) as Hhex.
  pose proof (strtoul_digits_aux 16 ltac:(lia) 64 n "" Hr) as Hval.
  set (s := digits_aux 16 64 n "") in *.
  change ("0x" +:+ s)%string with (String "0" (String "x" s)).
  unfold strtoul_parse. cbn [skip_spaces].
  change (isspace "0") with false. cbv iota.
  change (Ascii.eqb "x" "x" || Ascii.eqb "x" "X") with true.
  rewrite Hhex. cbn [andb]. rewrite Hval. reflexivity.
Qed.

Lemma strtoul_printf_alt_hex n w :
  0 <= n <= ULONG_MAX -> strtoul (printf_alt_hex n) w = Some (n, w).
Proof.
  intros Hn. unfold strtoul. rewrite strtoul_parse_printf_alt_hex by exact Hn.
  replace (ULONG_MAX <? n) with false by (symmetry; apply Z.ltb_ge; lia).
  reflexivity.
Qed.

Lemma byte_of_Z_val b r : byte_of_Z (byte_val b + 256 * r) = b.
Proof.
  unfold byte_of_Z, byte_val.
  assert (H : Z.of_N (Byte.to_N b) < 256).
  { pose proof (Byte.to_N_bounded b). lia. }
  replace ((Z.of_N (Byte.to_N b) + 256 * r) mod 256) with (Z.of_N (Byte.to_N b)).
  - rewrite N2Z.id, Byte.of_to_N. reflexivity.
  - apply (Z.mod_unique _ _ r); lia.
Qed.

Lemma byte_val_range b : 0 <= byte_val b < 256.
Proof. unfold byte_val. pose proof (Byte.to_N_bounded b). lia. Qed.

Lemma le_encode_decode bs : le_encode (List.length bs) (le_decode bs) = bs.
Proof.
  induction bs as [|b bs IH]; [reflexivity|].
  cbn [List.length le_encode le_decode]. rewrite byte_of_Z_val. f_equal.
  replace ((byte_val b + 256 * le_decode bs) / 256) with (le_decode bs); [exact IH|].
  pose proof (byte_val_range b). apply (Z.div_unique _ _ _ (byte_val b)); lia.
Qed.

Lemma le_decode_range bs : 0 <= le_decode bs < 256 ^ Z.of_nat (List.length bs).
Proof.
  induction bs as [|b bs IH]; [cbn; lia|].
  cbn [List.length le_decode]. rewrite Nat2Z.inj_succ, Z.pow_succ_r by lia.
  pose proof (byte_val_range b). lia.
Qed.

(** ** The port-spec parser *)






















(** ** The generator as a function of its state *)

Lemma le_decode_encode n z :
  0 <= z < 256 ^ Z.of_nat n -> le_decode (le_encode n z) = z.
Proof.
  revert z. induction n as [|n IH]; intros z Hz.
  - change (256 ^ Z.of_nat 0) with 1 in Hz. cbn. lia.
  - rewrite Nat2Z.inj_succ, Z.pow_succ_r in Hz by lia.
    cbn [le_encode le_decode]. rewrite IH.
    + unfold byte_val, byte_of_Z.
      assert (Hm : 0 <= z mod 256 < 256) by (apply Z.mod_pos_bound; lia).
      destruct (Byte.of_N (Z.to_N (z mod 256))) as [b|] eqn:Hb.
      * apply Byte.to_of_N in Hb. rewrite Hb, Z2N.id by lia.
        rewrite (Z.div_mod z 256) at 3 by lia. lia.
      * apply Byte.of_N_None_iff in Hb. lia.
    + split; [apply Z.div_pos; lia|]. apply Z.div_lt_upper_bound; lia.
Qed.

Lemma rng_X_stepped q w r X' :
  randoms w !! q = Some r -> (6 <= List.length (rnd_state r))%nat -> 0 <= X' < 2 ^ 48 ->
  rng_X (World (errno w)
           (<[q := Random (rnd_refcount r) (le_encode 6 X' ++ skipn 6 (rnd_state r))]>
              (randoms w)) (brk w) (io_log w)) q = X'.
Proof.
  intros Hr Hl HX. unfold rng_X, rng_state. cbn [randoms].
  rewrite lookup_insert_eq. cbn [rnd_state].
  rewrite take_app_length' by (rewrite le_encode_length; reflexivity).
  apply le_decode_encode. change (256 ^ Z.of_nat 6) with (2 ^ 48). exact HX.
Qed.

Lemma random_double_det q w :
  rng_live w q ->
  exists w', random_double q w = Some (FP (drand48_iterate (rng_X w q)) (-48), w')
             /\ rng_evolves q w w'
             /\ rng_X w' q = drand48_iterate (rng_X w q).
Proof.
  intros (Hq & r & Hr & Hlen).
  unfold random_double, bind. rewrite (get_random_eq q w r Hq Hr).
  unfold erand48.
  destruct (6 <=? List.length (rnd_state r))%nat eqn:C;
    [|apply Nat.leb_gt in C; lia].
  assert (EX : rng_X w q = le_decode (firstn 6 (rnd_state r)))
    by (unfold rng_X, rng_state; rewrite Hr; reflexivity).
  rewrite !EX.
  set (X := drand48_iterate (le_decode (firstn 6 (rnd_state r)))).
  eexists. split; [reflexivity|].
  destruct (stepped_state_length X (rnd_state r)) as [Hl Hs]; [lia|].
  cbn [errno randoms brk io_log]. split; [apply rng_evolves_put; assumption|].
  apply rng_X_stepped; [assumption|lia|apply drand48_iterate_range].
Qed.

Lemma random_ulong_det q w :
  rng_live w q ->
  exists w', random_ulong q w = Some (draw_ulong (rng_X w q), w')
             /\ rng_evolves q w w'
             /\ rng_X w' q = drand48_iterate (rng_X w q).
Proof.
  intros (Hq & r & Hr & Hlen).
  unfold random_ulong, bind. rewrite (get_random_eq q w r Hq Hr).
  unfold jrand48.
  destruct (6 <=? List.length (rnd_state r))%nat eqn:C;
    [|apply Nat.leb_gt in C; lia].
  assert (EX : rng_X w q = le_decode (firstn 6 (rnd_state r)))
    by (unfold rng_X, rng_state; rewrite Hr; reflexivity).
  unfold draw_ulong. rewrite !EX.
  set (X := drand48_iterate (le_decode (firstn 6 (rnd_state r)))).
  eexists. split; [reflexivity|].
  destruct (stepped_state_length X (rnd_state r)) as [Hl Hs]; [lia|].
  cbn [errno randoms brk io_log]. split; [apply rng_evolves_put; assumption|].
  apply rng_X_stepped; [assumption|lia|apply drand48_iterate_range].
Qed.

Lemma random_range_det q b e w :
  rng_live w q -> draw_range b e (rng_X w q) <= ULONG_MAX ->
  exists w', random_ulong_with_range q b e w = Some (draw_range b e (rng_X w q), w')
             /\ rng_evolves q w w'
             /\ rng_X w' q = drand48_iterate (rng_X w q).
Proof.
  intros Hlive Hfit.
  destruct (random_double_det q w Hlive) as (w' & E & Hev & HX).
  unfold random_ulong_with_range. rewrite (bind_eq _ _ _ _ _ E).
  unfold draw_range in Hfit |- *. rewrite fp_to_ulong_eq by exact Hfit.
  exists w'. auto.
Qed.

Lemma draw_range_from_zero e X :
  0 <= e < 2 ^ 53 - 1 -> 0 <= draw_range 0 e X <= e.
Proof.
  intros He. unfold draw_range.
  replace (to_ulong (e - 0 + 1)) with (e + 1)
    by (unfold to_ulong, ULONG_BITS; rewrite Z.mod_small; lia).
  pose proof (uniform_from_zero (drand48_iterate X) (e + 1) (drand48_iterate_range X)
                ltac:(lia)) as Hr.
  unfold DBL_MANT. lia.
Qed.

Lemma draw_range_from_one e e' j X :
  1 <= e' <= 31 -> 0 <= j <= 16 -> e = e' * 2 ^ j -> 1 <= draw_range 1 e X <= e.
Proof.
  intros He' Hj He.
  assert (Hpj : 0 < 2 ^ j <= 2 ^ 16).
  { split; [apply Z.pow_pos_nonneg; lia | apply Z.pow_le_mono_r; lia]. }
  assert (He1 : 1 <= e < 2 ^ 53) by nia.
  unfold draw_range.
  replace (to_ulong (e - 1 + 1)) with e
    by (unfold to_ulong, ULONG_BITS; rewrite Z.mod_small; lia).
  pose proof (drand48_iterate_range X) as HX.
  pose proof (uniform_from_one (drand48_iterate X) e e' j HX He' Hj He) as Hr.
  assert (0 <= drand48_iterate X * e / 2 ^ 48 < e).
  { split; [apply Z.div_pos; nia | apply Z.div_lt_upper_bound; nia]. }
  unfold DBL_MANT. lia.
Qed.

Lemma draw_range_wrapped X : draw_range 0 ULONG_MAX X = 0.
Proof.
  unfold draw_range. change (to_ulong (ULONG_MAX - 0 + 1)) with 0.
  unfold DBL_MANT, fp_of_Z. rewrite !fp_round_small by lia.
  unfold fp_mul. cbn [fp_m fp_e]. rewrite Z.mul_0_r.
  rewrite fp_round_small by lia.
  unfold fp_add. cbn [fp_m fp_e]. rewrite !Z.mul_0_l. change (0 + 0) with 0.
  rewrite fp_round_small by lia.
  unfold fp_trunc. cbn [fp_m fp_e].
  destruct (0 <=? Z.min (-48 + 0) 0); reflexivity.
Qed.

Lemma draw_ulong_range X :
  0 <= draw_ulong X < 2 ^ 31 \/ 2 ^ 64 - 2 ^ 31 <= draw_ulong X < 2 ^ 64.
Proof.
  unfold draw_ulong. pose proof (drand48_iterate_range X) as HX.
  set (hi := drand48_iterate X / 2 ^ 16).
  assert (Hhi : 0 <= hi < 2 ^ 32).
  { unfold hi. split; [apply Z.div_pos; lia|]. apply Z.div_lt_upper_bound; lia. }
  destruct (Z.ltb_spec hi (2 ^ 31)) as [Hlt|Hge].
  - left. rewrite to_ulong_small by (unfold ULONG_MAX, ULONG_BITS; lia). lia.
  - right. unfold to_ulong, ULONG_BITS.
    replace ((hi - 2 ^ 32) mod 2 ^ 64) with (hi - 2 ^ 32 + 2 ^ 64); [lia|].
    apply (Z.mod_unique _ _ (-1)); lia.
Qed.

Lemma random_fermat_number_det q w :
  rng_live w q ->
  exists w', random_fermat_number q w = Some (2 ^ draw_range 1 31 (rng_X w q) + 1, w')
             /\ rng_evolves q w w'
             /\ rng_X w' q = drand48_iterate (rng_X w q).
Proof.
  intros Hlive.
  pose proof (draw_range_from_one 31 31 0 (rng_X w q) ltac:(lia) ltac:(lia) eq_refl) as Hn.
  destruct (random_range_det q 1 31 w Hlive) as (w' & E & Hev & HX).
  { unfold ULONG_MAX, ULONG_BITS. lia. }
  unfold random_fermat_number, random_number_with_range. rewrite (bind_eq _ _ _ _ _ E).
  assert (2 ^ draw_range 1 31 (rng_X w q) <= 2 ^ 31) by (apply Z.pow_le_mono_r; lia).
  rewrite fp_to_ulong_eq; rewrite pow2_plus_one by lia.
  - exists w'. auto.
  - unfold ULONG_MAX, ULONG_BITS. lia.
Qed.

Lemma random_mersenne_number_det q w :
  rng_live w q ->
  exists w', random_mersenne_number q w = Some (2 ^ draw_range 1 32 (rng_X w q) - 1, w')
             /\ rng_evolves q w w'
             /\ rng_X w' q = drand48_iterate (rng_X w q).
Proof.
  intros Hlive.
  pose proof (draw_range_from_one 32 16 1 (rng_X w q) ltac:(lia) ltac:(lia) eq_refl) as Hn.
  destruct (random_range_det q 1 32 w Hlive) as (w' & E & Hev & HX).
  { unfold ULONG_MAX, ULONG_BITS. lia. }
  unfold random_mersenne_number, random_number_with_range. rewrite (bind_eq _ _ _ _ _ E).
  assert (2 ^ draw_range 1 32 (rng_X w q) <= 2 ^ 32) by (apply Z.pow_le_mono_r; lia).
  rewrite fp_to_ulong_eq; rewrite pow2_minus_one by lia.
  - exists w'. auto.
  - unfold ULONG_MAX, ULONG_BITS. lia.
Qed.

Lemma _iofuzzer_random_number_det fz w :
  rng_live w (fz_random fz) ->
  exists w', _iofuzzer_random_number fz w
             = Some (fst (draw_number (rng_X w (fz_random fz))), w')
             /\ rng_evolves (fz_random fz) w w'
             /\ rng_X w' (fz_random fz) = snd (draw_number (rng_X w (fz_random fz))).
Proof.
  intros Hlive. unfold _iofuzzer_random_number, random_number_with_range, random_number.
  pose proof (draw_range_from_zero 2 (rng_X w (fz_random fz)) ltac:(lia)) as Hk.
  destruct (random_range_det (fz_random fz) 0 2 w Hlive) as (w1 & E & Hev1 & HX1).
  { unfold ULONG_MAX, ULONG_BITS. lia. }
  rewrite (bind_eq _ _ _ _ _ E).
  pose proof (rng_evolves_live _ _ _ Hlive Hev1) as Hlive1.
  unfold draw_number. cbn [fst snd].
  set (k := draw_range 0 2 (rng_X w (fz_random fz))) in *.
  rewrite <- HX1.
  destruct (Z.eqb_spec k 0) as [E0|N0]; [|destruct (Z.eqb_spec k 1) as [E1|N1]].
  - destruct (random_ulong_det _ _ Hlive1) as (w2 & E2 & Hev2 & HX2).
    exists w2. split; [exact E2|]. split; [eapply rng_evolves_trans; eassumption|exact HX2].
  - destruct (random_fermat_number_det _ _ Hlive1) as (w2 & E2 & Hev2 & HX2).
    exists w2. split; [exact E2|]. split; [eapply rng_evolves_trans; eassumption|exact HX2].
  - replace (k =? 2) with true by (symmetry; apply Z.eqb_eq; lia).
    destruct (random_mersenne_number_det _ _ Hlive1) as (w2 & E2 & Hev2 & HX2).
    exists w2. split; [exact E2|]. split; [eapply rng_evolves_trans; eassumption|exact HX2].
Qed.

Lemma random_string_loop_det q buf :
  forall i count w,
    rng_live w q -> 0 <= i <= count -> count <= INT_MAX ->
    count - i < Z.of_nat (List.length buf) ->
    exists w',
      random_string_loop q buf i count w
      = Some (fst (draw_chars (Z.to_nat (count - i)) (rng_X w q))
                ++ x00 :: skipn (Z.to_nat (count - i) + 1) buf, w')
      /\ rng_evolves q w w'
      /\ rng_X w' q = snd (draw_chars (Z.to_nat (count - i)) (rng_X w q)).
Proof.
  induction buf as [|b rest IH]; intros i count w Hlive Hi Hmax Hc; [simpl in Hc; lia|].
  cbn [random_string_loop].
  destruct (i <? count) eqn:C; [apply Z.ltb_lt in C | apply Z.ltb_ge in C].
  - pose proof (draw_range_from_zero (sizeof_charset - 1) (rng_X w q)
                  ltac:(rewrite sizeof_charset_eq; lia)) as Hk.
    rewrite sizeof_charset_eq in Hk. change (97 - 1) with 96 in Hk.
    destruct (random_range_det q 0 (sizeof_charset - 1) w Hlive) as (w1 & E & Hev1 & HX1).
    { rewrite sizeof_charset_eq. change (97 - 1) with 96. unfold ULONG_MAX, ULONG_BITS. lia. }
    unfold random_number_with_range. rewrite (bind_eq _ _ _ _ _ E).
    rewrite sizeof_charset_eq in *. change (97 - 1) with 96 in *.
    set (k := draw_range 0 96 (rng_X w q)) in *.
    rewrite (nth_error_nth' charset x00)
      by (change (List.length charset) with 97%nat; lia).
    replace (i + 1 <=? INT_MAX) with true by (symmetry; apply Z.leb_le; lia).
    pose proof (rng_evolves_live _ _ _ Hlive Hev1) as Hlive1.
    destruct (IH (i + 1) count w1 Hlive1) as (w2 & E2 & Hev2 & HX2); [lia|lia| |].
    { cbn [List.length] in Hc. lia. }
    rewrite (bind_eq _ _ _ _ _ E2).
    exists w2.
    replace (Z.to_nat (count - i)) with (S (Z.to_nat (count - (i + 1)))) by lia.
    cbn [draw_chars fst snd]. rewrite sizeof_charset_eq. change (97 - 1) with 96.
    fold k. rewrite <- HX1.
    split; [|split; [eapply rng_evolves_trans; eassumption|exact HX2]].
    replace (S (Z.to_nat (count - (i + 1))) + 1)%nat
      with (S (Z.to_nat (count - (i + 1)) + 1)) by lia.
    reflexivity.
  - assert (count = i) as -> by lia. rewrite Z.sub_diag.
    destruct Hlive as (Hq & r & Hr & Hlen).
    exists w. split; [reflexivity|]. split; [eapply rng_evolves_refl; eassumption|reflexivity].
Qed.

Lemma draw_chars_length n : forall X, List.length (fst (draw_chars n X)) = n.
Proof. induction n as [|n IH]; intros X; [reflexivity|]. cbn. rewrite IH. reflexivity. Qed.

(** Refilling one of the two buffers through its slot. *)
Lemma randomize_string_det {P} fz i w :
  fuzzer_shape P fz -> rng_live w (fz_random fz) -> i = 5 \/ i = 6 ->
  forall cs, cs = draw_chars 254 (rng_X w (fz_random fz)) ->
  exists fz' w', randomize_string fz i w = Some (fz', w')
                 /\ fuzzer_shape P fz' /\ same_shape fz fz'
                 /\ fz_state fz' = fz_state fz
                 /\ (forall j, variate fz' j = variate fz j)
                 /\ rng_evolves (fz_random fz) w w'
                 /\ rng_X w' (fz_random fz) = snd cs
                 /\ (i = 5 ->
                     blk_bytes (fz_variate5 fz')
                     = fst cs ++ x00 :: skipn 255 (blk_bytes (fz_variate5 fz))
                     /\ fz_variate6 fz' = fz_variate6 fz)
                 /\ (i = 6 ->
                     blk_bytes (fz_variate6 fz')
                     = fst cs ++ x00 :: skipn 255 (blk_bytes (fz_variate6 fz))
                     /\ fz_variate5 fz' = fz_variate5 fz).
Proof.
  intros Hwf Hlive Hi cs Hcs.
  assert (Hcl : List.length (fst cs) = 254%nat) by (rewrite Hcs; apply draw_chars_length).
  pose proof Hwf as (Hst & (vs & Hvs & Hlen & Hcap & H5 & H6) & Hbuf & Hports).
  pose proof Hbuf as (L5 & L6 & A5 & A6 & D).
  set (p := if Z.eq_dec i 5 then blk_addr (fz_variate5 fz) else blk_addr (fz_variate6 fz)).
  set (buf := if Z.eq_dec i 5 then blk_bytes (fz_variate5 fz) else blk_bytes (fz_variate6 fz)).
  assert (Hp : variate fz i = Some p).
  { unfold variate, p. rewrite Hvs. destruct Hi as [-> | ->]; assumption. }
  assert (Hload : load_from fz p = Some buf).
  { unfold p, buf. destruct (Z.eq_dec i 5);
      [apply load_from_variate5 | apply load_from_variate6]; assumption. }
  assert (Hbl : List.length buf = 256%nat).
  { unfold buf. destruct (Z.eq_dec i 5); assumption. }
  assert (Hp0 : (p =? NULL) = false).
  { apply Z.eqb_neq. unfold p, NULL. destruct (Z.eq_dec i 5); lia. }
  unfold randomize_string.
  rewrite (bind_eq _ _ _ _ _ (load_variate_eq fz i p w Hp)), Hp0, Hload.
  destruct (random_string_loop_det (fz_random fz) buf 0 254 w Hlive) as (w' & E & Hev & HX);
    [lia|unfold INT_MAX; lia|lia|].
  change (Z.to_nat (254 - 0)) with 254%nat in E, HX. rewrite <- Hcs in E, HX.
  change (254 + 1)%nat with 255%nat in E. clear Hcs.
  unfold random_string.
  destruct (fz_random fz =? NULL) eqn:C.
  { apply Z.eqb_eq in C. destruct Hlive as [N _]. contradiction. }
  change (to_ulong (MAXSIZE - 2)) with 254.
  rewrite (bind_eq _ _ _ _ _ (bind_eq _ _ _ _ _ E)). cbv beta iota.
  set (buf' := fst cs ++ x00 :: skipn 255 buf) in *.
  assert (Hbl' : List.length buf' = 256%nat).
  { unfold buf'. rewrite length_app. cbn [List.length]. rewrite length_skipn, Hbl, Hcl.
    reflexivity. }
  assert (Hwf' : fuzzer_shape P (store_from fz p buf')
                 /\ same_shape fz (store_from fz p buf')
                 /\ fz_state (store_from fz p buf') = fz_state fz
                 /\ fz_variates (store_from fz p buf') = fz_variates fz
                 /\ (i = 5 -> blk_bytes (fz_variate5 (store_from fz p buf')) = buf'
                              /\ fz_variate6 (store_from fz p buf') = fz_variate6 fz)
                 /\ (i = 6 -> blk_bytes (fz_variate6 (store_from fz p buf')) = buf'
                              /\ fz_variate5 (store_from fz p buf') = fz_variate5 fz)).
  { unfold store_from, p. destruct (Z.eq_dec i 5) as [E5|N5].
    - assert (in_block (fz_variate5 fz) (blk_addr (fz_variate5 fz)) = true) as ->.
      { unfold in_block. rewrite L5. change (Z.of_nat (Z.to_nat MAXSIZE)) with 256.
        apply andb_true_intro. split; [apply Z.leb_le | apply Z.ltb_lt]; lia. }
      unfold block_store. rewrite Z.sub_diag. cbn [Z.to_nat firstn app].
      split; [|split; [repeat split|split; [reflexivity|split; [reflexivity|]]]].
      + split; [exact Hst|]. split; [exists vs; repeat split; assumption|].
        split; [|exact Hports]. repeat split; cbn [fz_variate5 fz_variate6 blk_bytes blk_addr];
          assumption.
      + split; [intros _; split; reflexivity|]. intros ->. discriminate.
    - rewrite (in_block_variate5_variate6 fz Hbuf), (in_block_variate6 fz Hbuf).
      unfold block_store. rewrite Z.sub_diag. cbn [Z.to_nat firstn app].
      split; [|split; [repeat split|split; [reflexivity|split; [reflexivity|]]]].
      + split; [exact Hst|]. split; [exists vs; repeat split; assumption|].
        split; [|exact Hports]. repeat split; cbn [fz_variate5 fz_variate6 blk_bytes blk_addr];
          assumption.
      + split; [intros ->; contradiction|]. intros _; split; reflexivity. }
  destruct Hwf' as (Hwf1 & Hsh1 & Hst1 & Hvs1 & Hb5 & Hb6).
  destruct (store_variate_spec (store_from fz p buf') i p w' Hwf1) as
    (fz' & E' & Hwf2 & Hsh2 & Hst2 & K5 & K6 & Hget & Hother).
  { lia. }
  { intros ->. destruct Hsh1 as (_ & _ & _ & -> & _). unfold p.
    destruct (Z.eq_dec 5 5); [reflexivity|contradiction]. }
  { intros ->. destruct Hsh1 as (_ & _ & _ & _ & ->). unfold p.
    destruct (Z.eq_dec 6 5); [discriminate|reflexivity]. }
  rewrite E'. exists fz', w'. split; [reflexivity|].
  split; [exact Hwf2|]. split; [eapply same_shape_trans; eassumption|].
  split; [congruence|]. split; [|split; [exact Hev|split; [exact HX|]]].
  - intros j. destruct (Z.eq_dec j i) as [->|N].
    + rewrite Hget. symmetry. exact Hp.
    + rewrite Hother by assumption. unfold variate. rewrite Hvs1. reflexivity.
  - rewrite K5, K6. unfold buf' in *. unfold buf in *.
    split; intros Ei.
    + destruct (Hb5 Ei) as [B1 B2]. subst i.
      destruct (Z.eq_dec 5 5); [|contradiction]. split; assumption.
    + destruct (Hb6 Ei) as [B1 B2]. subst i.
      destruct (Z.eq_dec 6 5); [discriminate|]. split; assumption.
Qed.

(** The port slot: an element of the store of the list, or a 16-bit draw. *)
Lemma randomize_port_det fz w :
  fuzzer_ok fz -> rng_live w (fz_random fz) ->
  exists w',
    match fz_ports fz with
    | Some ports =>
        let* len := array_get_length (Some ports) in
        let* k := random_number_with_range (fz_random fz) 0 (to_ulong (len - 1)) in
        match array_index ports k with
        | Some v4 => store_variate fz 4 v4
        | None => ub
        end
    | None =>
        let* v4 := random_number_with_range (fz_random fz) 0 MAXPORT in
        store_variate fz 4 v4
    end w = store_variate fz 4 (draw_port (fz_ports fz) (rng_X w (fz_random fz))) w'
    /\ rng_evolves (fz_random fz) w w'
    /\ rng_X w' (fz_random fz) = drand48_iterate (rng_X w (fz_random fz)).
Proof.
  intros Hwf Hlive. pose proof Hwf as (_ & _ & _ & Hports).
  unfold random_number_with_range, draw_port.
  destruct (fz_ports fz) as [ps|].
  - destruct Hports as (Hlen & Hcap).
    cbn [array_get_length]. unfold ret at 1. unfold bind at 1.
    set (k := draw_range 0 (to_ulong (arr_length ps - 1)) (rng_X w (fz_random fz))).
    assert (Hk : 0 <= k < Z.max 1 (arr_length ps)).
    { unfold k. destruct (Z.eq_dec (arr_length ps) 0) as [E0|N0].
      - rewrite E0. change (to_ulong (0 - 1)) with ULONG_MAX.
        rewrite draw_range_wrapped. lia.
      - replace (to_ulong (arr_length ps - 1)) with (arr_length ps - 1)
          by (unfold to_ulong, ULONG_BITS; rewrite Z.mod_small; lia).
        pose proof (draw_range_from_zero (arr_length ps - 1) (rng_X w (fz_random fz))
                      ltac:(lia)). lia. }
    destruct (random_range_det (fz_random fz) 0 (to_ulong (arr_length ps - 1)) w Hlive)
      as (w' & E & Hev & HX).
    { fold k. unfold ULONG_MAX, ULONG_BITS. lia. }
    fold k in E. rewrite (bind_eq _ _ _ _ _ E).
    destruct (array_index_in_range ps k) as [v4 Hv4]; [lia|].
    rewrite Hv4. exists w'. auto.
  - pose proof (draw_range_from_zero MAXPORT (rng_X w (fz_random fz))
                  ltac:(unfold MAXPORT; lia)) as Hk.
    destruct (random_range_det (fz_random fz) 0 MAXPORT w Hlive) as (w' & E & Hev & HX).
    { unfold MAXPORT, ULONG_MAX, ULONG_BITS in *. lia. }
    rewrite (bind_eq _ _ _ _ _ E). exists w'. auto.
Qed.

Lemma firstn_6_of_8 (l : list byte) : firstn 6 (firstn 8 l) = firstn 6 l.
Proof. rewrite take_take. reflexivity. Qed.

Lemma buffer_prefix (cs old : list byte) :
  List.length cs = 254%nat ->
  firstn 255 (cs ++ x00 :: skipn 255 old) = cs ++ [x00]
  /\ skipn 255 (cs ++ x00 :: skipn 255 old) = skipn 255 old.
Proof.
  intros H. split.
  - change (cs ++ x00 :: skipn 255 old) with (cs ++ [x00] ++ skipn 255 old).
    rewrite app_assoc. apply take_app_length'. rewrite length_app, H. reflexivity.
  - change (cs ++ x00 :: skipn 255 old) with (cs ++ [x00] ++ skipn 255 old).
    rewrite app_assoc. apply drop_app_length'. rewrite length_app, H. reflexivity.
Qed.

Lemma generate_unfold ports X :
  generate ports X
  = Generated (draw_range 0 (NUM_FUNCS - 1) X)
      (fst (draw_number (drand48_iterate X)))
      (fst (draw_number (snd (draw_number (drand48_iterate X)))))
      (draw_range 1 (MAXSIZE / 4) (snd (draw_number (snd (draw_number (drand48_iterate X))))))
      (draw_port ports
         (drand48_iterate (snd (draw_number (snd (draw_number (drand48_iterate X)))))))
      (fst (draw_chars 254
              (drand48_iterate
                 (drand48_iterate
                    (snd (draw_number (snd (draw_number (drand48_iterate X)))))))))
      (fst (draw_chars 254
              (snd (draw_chars 254
                      (drand48_iterate
                         (drand48_iterate
                            (snd (draw_number (snd (draw_number (drand48_iterate X)))))))))))
      (snd (draw_chars 254
              (snd (draw_chars 254
                      (drand48_iterate
                         (drand48_iterate
                            (snd (draw_number (snd (draw_number (drand48_iterate X))))))))))).
Proof. unfold generate. cbv zeta. reflexivity. Qed.

(** One generation: the tuple and the strings are those generated from the
    state that the generator had, which is the snapshot taken. *)
Lemma _iofuzzer_randomize_det fz w :
  fuzzer_ok fz -> rng_live w (fz_random fz) ->
  exists fz' w',
    _iofuzzer_randomize fz w = Some (fz', w')
    /\ fuzzer_ok fz' /\ same_shape fz fz'
    /\ fz_state fz' = firstn 8 (rng_state w (fz_random fz))
    /\ shows fz' (firstn 8 (rng_state w (fz_random fz)))
    /\ rng_evolves (fz_random fz) w w'
    /\ rng_X w' (fz_random fz) = g_next (generate (fz_ports fz) (rng_X w (fz_random fz)))
    /\ (forall j, j < 0 \/ 4 < j -> variate fz' j = variate fz j)
    /\ skipn 255 (blk_bytes (fz_variate5 fz')) = skipn 255 (blk_bytes (fz_variate5 fz))
    /\ skipn 255 (blk_bytes (fz_variate6 fz')) = skipn 255 (blk_bytes (fz_variate6 fz)).
Proof.
  intros Hwf Hlive. unfold _iofuzzer_randomize.
  pose proof Hwf as (Hst & Hvwf & Hbuf & Hports).
  rewrite (bind_eq _ _ _ _ _ (random_get_state_spec _ _ _ Hlive Hst)).
  cbn [snd].
  assert (EX0 : le_decode (firstn 6 (firstn 8 (rng_state w (fz_random fz))))
                = rng_X w (fz_random fz)).
  { rewrite firstn_6_of_8. reflexivity. }
  set (fz0 := set_fz_state fz (firstn 8 (rng_state w (fz_random fz)))).
  assert (Hwf0 : fuzzer_ok fz0).
  { split; [|split; [exact Hvwf|split; [exact Hbuf|exact Hports]]].
    cbn [fz0 set_fz_state fz_state]. apply firstn_length_le.
    destruct Hlive as (_ & r & Hr & Hl). unfold rng_state. rewrite Hr. exact Hl. }
  assert (Hsh0 : same_shape fz fz0) by (repeat split).
  assert (R0 : fz_random fz0 = fz_random fz) by reflexivity.
  assert (B50 : fz_variate5 fz0 = fz_variate5 fz) by reflexivity.
  assert (B60 : fz_variate6 fz0 = fz_variate6 fz) by reflexivity.
  assert (O00 : forall j, variate fz0 j = variate fz j) by reflexivity.
  assert (S00 : fz_state fz0 = firstn 8 (rng_state w (fz_random fz))) by reflexivity.
  assert (P0 : fz_ports fz0 = fz_ports fz) by reflexivity.
  clearbody fz0.
  remember (fz_random fz) as q eqn:Hq.
  remember (rng_X w q) as X0 eqn:HX0.
  (* slot 0 *)
  change (NUM_FUNCS - 1) with 11. unfold random_number_with_range at 1.
  pose proof (draw_range_from_zero 11 X0 ltac:(lia)) as Hv0.
  destruct (random_range_det q 0 11 w Hlive) as (w1 & E0 & Hev1 & HX1).
  { rewrite <- HX0. unfold ULONG_MAX, ULONG_BITS. lia. }
  rewrite <- HX0 in E0, HX1. rewrite R0.
  rewrite (bind_eq _ _ _ _ _ E0).
  destruct (store_variate_spec fz0 0 (draw_range 0 11 X0) w1 Hwf0) as
    (fz1 & S0 & Hwf1 & Hsh1 & Hst1 & B51 & B61 & G0 & O0); [lia|lia|lia|].
  rewrite (bind_eq _ _ _ _ _ S0).
  pose proof (rng_evolves_live _ _ _ Hlive Hev1) as Hl1.
  assert (R1 : fz_random fz1 = q) by (destruct Hsh1 as (_ & _ & -> & _); exact R0).
  (* slot 1 *)
  rewrite <- R1 in Hl1.
  destruct (_iofuzzer_random_number_det fz1 w1 Hl1) as (w2 & E1 & Hev2 & HX2).
  rewrite R1 in Hl1, Hev2, HX2. rewrite (bind_eq _ _ _ _ _ E1). clear E1.
  rewrite R1. rewrite HX1 in HX2 |- *.
  remember (draw_number (drand48_iterate X0)) as n1 eqn:Hn1.
  destruct (store_variate_spec fz1 1 (fst n1) w2 Hwf1) as
    (fz2 & S1 & Hwf2 & Hsh2 & Hst2 & B52 & B62 & G1 & O1); [lia|lia|lia|].
  rewrite (bind_eq _ _ _ _ _ S1).
  pose proof (rng_evolves_live _ _ _ Hl1 Hev2) as Hl2.
  assert (R2 : fz_random fz2 = q) by (destruct Hsh2 as (_ & _ & -> & _); exact R1).
  (* slot 2 *)
  rewrite <- R2 in Hl2.
  destruct (_iofuzzer_random_number_det fz2 w2 Hl2) as (w3 & E2 & Hev3 & HX3).
  rewrite R2 in Hl2, Hev3, HX3. rewrite (bind_eq _ _ _ _ _ E2). clear E2.
  rewrite R2. rewrite HX2 in HX3 |- *.
  remember (draw_number (snd n1)) as n2 eqn:Hn2.
  destruct (store_variate_spec fz2 2 (fst n2) w3 Hwf2) as
    (fz3 & S2 & Hwf3 & Hsh3 & Hst3 & B53 & B63 & G2 & O2); [lia|lia|lia|].
  rewrite (bind_eq _ _ _ _ _ S2).
  pose proof (rng_evolves_live _ _ _ Hl2 Hev3) as Hl3.
  assert (R3 : fz_random fz3 = q) by (destruct Hsh3 as (_ & _ & -> & _); exact R2).
  (* slot 3 *)
  change (MAXSIZE / 4) with 64. unfold random_number_with_range at 1.
  pose proof (draw_range_from_one 64 16 2 (snd n2) ltac:(lia) ltac:(lia) eq_refl) as Hv3.
  rewrite R3.
  destruct (random_range_det q 1 64 w3 Hl3) as (w4 & E3 & Hev4 & HX4).
  { rewrite HX3. unfold ULONG_MAX, ULONG_BITS. lia. }
  rewrite HX3 in E3, HX4.
  rewrite (bind_eq _ _ _ _ _ E3).
  destruct (store_variate_spec fz3 3 (draw_range 1 64 (snd n2)) w4 Hwf3) as
    (fz4 & S3 & Hwf4 & Hsh4 & Hst4 & B54 & B64 & G3 & O3); [lia|lia|lia|].
  rewrite (bind_eq _ _ _ _ _ S3).
  pose proof (rng_evolves_live _ _ _ Hl3 Hev4) as Hl4.
  assert (R4 : fz_random fz4 = q) by (destruct Hsh4 as (_ & _ & -> & _); exact R3).
  assert (P4 : fz_ports fz4 = fz_ports fz).
  { destruct Hsh4 as (_ & -> & _). destruct Hsh3 as (_ & -> & _).
    destruct Hsh2 as (_ & -> & _). destruct Hsh1 as (_ & -> & _). exact P0. }
  (* slot 4 *)
  rewrite <- R4 in Hl4.
  destruct (randomize_port_det fz4 w4 Hwf4 Hl4) as (w5 & E4 & Hev5 & HX5).
  unfold bind at 1. rewrite E4. clear E4.
  rewrite R4 in Hl4, Hev5, HX5 |- *. rewrite HX4 in HX5 |- *. rewrite P4.
  remember (draw_port (fz_ports fz) (drand48_iterate (snd n2))) as v4 eqn:Hv4.
  destruct (store_variate_spec fz4 4 v4 w5 Hwf4) as
    (fz5 & S4 & Hwf5 & Hsh5 & Hst5 & B55 & B65 & G4 & O4); [lia|lia|lia|].
  rewrite S4. cbv beta iota.
  pose proof (rng_evolves_live _ _ _ Hl4 Hev5) as Hl5.
  assert (R5 : fz_random fz5 = q) by (destruct Hsh5 as (_ & _ & -> & _); exact R4).
  (* slots 5 and 6 *)
  remember (draw_chars 254 (drand48_iterate (drand48_iterate (snd n2)))) as s5 eqn:Hs5.
  assert (Hs5' : s5 = draw_chars 254 (rng_X w5 (fz_random fz5))).
  { rewrite R5, HX5. exact Hs5. }
  rewrite <- R5 in Hl5.
  destruct (randomize_string_det fz5 5 w5 Hwf5 Hl5 ltac:(left; reflexivity) s5 Hs5') as
    (fz6 & w6 & E5 & Hwf6 & Hsh6 & Hst6 & O5 & Hev6 & HX6 & K5 & _).
  rewrite R5 in Hl5, Hev6, HX6. clear Hs5'.
  destruct (K5 eq_refl) as [K55 K56]. clear K5.
  rewrite (bind_eq _ _ _ _ _ E5).
  pose proof (rng_evolves_live _ _ _ Hl5 Hev6) as Hl6.
  assert (R6 : fz_random fz6 = q) by (destruct Hsh6 as (_ & _ & -> & _); exact R5).
  remember (draw_chars 254 (snd s5)) as s6 eqn:Hs6.
  assert (Hs6' : s6 = draw_chars 254 (rng_X w6 (fz_random fz6))).
  { rewrite R6, HX6. exact Hs6. }
  rewrite <- R6 in Hl6.
  destruct (randomize_string_det fz6 6 w6 Hwf6 Hl6 ltac:(right; reflexivity) s6 Hs6') as
    (fz7 & w7 & E6 & Hwf7 & Hsh7 & Hst7 & O6 & Hev7 & HX7 & _ & K6).
  rewrite R6 in Hl6, Hev7, HX7. clear Hs6'.
  destruct (K6 eq_refl) as [K66 K65]. clear K6.
  assert (L5 : List.length (fst s5) = 254%nat) by (rewrite Hs5; apply draw_chars_length).
  assert (L6 : List.length (fst s6) = 254%nat) by (rewrite Hs6; apply draw_chars_length).
  assert (EG : generate (fz_ports fz) X0
               = Generated (draw_range 0 11 X0) (fst n1) (fst n2)
                   (draw_range 1 64 (snd n2)) v4 (fst s5) (fst s6) (snd s6)).
  { rewrite generate_unfold. change (NUM_FUNCS - 1) with 11. change (MAXSIZE / 4) with 64.
    rewrite <- Hn1, <- Hn2, <- Hv4, <- Hs5, <- Hs6. reflexivity. }
  clear Hs5 Hs6 Hn1 Hn2 Hv4.
  assert (P7 : fz_ports fz7 = fz_ports fz).
  { destruct Hsh7 as (_ & -> & _). destruct Hsh6 as (_ & -> & _).
    destruct Hsh5 as (_ & -> & _). exact P4. }
  exists fz7, w7. split; [exact E6|]. split; [exact Hwf7|].
  split.
  { eapply same_shape_trans; [|exact Hsh7]. eapply same_shape_trans; [|exact Hsh6].
    eapply same_shape_trans; [|exact Hsh5]. eapply same_shape_trans; [|exact Hsh4].
    eapply same_shape_trans; [|exact Hsh3]. eapply same_shape_trans; [|exact Hsh2].
    eapply same_shape_trans; [|exact Hsh1]. exact Hsh0. }
  split.
  { rewrite Hst7, Hst6, Hst5, Hst4, Hst3, Hst2, Hst1. exact S00. }
  split.
  { unfold shows. rewrite P7, EX0, EG. cbn [g_func g_a g_b g_count g_port g_si g_di].
    split; [rewrite O6, O5, O4, O3, O2, O1 by lia; exact G0|].
    split; [rewrite O6, O5, O4, O3, O2 by lia; exact G1|].
    split; [rewrite O6, O5, O4, O3 by lia; exact G2|].
    split; [rewrite O6, O5, O4 by lia; exact G3|].
    split; [rewrite O6, O5; exact G4|].
    split.
    - rewrite K65, K55. apply buffer_prefix. exact L5.
    - rewrite K66. apply buffer_prefix. exact L6. }
  split.
  { eapply rng_evolves_trans; [|exact Hev7]. eapply rng_evolves_trans; [|exact Hev6].
    eapply rng_evolves_trans; [|exact Hev5]. eapply rng_evolves_trans; [|exact Hev4].
    eapply rng_evolves_trans; [|exact Hev3]. eapply rng_evolves_trans; [|exact Hev2].
    exact Hev1. }
  split.
  { rewrite HX7, EG. cbn [g_next]. reflexivity. }
  split.
  { intros j Hj. rewrite O6, O5, O4, O3, O2, O1, O0 by lia. apply O00. }
  split.
  - rewrite K65, K55. rewrite (proj2 (buffer_prefix _ _ L5)).
    rewrite B55, B54, B53, B52, B51, B50. reflexivity.
  - rewrite K66. rewrite (proj2 (buffer_prefix _ _ L6)).
    rewrite K56, B65, B64, B63, B62, B61, B60. reflexivity.
Qed.

(** ** The stored snapshot and the tuple shown *)

Lemma _iofuzzer_randomize_consistent_ok fz w fz' w' :
  fuzzer_ok fz -> rng_live w (fz_random fz) ->
  _iofuzzer_randomize fz w = Some (fz', w') -> consistent fz'.
Proof.
  intros Hwf Hlive E.
  destruct (_iofuzzer_randomize_det fz w Hwf Hlive) as (fz1 & w1 & E1 & _ & _ & Hst & Hsh & _).
  rewrite E1 in E. injection E as <- <-. unfold consistent. rewrite Hst. exact Hsh.
Qed.

Lemma _iofuzzer_randomize_consistent fz w fz' w' :
  fuzzer_wf fz -> rng_live w (fz_random fz) ->
  _iofuzzer_randomize fz w = Some (fz', w') -> consistent fz'.
Proof. intros Hwf. apply _iofuzzer_randomize_consistent_ok, fuzzer_wf_ok, Hwf. Qed.

Lemma shows_set_fz_refcount fz rc st : shows fz st -> shows (set_fz_refcount fz rc) st.
Proof. intros H. exact H. Qed.

Lemma random_set_state_live q state size w r w1 :
  rng_live w q -> random_set_state q state size w = Some (r, w1) -> rng_live w1 q.
Proof.
  intros Hlive E. pose proof Hlive as (Hq & rr & Hr & Hlen).
  unfold random_set_state in E. destruct state as [buf|].
  - destruct (q =? NULL) eqn:C; [apply Z.eqb_eq in C; contradiction|].
    unfold bind at 1 in E. rewrite (get_random_eq _ _ _ Hq Hr) in E.
    unfold memcpy in E.
    destruct ((state_copy_length size <=? Z.of_nat (List.length buf))
              && (state_copy_length size <=? Z.of_nat (List.length (rnd_state rr)))) eqn:Cm;
      [|discriminate].
    apply andb_prop in Cm. destruct Cm as [C1 C2]. apply Z.leb_le in C1, C2.
    unfold bind, put_random, ret in E. injection E as <- <-.
    split; [assumption|]. eexists. split; [apply lookup_insert_eq|].
    cbn [rnd_state].
    assert (0 <= state_copy_length size) by (unfold state_copy_length, MINSIZE, MAXSIZE; lia).
    rewrite length_app, length_skipn, firstn_length_le by lia. lia.
  - unfold bind, set_errno, ret in E. injection E as <- <-.
    split; [assumption|]. exists rr. split; assumption.
Qed.

Lemma _iofuzzer_set_state_consistent fz state size w b fz' w' :
  fuzzer_wf fz -> consistent fz -> rng_live w (fz_random fz) ->
  _iofuzzer_set_state fz state size w = Some ((b, fz'), w') -> consistent fz'.
Proof.
  intros Hwf Hc Hlive E. unfold _iofuzzer_set_state in E.
  destruct state as [buf|].
  - apply bind_inv in E. destruct E as (r & w1 & E1 & E).
    pose proof (random_set_state_live _ _ _ _ _ _ Hlive E1) as Hlive1.
    destruct (r =? NULL).
    + unfold ret in E. injection E as <- <- <-. exact Hc.
    + apply bind_inv in E. destruct E as (fz1 & w2 & E2 & E).
      unfold ret in E. injection E as <- <- <-.
      eapply _iofuzzer_randomize_consistent; eassumption.
  - unfold bind, set_errno, ret in E. injection E as <- <- <-. exact Hc.
Qed.

Lemma _iofuzzer_iterate_consistent port_data fz w fz' w' :
  fuzzer_wf fz -> variates_inv fz -> rng_live w (fz_random fz) ->
  _iofuzzer_iterate port_data fz w = Some (fz', w') -> consistent fz'.
Proof.
  intros Hwf Hinv Hlive E.
  destruct (event_of_wf fz Hwf Hinv) as (f & a & b & c & d & Hev & G0 & R0 & G3 & R3).
  set (ev := IoEvent f a b c d (blk_addr (fz_variate5 fz)) (blk_addr (fz_variate6 fz))) in *.
  destruct (_iofuzzer_insn_spec port_data fz w ev Hwf Hinv Hev) as
    (fz1 & E1 & Hwf1 & Hsh1 & Hst1 & Hvs1).
  assert (R1 : fz_random fz1 = fz_random fz) by apply Hsh1.
  assert (Hlive1 : rng_live (issue ev w) (fz_random fz1)) by (rewrite R1; exact Hlive).
  unfold _iofuzzer_iterate in E.
  rewrite (bind_eq _ _ _ _ _ (load_variate_eq fz 0 f w G0)) in E.
  destruct ((0 <=? f) && (f <? NUM_FUNCS)) eqn:C.
  2:{ apply andb_false_iff in C. unfold NUM_FUNCS in C.
      destruct C as [C|C]; [apply Z.leb_gt in C | apply Z.ltb_ge in C]; lia. }
  change f with (io_func ev) in E at 1. rewrite (bind_eq _ _ _ _ _ E1) in E.
  eapply _iofuzzer_randomize_consistent; eassumption.
Qed.

Lemma iofuzzer_new_consistent w fz w' :
  0 < brk w -> iofuzzer_new w = Some (Some fz, w') -> consistent fz.
Proof.
  intros Hb E0. unfold iofuzzer_new in E0.
  rewrite (bind_eq _ _ _ _ _ (calloc_eq 96 w)) in E0. change (Z.max 96 1) with 96 in E0.
  rewrite (bind_eq _ _ _ _ _ (set_errno_eq 0 _)) in E0. cbn [errno randoms brk io_log] in E0.
  set (w1 := World 0 (randoms w) (brk w + 96) (io_log w)) in *.
  destruct (random_new_spec w1) as (w2 & E & Hlive & Hbrk & _); [cbn [w1 brk]; lia|].
  rewrite (bind_eq _ _ _ _ _ E) in E0. cbn [w1 brk] in *.
  destruct (brk w + 96 =? NULL) eqn:C; [apply Z.eqb_eq in C; unfold NULL in C; lia|].
  rewrite (bind_eq _ _ _ _ _ (calloc_eq MAXSIZE w2)) in E0.
  rewrite (bind_eq _ _ _ _ _ (calloc_eq MAXSIZE _)) in E0.
  rewrite (bind_eq _ _ _ _ _ (set_errno_eq 0 _)) in E0.
  cbn [brk errno randoms io_log] in E0. rewrite Hbrk in E0.
  change (Z.max MAXSIZE 1) with 256 in E0.
  rewrite array_new_with_length_variates in E0.
  set (p5 := brk w + 96 + 312) in *. set (p6 := p5 + 256) in *.
  set (w3 := World 0 (randoms w2) (p6 + 256) (io_log w2)) in *.
  rewrite (bind_eq _ _ _ _ _
             (store_variate_fresh _ _ _ _ 5 p5 [0; 0; 0; 0; 0; 0; 0; 0] w3 ltac:(cbn; lia)))
    in E0.
  change (<[Z.to_nat 5:=p5]> [0; 0; 0; 0; 0; 0; 0; 0]) with [0; 0; 0; 0; 0; p5; 0; 0] in E0.
  rewrite (bind_eq _ _ _ _ _
             (store_variate_fresh _ _ _ _ 6 p6 [0; 0; 0; 0; 0; p5; 0; 0] w3 ltac:(cbn; lia)))
    in E0.
  change (<[Z.to_nat 6:=p6]> [0; 0; 0; 0; 0; p5; 0; 0]) with [0; 0; 0; 0; 0; p5; p6; 0] in E0.
  set (fz0 := Fuzzer 0 None (brk w + 96) (repeat x00 8)
                (Block p5 (repeat x00 (Z.to_nat MAXSIZE)))
                (Block p6 (repeat x00 (Z.to_nat MAXSIZE)))
                (Some (Array [0; 0; 0; 0; 0; p5; p6; 0] 1 8 (FP 2 0) 7 64))) in *.
  assert (Hwf0 : fuzzer_wf fz0).
  { split; [reflexivity|]. split; [|split; [|exact I]].
    - eexists. split; [reflexivity|]. repeat split. cbn. lia.
    - unfold buffers_wf. cbn [fz0 fz_variate5 fz_variate6 blk_bytes blk_addr].
      rewrite !repeat_length. unfold p6, p5, MAXSIZE. repeat split; lia. }
  assert (Hlive3 : rng_live w3 (fz_random fz0)) by exact Hlive.
  apply bind_inv in E0. destruct E0 as (fz1 & w4 & E1 & E0).
  pose proof (_iofuzzer_randomize_consistent _ _ _ _ Hwf0 Hlive3 E1) as Hc.
  unfold iofuzzer_ref, bind, ret in E0. cbn [snd] in E0. injection E0 as <- <-.
  apply shows_set_fz_refcount. exact Hc.
Qed.

(** In every reachable state the tuple shown is the one generated from the
    stored snapshot and the port list. *)
Lemma set_ports_consistent_step port_data fz ports w b fz' w' :
  reachable port_data fz -> consistent fz ->
  rng_live w (fz_random fz) -> ports_ok ports ->
  iofuzzer_set_ports (Some fz) ports Other w = Some ((b, Some fz'), w') ->
  consistent fz'.
Proof.
  intros Hr IH Hlive Hok E.
  - destruct (reachable_ok _ _ Hr) as [Hwf Hinv].
    destruct (iofuzzer_set_ports_spec fz ports w Hwf Hlive Hok) as
      (ps & w0 & fz1 & w1 & fz2 & w2 & E0 & _ & G1 & G2 & E1 & _ & _ & _ & _ & _ & _ & _ & Hl0).
    rewrite E1 in E. injection E as <- <- <-.
    destruct (array_ref_ports_ok ports w Hok) as (ps' & w0' & E0' & Hok' & _).
    rewrite E0 in E0'. injection E0' as <- <-.
    assert (Hwfp : fuzzer_wf (set_fz_ports fz ps)).
    { destruct Hwf as (A & B & C & D). split; [exact A|]. split; [exact B|].
      split; [exact C|exact Hok']. }
    assert (HS : List.length (fz_state fz) = 8%nat) by apply Hwf.
    destruct (random_set_state_spec _ (fz_state fz) w0 Hl0 HS) as (_ & Hlr & _).
    destruct (_iofuzzer_randomize_spec (set_fz_ports fz ps) _ Hwfp Hlr) as
      (fz1' & w1' & G1' & Hwf1 & Hsh1 & _ & _ & Hev1).
    change (fz_random (set_fz_ports fz ps)) with (fz_random fz) in G1'.
    rewrite G1 in G1'. injection G1' as <- <-.
    assert (R1 : fz_random fz1 = fz_random fz) by apply Hsh1.
    eapply (_iofuzzer_randomize_consistent fz1 w1); [exact Hwf1| |exact G2].
    rewrite R1. eapply rng_evolves_live; [exact Hlr|exact Hev1].
Qed.

Lemma reachable_consistent port_data fz :
  reachable port_data fz -> consistent fz.
Proof.
  intros Hreach. induction Hreach as
    [ w fz w' Hb E
    | fz w b fz' w' Hr IH E
    | fz w fz' w' Hr IH E
    | fz w b fz' w' Hr IH Hlive E
    | fz state size w b fz' w' Hr IH Hlive E
    | fz state size w b fz' w' Hr IH Hlive E
    | fz random w b fz' w' Hr IH Hlive Hnew Hne E
    | fz ports w b fz' w' Hr IH Hlive Hok E
    | fz given w b fz' w' Hr IH Hlive E0 ].
  9: { destruct (iofuzzer_set_ports_own _ _ _ _ _ E0) as (ports & _ & Hok & _ & _ & E).
       specialize (Hok (proj2 (proj2 (proj2 (proj1 (reachable_ok _ _ Hr)))))).
       clear E0. apply (set_ports_consistent_step port_data fz ports w b fz' w'); assumption. }
  - eapply iofuzzer_new_consistent; eassumption.
  - unfold iofuzzer_ref, ret in E. injection E as <- <- <-.
    apply shows_set_fz_refcount. exact IH.
  - unfold iofuzzer_unref in E.
    destruct (0 <? to_ulong (fz_refcount fz - 1)).
    + unfold ret in E. injection E as <- <-. apply shows_set_fz_refcount. exact IH.
    + apply iofuzzer_free_returns_null in E. discriminate.
  - destruct (reachable_ok _ _ Hr) as [Hwf Hinv].
    unfold iofuzzer_iterate in E. apply bind_inv in E. destruct E as (fz1 & w1 & E1 & E).
    unfold ret in E. injection E as <- <- <-.
    eapply _iofuzzer_iterate_consistent; eassumption.
  - destruct (reachable_ok _ _ Hr) as [Hwf Hinv].
    unfold iofuzzer_iterate_with_state in E.
    apply bind_inv in E. destruct E as ([b1 fz1] & w1 & E1 & E).
    destruct (_iofuzzer_set_state_returns _ _ _ _ _ _ _ Hwf Hinv Hlive E1) as
      (Hwf1 & Hinv1 & Hsh1 & Hlive1).
    pose proof (_iofuzzer_set_state_consistent _ _ _ _ _ _ _ Hwf IH Hlive E1) as Hc1.
    cbn [fst snd] in E. destruct b1.
    + assert (R : fz_random fz1 = fz_random fz) by apply Hsh1. rewrite <- R in Hlive1.
      apply bind_inv in E. destruct E as (fz2 & w2 & E2 & E).
      unfold ret in E. injection E as <- <- <-.
      eapply _iofuzzer_iterate_consistent; eassumption.
    + unfold ret in E. injection E as <- <- <-. exact Hc1.
  - destruct (reachable_ok _ _ Hr) as [Hwf Hinv].
    unfold iofuzzer_set_state in E. destruct state as [buf|].
    + apply bind_inv in E. destruct E as ([b1 fz1] & w1 & E1 & E).
      pose proof (_iofuzzer_set_state_consistent _ _ _ _ _ _ _ Hwf IH Hlive E1) as Hc1.
      cbn [fst snd] in E. unfold ret in E. injection E as <- <- <-. exact Hc1.
    + unfold bind, set_errno, ret in E. injection E as <- <- <-. exact IH.
  - destruct (reachable_ok _ _ Hr) as [Hwf Hinv].
    destruct (iofuzzer_set_random_spec fz random w Hwf Hlive Hnew Hne) as
      (w1 & fz1 & w2 & Hl1 & _ & G1 & E1 & _).
    rewrite E1 in E. injection E as <- <- <-.
    eapply (_iofuzzer_randomize_consistent (set_fz_random fz random)); [| |exact G1].
    + apply fuzzer_wf_set_random. exact Hwf.
    + exact Hl1.
  - apply (set_ports_consistent_step port_data fz ports w b fz' w'); assumption.
Qed.

(** ** The generator object *)

Lemma state_copy_length_range size : 6 <= state_copy_length size <= 256.
Proof. unfold state_copy_length, MINSIZE, MAXSIZE. lia. Qed.

Lemma random_set_state_eq q r S size w :
  q <> NULL -> randoms w !! q = Some r ->
  state_copy_length size <= Z.of_nat (List.length (rnd_state r)) ->
  state_copy_length size <= Z.of_nat (List.length S) ->
  random_set_state q (Some S) size w
  = Some (q, World (errno w)
               (<[q := Random (rnd_refcount r)
                         (firstn (Z.to_nat (state_copy_length size)) S
                            ++ skipn (Z.to_nat (state_copy_length size)) (rnd_state r))]>
                  (randoms w)) (brk w) (io_log w)).
Proof.
  intros Hq Hr Hl HS. pose proof (state_copy_length_range size).
  unfold random_set_state.
  destruct (q =? NULL) eqn:C; [apply Z.eqb_eq in C; contradiction|].
  unfold bind. rewrite (get_random_eq _ _ _ Hq Hr).
  rewrite memcpy_spec by lia. reflexivity.
Qed.

Lemma random_get_state_eq q r buf size w :
  q <> NULL -> randoms w !! q = Some r ->
  state_copy_length size <= Z.of_nat (List.length (rnd_state r)) ->
  state_copy_length size <= Z.of_nat (List.length buf) ->
  random_get_state q (Some buf) size w
  = Some ((q, Some (firstn (Z.to_nat (state_copy_length size)) (rnd_state r)
                      ++ skipn (Z.to_nat (state_copy_length size)) buf)), w).
Proof.
  intros Hq Hr Hl HS. pose proof (state_copy_length_range size).
  unfold random_get_state.
  destruct (q =? NULL) eqn:C; [apply Z.eqb_eq in C; contradiction|].
  unfold bind. rewrite (get_random_eq _ _ _ Hq Hr).
  rewrite memcpy_spec by lia. reflexivity.
Qed.

Lemma random_new_eq w :
  0 < brk w ->
  random_new w
  = Some (brk w, World 0
                   (<[brk w := Random 1 (repeat x00 (Z.to_nat MAXSIZE))]> (randoms w))
                   (brk w + 312) (io_log w)).
Proof.
  intros Hb. unfold random_new, bind, calloc, set_errno, put_random, random_ref.
  cbn [brk errno randoms io_log].
  destruct (brk w =? NULL) eqn:C; [apply Z.eqb_eq in C; unfold NULL in C; lia|].
  unfold bind, get_random, put_random, ret. cbn [brk errno randoms io_log].
  rewrite C, lookup_insert_eq. cbn [rnd_refcount rnd_state brk errno randoms io_log].
  rewrite insert_insert_eq. change (to_ulong (0 + 1)) with 1.
  f_equal. f_equal. f_equal. unfold MAXSIZE. lia.
Qed.

Lemma random_unref_eq q r w :
  q <> NULL -> randoms w !! q = Some r ->
  random_unref q w
  = Some (tt, World (errno w)
                (if 0 <? to_ulong (rnd_refcount r - 1)
                 then <[q := Random (to_ulong (rnd_refcount r - 1)) (rnd_state r)]> (randoms w)
                 else delete q (randoms w))
                (brk w) (io_log w)).
Proof.
  intros Hq Hr. unfold random_unref.
  destruct (q =? NULL) eqn:C; [apply Z.eqb_eq in C; contradiction|].
  unfold bind at 1. rewrite (get_random_eq _ _ _ Hq Hr).
  unfold bind at 1. unfold put_random at 1.
  destruct (0 <? to_ulong (rnd_refcount r - 1)); [reflexivity|].
  unfold random_free. rewrite C.
  unfold bind, get_random, free_random, ret. cbn [randoms errno brk io_log].
  rewrite C, lookup_insert_eq. cbn [randoms errno brk io_log].
  rewrite delete_insert_eq. reflexivity.
Qed.

(** ** Construction and release of a fuzzer *)

Lemma iofuzzer_new_detail w :
  0 < brk w ->
  exists fz w',
    iofuzzer_new w = Some (Some fz, w')
    /\ fuzzer_wf fz /\ variates_inv fz /\ consistent fz
    /\ fz_refcount fz = 1 /\ fz_random fz = brk w + 96 /\ fz_ports fz = None
    /\ errno w' = 0 /\ io_log w' = io_log w
    /\ (forall p, p <> brk w + 96 -> randoms w' !! p = randoms w !! p)
    /\ exists r, randoms w' !! (brk w + 96) = Some r /\ rnd_refcount r = 1
                 /\ List.length (rnd_state r) = 256%nat.
Proof.
  intros Hb. unfold iofuzzer_new.
  rewrite (bind_eq _ _ _ _ _ (calloc_eq 96 w)). change (Z.max 96 1) with 96.
  rewrite (bind_eq _ _ _ _ _ (set_errno_eq 0 _)). cbn [errno randoms brk io_log].
  set (w1 := World 0 (randoms w) (brk w + 96) (io_log w)).
  rewrite (bind_eq _ _ _ _ _ (random_new_eq w1 ltac:(cbn [w1 brk]; lia))).
  cbn [w1 brk errno randoms io_log].
  destruct (brk w + 96 =? NULL) eqn:C; [apply Z.eqb_eq in C; unfold NULL in C; lia|].
  rewrite (bind_eq _ _ _ _ _ (calloc_eq MAXSIZE _)).
  rewrite (bind_eq _ _ _ _ _ (calloc_eq MAXSIZE _)).
  rewrite (bind_eq _ _ _ _ _ (set_errno_eq 0 _)).
  cbn [brk errno randoms io_log]. change (Z.max MAXSIZE 1) with 256.
  rewrite array_new_with_length_variates.
  set (q := brk w + 96).
  set (p5 := q + 312). set (p6 := p5 + 256).
  set (m := <[q := Random 1 (repeat x00 (Z.to_nat MAXSIZE))]> (randoms w)).
  set (w3 := World 0 m (p6 + 256) (io_log w)).
  rewrite (bind_eq _ _ _ _ _
             (store_variate_fresh _ _ _ _ 5 p5 [0; 0; 0; 0; 0; 0; 0; 0] w3 ltac:(cbn; lia))).
  change (<[Z.to_nat 5:=p5]> [0; 0; 0; 0; 0; 0; 0; 0]) with [0; 0; 0; 0; 0; p5; 0; 0].
  rewrite (bind_eq _ _ _ _ _
             (store_variate_fresh _ _ _ _ 6 p6 [0; 0; 0; 0; 0; p5; 0; 0] w3 ltac:(cbn; lia))).
  change (<[Z.to_nat 6:=p6]> [0; 0; 0; 0; 0; p5; 0; 0]) with [0; 0; 0; 0; 0; p5; p6; 0].
  set (fz0 := Fuzzer 0 None q (repeat x00 8)
                (Block p5 (repeat x00 (Z.to_nat MAXSIZE)))
                (Block p6 (repeat x00 (Z.to_nat MAXSIZE)))
                (Some (Array [0; 0; 0; 0; 0; p5; p6; 0] 1 8 (FP 2 0) 7 64))).
  assert (Hwf0 : fuzzer_wf fz0).
  { split; [reflexivity|]. split; [|split; [|exact I]].
    - eexists. split; [reflexivity|]. repeat split. cbn. lia.
    - unfold buffers_wf. cbn [fz0 fz_variate5 fz_variate6 blk_bytes blk_addr].
      rewrite !repeat_length. unfold p6, p5, q, MAXSIZE. repeat split; lia. }
  assert (Hlive3 : rng_live w3 (fz_random fz0)).
  { split; [unfold NULL; cbn [fz0 fz_random]; unfold q; lia|]. eexists.
    split; [apply lookup_insert_eq|]. cbn [rnd_state]. rewrite repeat_length.
    unfold MAXSIZE. lia. }
  destruct (_iofuzzer_randomize_spec fz0 w3 Hwf0 Hlive3) as
    (fz1 & w4 & E1 & Hwf1 & Hsh1 & Hst1 & Hinv1 & Hev1).
  pose proof (_iofuzzer_randomize_consistent _ _ _ _ Hwf0 Hlive3 E1) as Hc1.
  rewrite (bind_eq _ _ _ _ _ E1).
  unfold iofuzzer_ref, bind, ret. cbn [snd].
  eexists. eexists. split; [reflexivity|].
  destruct Hsh1 as (S1 & S2 & S3 & _).
  destruct Hev1 as (V1 & V2 & V3 & V4 & r0 & r1 & Hr0 & Hr1 & Hrc & Hlen & _).
  cbn [fz0 fz_random fz_refcount fz_ports] in *.
  split; [exact Hwf1|]. split; [exact Hinv1|].
  split; [apply shows_set_fz_refcount; exact Hc1|].
  cbn [set_fz_refcount fz_refcount fz_random fz_ports].
  split; [rewrite S1; reflexivity|]. split; [exact S3|]. split; [exact S2|].
  split; [exact V1|]. split; [exact V3|].
  split.
  - intros p Hp. rewrite V4 by exact Hp. cbn [w3 randoms]. unfold m.
    apply lookup_insert_ne. congruence.
  - exists r1. split; [exact Hr1|].
    cbn [w3 randoms] in Hr0. unfold m in Hr0. rewrite lookup_insert_eq in Hr0.
    injection Hr0 as <-. cbn [rnd_refcount rnd_state] in *.
    split; [exact Hrc|]. rewrite Hlen. reflexivity.
Qed.

Lemma iofuzzer_unref_last fz r w :
  fz_refcount fz = 1 -> fz_random fz <> NULL ->
  randoms w !! fz_random fz = Some r -> rnd_refcount r = 1 ->
  iofuzzer_unref (Some fz) w
  = Some (None, World (errno w) (delete (fz_random fz) (randoms w)) (brk w) (io_log w)).
Proof.
  intros Hrc Hq Hr Hr1. unfold iofuzzer_unref. rewrite Hrc.
  change (0 <? to_ulong (1 - 1)) with false. cbv iota.
  unfold iofuzzer_free. cbn [set_fz_refcount fz_ports fz_random fz_variates].
  destruct (array_unref_eq (fz_ports fz) w) as [a1 E1].
  rewrite (bind_eq _ _ _ _ _ E1).
  rewrite (bind_eq _ _ _ _ _ (random_unref_eq _ _ _ Hq Hr)).
  rewrite Hr1. change (0 <? to_ulong (1 - 1)) with false. cbv iota.
  destruct (array_unref_eq (fz_variates fz)
              (World (errno w) (delete (fz_random fz) (randoms w)) (brk w) (io_log w)))
    as [a2 E2].
  rewrite (bind_eq _ _ _ _ _ E2). reflexivity.
Qed.

Lemma delete_fresh (m m' : gmap Z random_t) q :
  m !! q = None -> (forall p, p <> q -> m' !! p = m !! p) -> delete q m' = m.
Proof.
  intros Hq Hp. apply map_eq. intros p. destruct (Z.eq_dec p q) as [->|N].
  - rewrite lookup_delete_eq. symmetry. exact Hq.
  - rewrite lookup_delete_ne by congruence. apply Hp. exact N.
Qed.

(** ** The setters and the tuple they leave *)

Lemma restore_world_other q S w p :
  p <> q -> randoms (restore_world q S w) !! p = randoms w !! p.
Proof.
  intros Hp. unfold restore_world. destruct (randoms w !! q); [|reflexivity].
  cbn [randoms]. apply lookup_insert_ne. congruence.
Qed.

Lemma rng_X_restored q S w :
  firstn 8 (rng_state (restore_world q S w) q) = S ->
  rng_X (restore_world q S w) q = le_decode (firstn 6 S).
Proof. intros H. unfold rng_X. rewrite <- (firstn_6_of_8 (rng_state _ _)), H. reflexivity. Qed.

Lemma _iofuzzer_set_state_det fz S w :
  fuzzer_ok fz -> rng_live w (fz_random fz) -> List.length S = 8%nat ->
  exists fz' w',
    _iofuzzer_set_state fz (Some S) 8 w = Some ((true, fz'), w')
    /\ _iofuzzer_randomize fz (restore_world (fz_random fz) S w) = Some (fz', w')
    /\ fuzzer_ok fz' /\ same_shape fz fz' /\ fz_state fz' = S /\ shows fz' S
    /\ rng_live w' (fz_random fz)
    /\ rng_X w' (fz_random fz) = g_next (generate (fz_ports fz) (le_decode (firstn 6 S)))
    /\ io_log w' = io_log w
    /\ (forall p, p <> fz_random fz -> randoms w' !! p = randoms w !! p)
    /\ (forall j, j < 0 \/ 4 < j -> variate fz' j = variate fz j)
    /\ skipn 255 (blk_bytes (fz_variate5 fz')) = skipn 255 (blk_bytes (fz_variate5 fz))
    /\ skipn 255 (blk_bytes (fz_variate6 fz')) = skipn 255 (blk_bytes (fz_variate6 fz)).
Proof.
  intros Hok Hlive HS.
  destruct (random_set_state_spec _ S w Hlive HS) as (E & Hlive0 & Hs0 & Hlog0).
  destruct (_iofuzzer_randomize_det fz _ Hok Hlive0) as
    (fz' & w' & G & Hok' & Hsh & Hst & Hshow & Hev & HX & Hrest & H5 & H6).
  exists fz', w'. unfold _iofuzzer_set_state. rewrite (bind_eq _ _ _ _ _ E).
  destruct (fz_random fz =? NULL) eqn:C.
  { apply Z.eqb_eq in C. destruct Hlive as [N _]. contradiction. }
  rewrite (bind_eq _ _ _ _ _ G).
  split; [reflexivity|]. split; [exact G|]. split; [exact Hok'|]. split; [exact Hsh|].
  rewrite Hs0 in Hst, Hshow. split; [exact Hst|]. split; [exact Hshow|].
  split; [eapply rng_evolves_live; eassumption|].
  split; [rewrite HX, (rng_X_restored _ _ _ Hs0); reflexivity|].
  destruct Hev as (_ & _ & Hl & Ho & _).
  split; [rewrite Hl; exact Hlog0|].
  split; [intros p Hp; rewrite (Ho p Hp); apply restore_world_other; exact Hp|].
  split; [exact Hrest|]. split; [exact H5|exact H6].
Qed.

Lemma iofuzzer_set_state_shows fz S w :
  fuzzer_wf fz -> rng_live w (fz_random fz) -> List.length S = 8%nat ->
  exists fz' w',
    iofuzzer_set_state (Some fz) (Some S) 8 w = Some ((true, Some fz'), w')
    /\ fuzzer_wf fz' /\ same_shape fz fz' /\ variates_inv fz'
    /\ fz_state fz' = S /\ shows fz' S
    /\ (forall j, j < 0 \/ 4 < j -> variate fz' j = variate fz j)
    /\ skipn 255 (blk_bytes (fz_variate5 fz')) = skipn 255 (blk_bytes (fz_variate5 fz))
    /\ skipn 255 (blk_bytes (fz_variate6 fz')) = skipn 255 (blk_bytes (fz_variate6 fz))
    /\ rng_live w' (fz_random fz) /\ io_log w' = io_log w
    /\ rng_X w' (fz_random fz) = g_next (generate (fz_ports fz) (le_decode (firstn 6 S))).
Proof.
  intros Hwf Hlive HS.
  destruct (_iofuzzer_set_state_spec fz S w Hwf Hlive HS) as
    (fz' & w' & E & G & Hwf' & Hsh & Hst & Hinv & Hev).
  destruct (random_set_state_spec _ S w Hlive HS) as (_ & Hlive0 & Hs0 & Hlog0).
  destruct (_iofuzzer_randomize_det fz _ (fuzzer_wf_ok _ Hwf) Hlive0) as
    (fz1 & w1 & G1 & _ & _ & _ & Hshow & _ & HX & Hrest & H5 & H6).
  rewrite G in G1. injection G1 as <- <-.
  exists fz', w'. unfold iofuzzer_set_state. rewrite (bind_eq _ _ _ _ _ E).
  split; [reflexivity|]. split; [exact Hwf'|]. split; [exact Hsh|]. split; [exact Hinv|].
  split; [exact Hst|]. rewrite Hs0 in Hshow. split; [exact Hshow|].
  split; [exact Hrest|]. split; [exact H5|]. split; [exact H6|].
  split; [eapply rng_evolves_live; eassumption|].
  split; [destruct Hev as (_ & _ & Hl & _); rewrite Hl; exact Hlog0|].
  rewrite HX. unfold rng_X. rewrite <- (firstn_6_of_8 (rng_state _ _)), Hs0. reflexivity.
Qed.

Lemma fresh_fuzzer_reachable : reachable quiet_device fresh_fuzzer.
Proof.
  apply (reach_new quiet_device initial_world fresh_fuzzer fresh_world);
    [reflexivity | exact fresh_fuzzer_eq].
Qed.

Lemma array_ref_readable ports w :
  ports_readable ports ->
  exists ports',
    array_ref ports w
    = Some (ports', match ports with
                    | Some _ => w
                    | None => World EINVAL (randoms w) (brk w) (io_log w)
                    end)
    /\ ports_readable ports'
    /\ option_map arr_data ports' = option_map arr_data ports
    /\ option_map arr_length ports' = option_map arr_length ports.
Proof.
  intros Hok. destruct ports as [ps|].
  - eexists. split; [reflexivity|]. split; [exact Hok|]. split; reflexivity.
  - exists None. split; [reflexivity|]. split; [exact I|]. split; reflexivity.
Qed.

(** [iofuzzer_set_ports] with a list that is not the fuzzer's own: two
    generations, the first from the stored snapshot, both with the new
    list. *)
Lemma iofuzzer_set_ports_det fz ports w :
  fuzzer_ok fz -> rng_live w (fz_random fz) -> ports_readable ports ->
  exists ports' w0 fz1 w1 fz2 w2,
    array_ref ports w = Some (ports', w0)
    /\ _iofuzzer_randomize (set_fz_ports fz ports')
         (restore_world (fz_random fz) (fz_state fz) w0) = Some (fz1, w1)
    /\ _iofuzzer_randomize fz1 w1 = Some (fz2, w2)
    /\ iofuzzer_set_ports (Some fz) ports Other w = Some ((true, Some fz2), w2)
    /\ option_map arr_data ports' = option_map arr_data ports
    /\ option_map arr_length ports' = option_map arr_length ports
    /\ fuzzer_ok fz2 /\ fz_ports fz1 = ports' /\ fz_ports fz2 = ports'
    /\ fz_random fz2 = fz_random fz
    /\ fz_state fz1 = fz_state fz /\ shows fz1 (fz_state fz)
    /\ fz_state fz2 = firstn 8 (rng_state w1 (fz_random fz))
    /\ le_decode (firstn 6 (fz_state fz2))
       = g_next (generate ports' (le_decode (firstn 6 (fz_state fz))))
    /\ shows fz2 (fz_state fz2)
    /\ rng_live w2 (fz_random fz)
    /\ (forall p, p <> fz_random fz -> randoms w2 !! p = randoms w !! p)
    /\ io_log w2 = io_log w.
Proof.
  intros Hok Hlive Hp.
  destruct (array_ref_readable ports w Hp) as (ps & E0 & Hp' & Hd & Hl).
  set (w0 := match ports with
             | Some _ => w
             | None => World EINVAL (randoms w) (brk w) (io_log w)
             end) in *.
  assert (Hr0 : randoms w0 = randoms w) by (unfold w0; destruct ports; reflexivity).
  assert (Hlog0 : io_log w0 = io_log w) by (unfold w0; destruct ports; reflexivity).
  assert (Hokp : fuzzer_ok (set_fz_ports fz ps)).
  { destruct Hok as (A & B & C & D). split; [exact A|]. split; [exact B|].
    split; [exact C|exact Hp']. }
  assert (Hlive0 : rng_live w0 (fz_random fz)).
  { destruct Hlive as (Hq & r & Hr & Hlen). split; [assumption|]. exists r.
    rewrite Hr0. split; assumption. }
  assert (HS : List.length (fz_state fz) = 8%nat) by apply Hok.
  destruct (_iofuzzer_set_state_det (set_fz_ports fz ps) (fz_state fz) w0 Hokp Hlive0 HS)
    as (fz1 & w1 & E1 & G1 & Hok1 & Hsh1 & Hst1 & Hshow1 & Hlive1 & HX1 & Hlog1 & Ho1 & _).
  cbn [set_fz_ports fz_random fz_ports] in Hlive1, HX1, Ho1.
  assert (R1 : fz_random fz1 = fz_random fz) by apply Hsh1.
  assert (P1 : fz_ports fz1 = ps) by apply Hsh1.
  rewrite <- R1 in Hlive1.
  destruct (_iofuzzer_randomize_det fz1 w1 Hok1 Hlive1) as
    (fz2 & w2 & G2 & Hok2 & Hsh2 & Hst2 & Hshow2 & Hev2 & _).
  rewrite R1 in Hlive1, Hst2, Hshow2, Hev2.
  assert (R2 : fz_random fz2 = fz_random fz) by (rewrite <- R1; apply Hsh2).
  assert (P2 : fz_ports fz2 = ps) by (rewrite <- P1; apply Hsh2).
  exists ps, w0, fz1, w1, fz2, w2.
  split; [exact E0|]. split; [exact G1|]. split; [exact G2|].
  split.
  { unfold iofuzzer_set_ports.
    destruct (array_unref_eq (fz_ports fz) w) as [a' Eu].
    rewrite (bind_eq _ _ _ _ _ Eu).
    cbn [array_after_unref]. rewrite ret_bind.
    rewrite (bind_eq _ _ _ _ _ E0).
    change (fz_state (set_fz_ports fz ps)) with (fz_state fz).
    rewrite (bind_eq _ _ _ _ _ E1). cbn [snd].
    rewrite (bind_eq _ _ _ _ _ G2). reflexivity. }
  split; [exact Hd|]. split; [exact Hl|]. split; [exact Hok2|].
  split; [exact P1|]. split; [exact P2|]. split; [exact R2|].
  split; [exact Hst1|]. split; [exact Hshow1|]. split; [exact Hst2|].
  split.
  { rewrite Hst2, firstn_6_of_8. exact HX1. }
  split; [rewrite Hst2; exact Hshow2|].
  split; [eapply rng_evolves_live; eassumption|].
  destruct Hev2 as (_ & _ & Hl2 & Ho2 & _).
  split.
  - intros p Hne. rewrite (Ho2 p Hne), (Ho1 p Hne), Hr0. reflexivity.
  - rewrite Hl2, Hlog1. exact Hlog0.
Qed.


(** * The claims *)

(** ** C2: the invariant of the variate tuple *)

(** C2 (counterexample).  The claim ranges over every public operation.
    [iofuzzer_set_variates] installs the array it is given as it is: after
    construction and one call with a three-element array the variate array
    has length 3.  [iofuzzer_set_ports] installs any list, and the
    generator reads element 0 of the store of an empty one: with the empty
    list [stale_ports], whose store still holds 0x12345, slot 4 is 0x12345.
    The invariant fails in both reachable states. *)
Lemma set_variates_breaks_invariant :
  (exists a fz' w',
     array_new_with_length 8 3 = Some (Some a)
     /\ iofuzzer_set_variates (Some fresh_fuzzer) (Some a) Other fresh_world
        = Some ((true, Some fz'), w')
     /\ option_map arr_length (fz_variates fz') = Some 3
     /\ ~ variates_inv fz')
  /\ (exists fz' w',
        iofuzzer_set_ports (Some fresh_fuzzer) (Some stale_ports) Other fresh_world
        = Some ((true, Some fz'), w')
        /\ array_elements stale_ports = []
        /\ array_index stale_ports 0 = Some 0x12345
        /\ variate fz' 4 = Some 0x12345
        /\ ~ variates_inv fz').
Proof.
  split.
  - eexists. eexists. eexists.
    split; [vm_compute; reflexivity|].
    split; [vm_compute; reflexivity|].
    split; [reflexivity|].
    intros [(vs & Hvs & Hl) _]. cbn [fz_variates] in Hvs.
    injection Hvs as <-. discriminate Hl.
  - eexists. eexists.
    split; [vm_compute; reflexivity|].
    split; [reflexivity|]. split; [reflexivity|].
    split; [reflexivity|].
    intros (_ & _ & _ & v4 & Hv4 & _ & Hle).
    vm_compute in Hv4. injection Hv4 as <-. apply Hle. reflexivity.
Qed.

(** C2 (amended).  In every state reached from construction by the public
    operations other than [iofuzzer_set_variates], each call made while the
    generator of the fuzzer is live, the variate array has length 7, slot 0
    is in [0, 11], slot 3 in [1, 64] and slot 4 in [0, 0xFFFF].  The
    operations are reference counting, iterate, iterate-with-state,
    set-state, set-random with another live generator, and set-ports with
    the fuzzer's own list (where the call has a result), with no list, or
    with another list as in [ports_ok]: fewer than 2^53 entries, all inside
    its store and in [0, 0xFFFF], element 0 of the store counting as an
    entry also when the list is empty. *)
Theorem reachable_variates_invariant port_data fz :
  reachable port_data fz -> variates_inv fz.
Proof. intros H. apply (reachable_ok port_data fz H). Qed.

Lemma reachable_variates_invariant_witness :
  reachable quiet_device iterated_fuzzer /\ variates_inv iterated_fuzzer.
Proof.
  assert (H0 : reachable quiet_device fresh_fuzzer).
  { apply (reach_new quiet_device initial_world fresh_fuzzer fresh_world);
      [reflexivity | vm_compute; reflexivity]. }
  assert (H1 : reachable quiet_device iterated_fuzzer).
  { apply (reach_iterate quiet_device fresh_fuzzer fresh_world true
             iterated_fuzzer iterated_world H0 fresh_world_live).
    vm_compute. reflexivity. }
  split; [exact H1 | exact (reachable_variates_invariant quiet_device iterated_fuzzer H1)].
Defined.

(** ** C1: replay from a logged snapshot *)

(** C1 (counterexample).  On the fresh fuzzer (no port list) and the all-zero
    snapshot, the tuple generated from the snapshot, which is the one
    [iofuzzer_set_state] leaves and a log line would carry, starts with
    selector 0; after [iofuzzer_iterate_with_state] on the same snapshot the
    current tuple is another one, with selector 4. *)
Lemma iterate_with_state_leaves_another_tuple :
  exists fzV wV fz' w',
    iofuzzer_set_state (Some fresh_fuzzer) (Some zero_state) 8 fresh_world
    = Some ((true, Some fzV), wV)
    /\ fz_state fzV = zero_state
    /\ iofuzzer_iterate_with_state quiet_device (Some fresh_fuzzer) (Some zero_state) 8
         fresh_world = Some ((true, Some fz'), w')
    /\ tuple fzV = Some [0; 178803790; 1565954732; 6; 6048; 4504; 4760]
    /\ tuple fz' = Some [4; 1025; 33554433; 26; 47648; 4504; 4760]
    /\ tuple fz' <> tuple fzV.
Proof.
  eexists. eexists. eexists. eexists.
  split; [vm_compute; reflexivity|].
  split; [reflexivity|].
  split; [vm_compute; reflexivity|].
  split; [reflexivity|]. split; [reflexivity|].
  vm_compute. discriminate.
Qed.

(** C1 (amended).  For an eight-byte snapshot [S], [iofuzzer_set_state] leaves
    the tuple [V] generated from [S] and the port list, stored with [S]
    itself.  [iofuzzer_iterate_with_state] on [S] does that and then
    iterates: it issues the instruction of [V] with the operands of [V] and
    replaces [V] by the next generation.  The snapshot stored afterwards is
    the state in which the generation of [V] has left the generator, and
    the tuple left is the one generated from that snapshot and the same
    port list. *)
Theorem iterate_with_state_replays_then_advances port_data fz S w :
  fuzzer_wf fz -> rng_live w (fz_random fz) -> List.length S = 8%nat ->
  exists fzV wV ev fz' w',
    iofuzzer_set_state (Some fz) (Some S) 8 w = Some ((true, Some fzV), wV)
    /\ fz_state fzV = S
    /\ fz_ports fzV = fz_ports fz
    /\ shows fzV S
    /\ event_of fzV = Some ev
    /\ iofuzzer_iterate_with_state port_data (Some fz) (Some S) 8 w
       = Some ((true, Some fz'), w')
    /\ iofuzzer_iterate port_data (Some fzV) wV = Some ((true, Some fz'), w')
    /\ io_log w' = ev :: io_log w
    /\ fz_state fz' = firstn 8 (rng_state wV (fz_random fz))
    /\ le_decode (firstn 6 (fz_state fz'))
       = g_next (generate (fz_ports fz) (le_decode (firstn 6 S)))
    /\ fz_ports fz' = fz_ports fz
    /\ shows fz' (fz_state fz')
    /\ variates_inv fz'.
Proof.
  intros Hwf Hlive HS.
  destruct (_iofuzzer_set_state_spec fz S w Hwf Hlive HS) as
    (fzV & wV & E1 & _ & HwfV & HshV & HstV & HinvV & HevV).
  destruct (_iofuzzer_set_state_det fz S w (fuzzer_wf_ok _ Hwf) Hlive HS) as
    (fzV0 & wV0 & E1' & _ & _ & _ & _ & HshowV & _ & HX & _).
  rewrite E1 in E1'. injection E1' as <- <-.
  assert (R : fz_random fzV = fz_random fz) by apply HshV.
  assert (P : fz_ports fzV = fz_ports fz) by apply HshV.
  destruct (random_set_state_spec _ S w Hlive HS) as (_ & Hlive0 & _ & Hlog0).
  assert (HliveV : rng_live wV (fz_random fzV)).
  { rewrite R. eapply rng_evolves_live; eassumption. }
  destruct (_iofuzzer_iterate_spec port_data fzV wV HwfV HinvV HliveV) as
    (ev & fz' & w' & Hev & E2 & Hwf' & Hinv' & Hsh' & Hst' & Hlog' & _).
  pose proof (_iofuzzer_iterate_consistent port_data fzV wV fz' w' HwfV HinvV HliveV E2)
    as Hc'.
  rewrite R in Hst'.
  exists fzV, wV, ev, fz', w'.
  split; [unfold iofuzzer_set_state; rewrite (bind_eq _ _ _ _ _ E1); reflexivity|].
  split; [exact HstV|]. split; [exact P|]. split; [exact HshowV|]. split; [exact Hev|].
  split; [unfold iofuzzer_iterate_with_state;
          rewrite (bind_eq _ _ _ _ _ E1); cbn [fst snd];
          rewrite (bind_eq _ _ _ _ _ E2); reflexivity|].
  split; [unfold iofuzzer_iterate; rewrite (bind_eq _ _ _ _ _ E2); reflexivity|].
  split; [rewrite Hlog'; f_equal; destruct HevV as (_ & _ & -> & _); exact Hlog0|].
  split; [exact Hst'|].
  split.
  { rewrite Hst', <- HX. unfold rng_X. rewrite firstn_firstn. reflexivity. }
  split; [destruct Hsh' as (_ & -> & _); exact P|].
  split; [exact Hc' | exact Hinv'].
Qed.

Lemma iterate_with_state_replays_then_advances_witness :
  fuzzer_wf fresh_fuzzer /\ rng_live fresh_world (fz_random fresh_fuzzer)
  /\ List.length zero_state = 8%nat
  /\ exists fzV wV ev fz' w',
       iofuzzer_set_state (Some fresh_fuzzer) (Some zero_state) 8 fresh_world
       = Some ((true, Some fzV), wV)
       /\ fz_state fzV = zero_state
       /\ fz_ports fzV = fz_ports fresh_fuzzer
       /\ shows fzV zero_state
       /\ event_of fzV = Some ev
       /\ iofuzzer_iterate_with_state quiet_device (Some fresh_fuzzer) (Some zero_state) 8
            fresh_world = Some ((true, Some fz'), w')
       /\ iofuzzer_iterate quiet_device (Some fzV) wV = Some ((true, Some fz'), w')
       /\ io_log w' = ev :: io_log fresh_world
       /\ fz_state fz' = firstn 8 (rng_state wV (fz_random fresh_fuzzer))
       /\ le_decode (firstn 6 (fz_state fz'))
          = g_next (generate (fz_ports fresh_fuzzer) (le_decode (firstn 6 zero_state)))
       /\ fz_ports fz' = fz_ports fresh_fuzzer
       /\ shows fz' (fz_state fz')
       /\ variates_inv fz'.
Proof.
  split; [exact fresh_fuzzer_wf|]. split; [exact fresh_world_live|].
  split; [reflexivity|].
  exact (iterate_with_state_replays_then_advances quiet_device fresh_fuzzer zero_state
           fresh_world fresh_fuzzer_wf fresh_world_live eq_refl).
Defined.

(** ** C10: what the two setters regenerate *)

Lemma ports_0x80_ok : ports_ok ports_0x80.
Proof.
  split; [cbn; lia|]. split; [cbn; lia|].
  intros k v Hk. assert (k = 0) as -> by (cbn in Hk; lia).
  vm_compute. intros [= <-]. split; discriminate.
Qed.









(** ** C9: reading the snapshot *)

Lemma iofuzzer_get_state_spec fz buf size w :
  List.length (fz_state fz) = 8%nat -> (8 <= List.length buf)%nat ->
  iofuzzer_get_state (Some fz) (Some buf) size w
  = Some ((true, Some (fz_state fz ++ skipn 8 buf)), w).
Proof.
  intros Hst Hbuf. unfold iofuzzer_get_state.
  rewrite memcpy_spec by lia. change (Z.to_nat 8) with 8%nat.
  rewrite firstn_all2 by lia. reflexivity.
Qed.

(** C9.  With a fuzzer and a buffer, [iofuzzer_get_state] copies the eight
    bytes of the stored snapshot to the start of the buffer and nothing
    else, whatever [size] is; it sets no error and changes nothing else.
    (A buffer shorter than eight bytes is overrun: the call is undefined.) *)
Theorem get_state_copies_eight_bytes fz buf size w :
  List.length (fz_state fz) = 8%nat -> (8 <= List.length buf)%nat ->
  iofuzzer_get_state (Some fz) (Some buf) size w
  = Some ((true, Some (fz_state fz ++ skipn 8 buf)), w).
Proof. exact (iofuzzer_get_state_spec fz buf size w). Qed.

Lemma get_state_copies_eight_bytes_witness :
  List.length (fz_state iterated_fuzzer) = 8%nat
  /\ (8 <= List.length (repeat x01 10))%nat
  /\ iofuzzer_get_state (Some iterated_fuzzer) (Some (repeat x01 10)) 3 iterated_world
     = Some ((true, Some (fz_state iterated_fuzzer ++ [x01; x01])), iterated_world).
Proof.
  split; [reflexivity|]. split; [cbn; lia|].
  exact (get_state_copies_eight_bytes iterated_fuzzer (repeat x01 10) 3 iterated_world
           eq_refl ltac:(cbn; lia)).
Defined.

Lemma get_state_overruns_short_buffer fz buf size w :
  List.length (fz_state fz) = 8%nat -> (List.length buf < 8)%nat ->
  iofuzzer_get_state (Some fz) (Some buf) size w = None.
Proof.
  intros Hst Hbuf. unfold iofuzzer_get_state, memcpy.
  destruct (8 <=? Z.of_nat (List.length buf)) eqn:C; [apply Z.leb_le in C; lia|].
  rewrite andb_false_r. reflexivity.
Qed.

(** ** C3: the layout that [random_string] writes *)



Lemma lone_world_live : rng_live lone_world lone_random.
Proof.
  split; [discriminate|]. eexists. split; [vm_compute; reflexivity|].
  apply Nat.leb_le. vm_compute. reflexivity.
Qed.


(** ** C4: the characters that [random_string] draws *)

(** C4 (the code at the failing input).  The index is drawn from
    [[0, sizeof(charset) - 1]], which includes the terminator of the array,
    and the literal holds the percent sign twice: the array has 97 entries,
    entries 5 and 6 are both the percent sign and entry 96 is NUL.  From the
    snapshot [top_state] the first draw is 96, so the first byte of the
    string is NUL, a byte outside the 95 printable characters. *)
Theorem random_string_draws_the_terminator :
  List.length charset = 97%nat
  /\ nth_error charset 5 = Some x25 /\ nth_error charset 6 = Some x25
  /\ nth_error charset 96 = Some x00
  /\ exists w',
       (let* r := random_new_with_state (Some top_state) 8 in
        random_string r (Some small_buffer) 3) initial_world
       = Some (Some [x00; x00; x01; x01], w').
Proof.
  repeat (split; [reflexivity|]).
  eexists. vm_compute. reflexivity.
Qed.

(** ** C5: the port-spec parser *)

(** C5 (the code at the failing input).  Only the high bound of a range is
    compared with [MAXPORT].  A single token above 0xFFFF is appended as it
    is, and a range whose low bound is above 0xFFFF expands to nothing
    because its high bound alone is clamped.  The high bound of a range is
    clamped and ranges expand inclusively. *)
Theorem parse_ports_clamps_only_the_high_bound :
  (exists a w', iofuzzer_parse_ports (Some "0x1FFFF"%string) initial_world = Some (Some a, w')
                /\ array_elements a = [0x1FFFF])
  /\ (exists a w', iofuzzer_parse_ports (Some "0x10000-0x20000"%string) initial_world
                   = Some (Some a, w')
                   /\ array_elements a = [])
  /\ (exists a w', iofuzzer_parse_ports (Some "0xFFFE-0x1FFFF"%string) initial_world
                   = Some (Some a, w')
                   /\ array_elements a = [0xFFFE; 0xFFFF])
  /\ (exists a w', iofuzzer_parse_ports (Some "0x70,0x80-0x82,0x90"%string) initial_world
                   = Some (Some a, w')
                   /\ array_elements a = [0x70; 0x80; 0x81; 0x82; 0x90]).
Proof.
  repeat split; eexists; eexists; (split; [vm_compute; reflexivity | reflexivity]).
Qed.

(** ** C6: the growth of the array *)

(** C6 (the code at the failing input).  [array_new] allocates sixteen
    elements but records a capacity of one element ([array->size = size]),
    and the growth loop multiplies by [growth_factor * m] with [m] counting
    the rounds, that is by 2, 4, 6, ...: for eight-byte elements, setting the
    length of a new array to 13 takes the recorded capacity from 8 bytes
    over 16 and 64 to 384 bytes, that is to 48 elements, and 48 is no power
    of two; sixteen elements would have needed no growth at all. *)
Theorem array_growth_is_not_doubling :
  List.length (arr_data (array_new 8)) = 16%nat
  /\ arr_size (array_new 8) = 8
  /\ _array_grow_loop 64 (FP 2 0) (8 * 13) 1 8 = Some 384
  /\ (exists a, _array_set_length (array_new 8) 13 = Some (Some a)
                /\ arr_length a = 13 /\ arr_size a = 384
                /\ List.length (arr_data a) = 48%nat)
  /\ 2 ^ Z.log2 (384 / 8) <> 384 / 8.
Proof.
  split; [reflexivity|]. split; [reflexivity|]. split; [vm_compute; reflexivity|].
  split; [eexists; split; [vm_compute; reflexivity|repeat split]|].
  vm_compute. discriminate.
Qed.

(** ** C7: the state field of a log line *)

(** C7 (counterexample).  Started with [--state 0x0123456789ABCDEF] and
    [--ports 0x80], one worker, the third field of the first log line is
    [0x123456789abcdef]: ["%#llx"] pads nothing, so the leading zero of the
    claimed literal is not printed.  Started with the default state zero, the
    field is [0], without the prefix. *)
Lemma first_line_state_field_is_not_padded :
  (exists fields w',
     main_first_line quiet_device "0x0123456789ABCDEF" (Some "0x80"%string) 0 initial_world
     = Some (fields, w')
     /\ log_line fields
        = ("0,0,0x123456789abcdef,insl,0xcbebb2c7,0x201,0x2c,0x80,0x12d0,0x13d0"
             ++ newline)%string
     /\ nth_error fields 2 = Some "0x123456789abcdef"%string
     /\ nth_error fields 2 <> Some "0x0123456789abcdef"%string)
  /\ (exists fields w',
        main_first_line quiet_device "0" None 0 initial_world = Some (fields, w')
        /\ nth_error fields 2 = Some "0"%string).
Proof.
  split.
  - eexists. eexists. split; [vm_compute; reflexivity|].
    split; [reflexivity|]. split; [reflexivity|discriminate].
  - eexists. eexists. split; [vm_compute; reflexivity|reflexivity].
Qed.

Lemma log_fields_state now thread_num state vs length fields :
  log_fields now thread_num state vs length = Some fields ->
  nth_error fields 2 = Some (printf_alt_hex (le_decode (firstn 8 state))).
Proof.
  unfold log_fields. destruct (length =? 0); [discriminate|].
  destruct (array_index vs 0) as [v0|]; [|discriminate].
  destruct (nth_error names (Z.to_nat (to_uint v0))) as [name|]; [|discriminate].
  destruct (log_variates vs 1 (Z.to_nat (Z.max 1 (length - 1)))) as [rest|]; [|discriminate].
  intros [= <-]. reflexivity.
Qed.

(** C7 (amended).  The state field of every log line is the eight-byte
    snapshot of the fuzzer read as an unsigned 64-bit little-endian word
    and printed by ["%#llx"]: the digit 0 alone when the word is zero,
    otherwise the prefix [0x] followed by the lower-case hexadecimal digits
    of the word, without padding.  Started with
    [--state 0x0123456789ABCDEF --ports 0x80] and one worker, the third
    field of the first log line is [0x123456789abcdef]. *)
Theorem log_state_field port_data now thread_num fz length w fields fz' w' :
  List.length (fz_state fz) = 8%nat ->
  thread_start_round port_data now thread_num (Some fz) length w = Some ((fields, fz'), w') ->
  nth_error fields 2 = Some (printf_alt_hex (le_decode (fz_state fz)))
  /\ printf_alt_hex (le_decode (fz_state fz))
     = (if le_decode (fz_state fz) =? 0 then "0"%string
        else ("0x" ++ digits 16 (le_decode (fz_state fz)))%string)
  /\ exists first w1,
       main_first_line quiet_device "0x0123456789ABCDEF" (Some "0x80"%string) 0
         initial_world = Some (first, w1)
       /\ nth_error first 2 = Some "0x123456789abcdef"%string.
Proof.
  intros Hst H. split; [|split; [reflexivity|]].
  2:{ eexists. eexists. split; [vm_compute; reflexivity|reflexivity]. }
  unfold thread_start_round in H.
  rewrite (bind_eq _ _ _ _ _
             (iofuzzer_get_state_spec fz (repeat x00 8) 8 w Hst ltac:(cbn; lia))) in H.
  cbn [snd] in H. change (skipn 8 (repeat x00 8)) with (@nil byte) in H.
  rewrite app_nil_r in H.
  apply bind_inv in H. destruct H as (vs & w1 & _ & H).
  destruct vs as [vs|]; [|discriminate].
  destruct (log_fields now thread_num (fz_state fz) vs length) as [fs|] eqn:E; [|discriminate].
  apply bind_inv in H. destruct H as (r & w2 & _ & H).
  unfold ret in H. injection H as <- _ _.
  rewrite (log_fields_state _ _ _ _ _ _ E).
  rewrite firstn_all2 by lia. reflexivity.
Qed.

Lemma log_state_field_witness :
  List.length (fz_state iterated_fuzzer) = 8%nat
  /\ (exists fz' w',
        thread_start_round quiet_device 0 0 (Some iterated_fuzzer) 7 iterated_world
        = Some ((iterated_fields, fz'), w'))
  /\ nth_error iterated_fields 2 = Some "0x34c00563f33d"%string.
Proof.
  assert (H : exists fz' w',
             thread_start_round quiet_device 0 0 (Some iterated_fuzzer) 7 iterated_world
             = Some ((iterated_fields, fz'), w')).
  { eexists. eexists. vm_compute. reflexivity. }
  split; [reflexivity|]. split; [exact H|].
  destruct H as (fz' & w' & H).
  rewrite (proj1 (log_state_field quiet_device 0 0 iterated_fuzzer 7 iterated_world
                    iterated_fields fz' w' eq_refl H)).
  vm_compute. reflexivity.
Defined.

(** ** C8: null arguments *)

(** C8 (counterexample).  [iofuzzer_set_ports] with a null port list on the
    fresh fuzzer does not fail: it returns the fuzzer, which now has no port
    list and whose snapshot and tuple have been regenerated. *)
Lemma set_ports_accepts_null :
  exists fz2 w2,
    iofuzzer_set_ports (Some fresh_fuzzer) None Other fresh_world = Some ((true, Some fz2), w2)
    /\ fz_ports fz2 = None
    /\ fz_state fz2 <> fz_state fresh_fuzzer
    /\ tuple fz2 <> tuple fresh_fuzzer.
Proof.
  eexists. eexists. split; [vm_compute; reflexivity|].
  split; [reflexivity|]. split; vm_compute; discriminate.
Qed.

(** C8 (amended).  Every operation that takes a fuzzer, called with a null
    fuzzer, and get-state, set-state and iterate-with-state called with a
    null state buffer, return NULL with [errno] set to [EINVAL] and have no
    other effect.  [iofuzzer_set_ports] with a null port list on a fuzzer
    succeeds: it removes the port list and regenerates the tuple, whose port
    slot is then drawn from [0, 0xFFFF]. *)
Theorem null_arguments port_data fz state size ports random variates p w :
  fuzzer_wf fz -> rng_live w (fz_random fz) ->
  let failed := World EINVAL (randoms w) (brk w) (io_log w) in
  iofuzzer_get_ports None w = Some (None, failed)
  /\ iofuzzer_get_random None w = Some (NULL, failed)
  /\ iofuzzer_get_state None state size w = Some ((false, state), failed)
  /\ iofuzzer_get_variates None w = Some (None, failed)
  /\ iofuzzer_iterate port_data None w = Some ((false, None), failed)
  /\ iofuzzer_iterate_with_state port_data None state size w = Some ((false, None), failed)
  /\ iofuzzer_ref None w = Some ((false, None), failed)
  /\ iofuzzer_set_ports None ports p w = Some ((false, None), failed)
  /\ iofuzzer_set_random None random w = Some ((false, None), failed)
  /\ iofuzzer_set_state None state size w = Some ((false, None), failed)
  /\ iofuzzer_set_variates None variates p w = Some ((false, None), failed)
  /\ iofuzzer_get_state (Some fz) None size w = Some ((false, None), failed)
  /\ iofuzzer_set_state (Some fz) None size w = Some ((false, Some fz), failed)
  /\ iofuzzer_iterate_with_state port_data (Some fz) None size w
     = Some ((false, Some fz), failed)
  /\ exists fz2 w2,
       iofuzzer_set_ports (Some fz) None Other w = Some ((true, Some fz2), w2)
       /\ fz_ports fz2 = None /\ variates_inv fz2.
Proof.
  intros Hwf Hlive failed.
  repeat (split; [reflexivity|]).
  destruct (iofuzzer_set_ports_spec fz None w Hwf Hlive I) as
    (ps & w0 & fz1 & w1 & fz2 & w2 & E0 & Hp1 & _ & _ & E & _ & _ & _ & Hinv & _ & _ & Hp2 & _).
  exists fz2, w2. split; [exact E|]. split; [|exact Hinv].
  rewrite Hp2, Hp1. unfold array_ref, bind, set_errno, ret in E0.
  injection E0 as <- _. reflexivity.
Qed.

Lemma null_arguments_witness :
  fuzzer_wf fresh_fuzzer /\ rng_live fresh_world (fz_random fresh_fuzzer)
  /\ iofuzzer_set_state (Some fresh_fuzzer) None 8 fresh_world
     = Some ((false, Some fresh_fuzzer),
             World EINVAL (randoms fresh_world) (brk fresh_world) (io_log fresh_world))
  /\ exists fz2 w2,
       iofuzzer_set_ports (Some fresh_fuzzer) None Other fresh_world = Some ((true, Some fz2), w2)
       /\ fz_ports fz2 = None /\ variates_inv fz2.
Proof.
  split; [exact fresh_fuzzer_wf|]. split; [exact fresh_world_live|].
  pose proof (null_arguments quiet_device fresh_fuzzer None 8 None NULL None Own fresh_world
                fresh_fuzzer_wf fresh_world_live) as H.
  cbv zeta in H.
  destruct H as (_ & _ & _ & _ & _ & _ & _ & _ & _ & _ & _ & _ & H1 & _ & H2).
  split; [exact H1 | exact H2].
Defined.

(** * Further properties *)

(** ** The array *)

Lemma three_elements_wf : array_wf three_elements.
Proof. unfold array_wf. cbn. repeat split; try reflexivity; discriminate. Qed.

(** X1 (array_append_vals): on a well-formed array whose new byte size is
    at most 2^24 the call completes, the array stays well formed, its length
    grows by the number of elements given and its elements are the old
    ones followed by the new ones. *)
Theorem array_append_vals_appends a data :
  array_wf a ->
  arr_element_size a * (arr_length a + Z.of_nat (List.length data)) <= 2 ^ 24 ->
  exists a',
    array_append_vals a data = Some a'
    /\ array_wf a'
    /\ arr_length a' = arr_length a + Z.of_nat (List.length data)
    /\ array_elements a' = array_elements a ++ data.
Proof.
  intros Hwf Hsz.
  destruct (array_append_vals_spec a data Hwf Hsz) as (a' & E & Hwf' & Hl & _ & _ & Hel).
  exists a'. auto.
Qed.

Lemma array_append_vals_appends_witness :
  exists a',
    array_append_vals three_elements [40; 50] = Some a'
    /\ array_wf a'
    /\ arr_length a' = arr_length three_elements + Z.of_nat (List.length [40; 50])
    /\ array_elements a' = array_elements three_elements ++ [40; 50].
Proof.
  apply (array_append_vals_appends three_elements [40; 50]).
  - exact three_elements_wf.
  - vm_compute. discriminate.
Defined.

(** X2 (array_insert_vals): with an index below the length the elements
    given are inserted before that index; with any other index, the length
    itself included, the call sets EINVAL, leaves the array as it was and
    still returns it. *)
Theorem array_insert_vals_inserts a index data w :
  array_wf a -> 0 <= index ->
  arr_element_size a * (arr_length a + Z.of_nat (List.length data)) <= 2 ^ 24 ->
  (index < arr_length a ->
   exists a',
     array_insert_vals (Some a) index (Some data) w = Some ((true, Some a'), w)
     /\ array_wf a'
     /\ array_elements a'
        = firstn (Z.to_nat index) (array_elements a) ++ data
            ++ skipn (Z.to_nat index) (array_elements a))
  /\ (arr_length a <= index ->
      array_insert_vals (Some a) index (Some data) w
      = Some ((true, Some a), World EINVAL (randoms w) (brk w) (io_log w))).
Proof.
  intros Hwf Hidx Hsz. split.
  - intros Hlt.
    destruct (array_insert_vals_spec a index data w Hwf ltac:(lia) Hsz)
      as (a' & E & Hwf' & _ & _ & Hel).
    exists a'. auto.
  - intros Hge. unfold array_insert_vals.
    replace (arr_length a <=? index) with true by (symmetry; apply Z.leb_le; exact Hge).
    reflexivity.
Qed.

Lemma array_insert_vals_inserts_witness :
  (exists a',
     array_insert_vals (Some three_elements) 1 (Some [15; 16]) initial_world
     = Some ((true, Some a'), initial_world)
     /\ array_wf a'
     /\ array_elements a' = [10; 15; 16; 20; 30])
  /\ array_insert_vals (Some three_elements) 3 (Some [40]) initial_world
     = Some ((true, Some three_elements), World EINVAL ∅ 4096 []).
Proof.
  split.
  - apply (array_insert_vals_inserts three_elements 1 [15; 16] initial_world).
    + exact three_elements_wf.
    + lia.
    + vm_compute. discriminate.
    + reflexivity.
  - apply (array_insert_vals_inserts three_elements 3 [40] initial_world).
    + exact three_elements_wf.
    + lia.
    + vm_compute. discriminate.
    + vm_compute. discriminate.
Defined.

(** X3 (array_prepend_vals): the elements given are put in front of the
    old ones. *)
Theorem array_prepend_vals_prepends a data w :
  array_wf a ->
  arr_element_size a * (arr_length a + Z.of_nat (List.length data)) <= 2 ^ 24 ->
  exists a',
    array_prepend_vals (Some a) (Some data) w = Some ((true, Some a'), w)
    /\ array_wf a'
    /\ arr_length a' = arr_length a + Z.of_nat (List.length data)
    /\ array_elements a' = data ++ array_elements a.
Proof.
  intros Hwf Hsz.
  destruct (array_prepend_vals_spec a data w Hwf Hsz) as (a' & E & Hwf' & Hl & _ & Hel).
  exists a'. auto.
Qed.

Lemma array_prepend_vals_prepends_witness :
  exists a',
    array_prepend_vals (Some three_elements) (Some [1; 2]) initial_world
    = Some ((true, Some a'), initial_world)
    /\ array_wf a'
    /\ arr_length a' = arr_length three_elements + Z.of_nat (List.length [1; 2])
    /\ array_elements a' = [1; 2] ++ array_elements three_elements.
Proof.
  apply (array_prepend_vals_prepends three_elements [1; 2] initial_world).
  - exact three_elements_wf.
  - vm_compute. discriminate.
Defined.

(** X4 (array_remove_vals): with [index + count] inside the array the
    [count] elements from [index] on are removed and the rest closes up. *)
Theorem array_remove_vals_removes a index count w :
  array_wf a -> 0 <= index < arr_length a -> 0 <= count ->
  index + count <= arr_length a ->
  exists a',
    array_remove_vals (Some a) index count w = Some ((true, Some a'), w)
    /\ array_wf a'
    /\ arr_length a' = arr_length a - count
    /\ array_elements a'
       = firstn (Z.to_nat index) (array_elements a)
           ++ skipn (Z.to_nat (index + count)) (array_elements a).
Proof.
  intros Hwf Hidx Hc Hend.
  destruct (array_remove_vals_spec a index count w Hwf Hidx Hc Hend)
    as (a' & E & Hwf' & Hl & _ & Hel).
  exists a'. auto.
Qed.

Lemma array_remove_vals_removes_witness :
  exists a',
    array_remove_vals (Some three_elements) 0 2 initial_world
    = Some ((true, Some a'), initial_world)
    /\ array_wf a'
    /\ arr_length a' = arr_length three_elements - 2
    /\ array_elements a' = [] ++ [30].
Proof.
  apply (array_remove_vals_removes three_elements 0 2 initial_world).
  - exact three_elements_wf.
  - split; [lia|reflexivity].
  - lia.
  - vm_compute. discriminate.
Defined.



(** X6 (array_remove_val_fast): the element at [index] is overwritten by
    the last one and the length drops by one; the order of the others is
    kept. *)
Theorem array_remove_val_fast_moves_last a index x w :
  array_wf a -> 0 <= index < arr_length a ->
  array_index a (arr_length a - 1) = Some x ->
  exists a',
    array_remove_val_fast (Some a) index w = Some ((true, Some a'), w)
    /\ array_wf a'
    /\ arr_length a' = arr_length a - 1
    /\ array_elements a'
       = firstn (Z.to_nat (arr_length a - 1))
           (<[Z.to_nat index := x]> (array_elements a)).
Proof.
  intros Hwf Hidx Hx.
  destruct (array_remove_val_fast_spec a index x w Hwf Hidx Hx)
    as (a' & E & Hwf' & Hl & _ & Hel).
  exists a'. auto.
Qed.

Lemma array_remove_val_fast_moves_last_witness :
  exists a',
    array_remove_val_fast (Some three_elements) 0 initial_world
    = Some ((true, Some a'), initial_world)
    /\ array_wf a'
    /\ arr_length a' = arr_length three_elements - 1
    /\ array_elements a' = [30; 20].
Proof.
  apply (array_remove_val_fast_moves_last three_elements 0 30 initial_world).
  - exact three_elements_wf.
  - split; [lia|reflexivity].
  - reflexivity.
Defined.

(** X7 (array_insert_vals, array_remove_vals): removing at the index of an
    insertion as many elements as were inserted gives the elements back
    as they were. *)
Theorem array_insert_then_remove a index data w :
  array_wf a -> 0 <= index < arr_length a ->
  arr_element_size a * (arr_length a + Z.of_nat (List.length data)) <= 2 ^ 24 ->
  exists a1 a2,
    array_insert_vals (Some a) index (Some data) w = Some ((true, Some a1), w)
    /\ array_remove_vals (Some a1) index (Z.of_nat (List.length data)) w
       = Some ((true, Some a2), w)
    /\ arr_length a2 = arr_length a
    /\ array_elements a2 = array_elements a.
Proof.
  intros Hwf Hidx Hsz.
  destruct (array_insert_vals_spec a index data w Hwf Hidx Hsz)
    as (a1 & E1 & Hwf1 & Hl1 & _ & Hel1).
  destruct (array_remove_vals_spec a1 index (Z.of_nat (List.length data)) w Hwf1)
    as (a2 & E2 & Hwf2 & Hl2 & _ & Hel2); try lia.
  exists a1, a2. split; [exact E1|]. split; [exact E2|]. split; [lia|].
  pose proof (array_elements_length a Hwf) as HL.
  rewrite Hel2, Hel1.
  rewrite take_app_length' by (rewrite length_take; lia).
  replace (Z.to_nat (index + Z.of_nat (List.length data)))
    with (Z.to_nat index + List.length data)%nat by lia.
  rewrite drop_app_add' by (rewrite length_take; lia).
  rewrite drop_app_length' by reflexivity.
  apply take_drop.
Qed.

Lemma array_insert_then_remove_witness :
  exists a1 a2,
    array_insert_vals (Some three_elements) 1 (Some [15; 16]) initial_world
    = Some ((true, Some a1), initial_world)
    /\ array_remove_vals (Some a1) 1 (Z.of_nat (List.length [15; 16])) initial_world
       = Some ((true, Some a2), initial_world)
    /\ arr_length a2 = arr_length three_elements
    /\ array_elements a2 = array_elements three_elements.
Proof.
  apply (array_insert_then_remove three_elements 1 [15; 16] initial_world).
  - exact three_elements_wf.
  - split; [lia|reflexivity].
  - vm_compute. discriminate.
Defined.

(** X8 (array_set_length): a null array gives EINVAL; on a well-formed
    array a length whose byte size is at most 2^24 is set, and the
    elements below both the old and the new length are kept. *)
Theorem array_set_length_keeps_prefix a length w :
  array_wf a -> 0 <= length -> arr_element_size a * length <= 2 ^ 24 ->
  array_set_length None length w
  = Some ((false, None), World EINVAL (randoms w) (brk w) (io_log w))
  /\ exists a',
       array_set_length (Some a) length w = Some ((true, Some a'), w)
       /\ array_wf a' /\ arr_length a' = length
       /\ firstn (Z.to_nat (Z.min (arr_length a) length)) (array_elements a')
          = firstn (Z.to_nat (Z.min (arr_length a) length)) (array_elements a).
Proof.
  intros Hwf Hl Hsz. split; [reflexivity|].
  pose proof (array_wf_length_in_store a Hwf) as Hin.
  destruct (_array_set_length_spec a length Hwf Hl Hsz)
    as (a' & E & Hwf' & Hl' & _ & _ & Hcap & Hpre).
  exists a'. unfold array_set_length. rewrite E.
  split; [reflexivity|]. split; [exact Hwf'|]. split; [exact Hl'|].
  unfold array_elements. rewrite Hl', !take_take.
  destruct Hwf as (_ & _ & Hl0 & _).
  replace (Z.to_nat (Z.min (arr_length a) length) `min` Z.to_nat length)%nat
    with (Z.to_nat (Z.min (arr_length a) length)) by lia.
  replace (Z.to_nat (Z.min (arr_length a) length) `min` Z.to_nat (arr_length a))%nat
    with (Z.to_nat (Z.min (arr_length a) length)) by lia.
  apply Hpre; lia.
Qed.

Lemma array_set_length_keeps_prefix_witness :
  array_set_length None 40 initial_world
  = Some ((false, None), World EINVAL ∅ 4096 [])
  /\ exists a',
       array_set_length (Some three_elements) 40 initial_world
       = Some ((true, Some a'), initial_world)
       /\ array_wf a' /\ arr_length a' = 40
       /\ firstn 3 (array_elements a') = firstn 3 (array_elements three_elements).
Proof.
  apply (array_set_length_keeps_prefix three_elements 40 initial_world).
  - exact three_elements_wf.
  - lia.
  - vm_compute. discriminate.
Defined.

(** ** The parser and the printed state *)



(** X10 (thread_start, main): the state field of a log line, given back as
    the [--state] argument, is read by [strtoull] without error as the
    word whose eight little-endian bytes are the snapshot that was
    printed. *)
Theorem logged_state_is_read_back st w :
  List.length st = 8%nat ->
  exists v,
    strtoul (printf_alt_hex (le_decode (firstn 8 st))) w = Some (v, w)
    /\ le_encode 8 v = st.
Proof.
  intros Hl. rewrite firstn_all2 by lia. exists (le_decode st).
  pose proof (le_decode_range st) as Hr. rewrite Hl in Hr.
  change (256 ^ Z.of_nat 8) with (2 ^ 64) in Hr.
  split.
  - apply strtoul_printf_alt_hex. unfold ULONG_MAX, ULONG_BITS. lia.
  - rewrite <- Hl. apply le_encode_decode.
Qed.

Lemma logged_state_is_read_back_witness :
  exists v,
    strtoul (printf_alt_hex (le_decode (firstn 8 (fz_state iterated_fuzzer)))) initial_world
    = Some (v, initial_world)
    /\ le_encode 8 v = fz_state iterated_fuzzer.
Proof.
  apply (logged_state_is_read_back (fz_state iterated_fuzzer) initial_world).
  reflexivity.
Defined.

(** ** The generator: values *)

(** X11 (random_ulong): the value is the 32-bit result of [jrand48] sign
    extended to 64 bits: its low 32 bits are the high 32 bits of the new
    48-bit state, and it lies below 2^31 or at 2^64 - 2^31 and above, never
    in between. *)
Theorem random_ulong_sign_extends q w :
  rng_live w q ->
  exists v w',
    random_ulong q w = Some (v, w')
    /\ (0 <= v < 2 ^ 31 \/ 2 ^ 64 - 2 ^ 31 <= v < 2 ^ 64)
    /\ v mod 2 ^ 32 = drand48_iterate (rng_X w q) / 2 ^ 16
    /\ rng_X w' q = drand48_iterate (rng_X w q).
Proof.
  intros Hlive. destruct (random_ulong_det q w Hlive) as (w' & E & _ & HX).
  exists (draw_ulong (rng_X w q)), w'.
  split; [exact E|]. split; [apply draw_ulong_range|]. split; [|exact HX].
  unfold draw_ulong. pose proof (drand48_iterate_range (rng_X w q)) as Hr.
  set (hi := drand48_iterate (rng_X w q) / 2 ^ 16).
  assert (Hhi : 0 <= hi < 2 ^ 32).
  { unfold hi. split; [apply Z.div_pos; lia|]. apply Z.div_lt_upper_bound; lia. }
  destruct (Z.ltb_spec hi (2 ^ 31)) as [Hlt|Hge].
  - rewrite to_ulong_small by (unfold ULONG_MAX, ULONG_BITS; lia).
    apply Z.mod_small. lia.
  - unfold to_ulong, ULONG_BITS.
    replace ((hi - 2 ^ 32) mod 2 ^ 64) with (hi - 2 ^ 32 + 2 ^ 64)
      by (apply (Z.mod_unique _ _ (-1)); lia).
    symmetry. apply (Z.mod_unique _ _ (2 ^ 32 - 1)); lia.
Qed.

Lemma random_ulong_sign_extends_witness :
  exists v w',
    random_ulong lone_random lone_world = Some (v, w')
    /\ (0 <= v < 2 ^ 31 \/ 2 ^ 64 - 2 ^ 31 <= v < 2 ^ 64)
    /\ v mod 2 ^ 32 = drand48_iterate (rng_X lone_world lone_random) / 2 ^ 16
    /\ rng_X w' lone_random = drand48_iterate (rng_X lone_world lone_random).
Proof. apply (random_ulong_sign_extends lone_random lone_world lone_world_live). Defined.

(** X12 (random_ulong_with_range): from a lower bound 0 and an upper bound
    [e] below 2^53 - 1 the value drawn lies in [0, e] and the generator
    takes one step; for the full range, [e = ULONG_MAX], the width
    [e - 0 + 1] wraps to zero and every draw is 0. *)
Theorem random_ulong_with_range_from_zero q e w :
  rng_live w q -> 0 <= e < 2 ^ 53 - 1 ->
  (exists v w',
     random_ulong_with_range q 0 e w = Some (v, w')
     /\ 0 <= v <= e
     /\ rng_X w' q = drand48_iterate (rng_X w q))
  /\ exists w', random_ulong_with_range q 0 ULONG_MAX w = Some (0, w').
Proof.
  intros Hlive He. split.
  - pose proof (draw_range_from_zero e (rng_X w q) He) as Hr.
    destruct (random_range_det q 0 e w Hlive) as (w' & E & _ & HX).
    { unfold ULONG_MAX, ULONG_BITS. lia. }
    exists (draw_range 0 e (rng_X w q)), w'. auto.
  - destruct (random_range_det q 0 ULONG_MAX w Hlive) as (w' & E & _).
    { rewrite draw_range_wrapped. unfold ULONG_MAX, ULONG_BITS. lia. }
    rewrite draw_range_wrapped in E. exists w'. exact E.
Qed.

Lemma random_ulong_with_range_from_zero_witness :
  (exists v w',
     random_ulong_with_range lone_random 0 0xffff lone_world = Some (v, w')
     /\ 0 <= v <= 0xffff
     /\ rng_X w' lone_random = drand48_iterate (rng_X lone_world lone_random))
  /\ exists w', random_ulong_with_range lone_random 0 ULONG_MAX lone_world = Some (0, w').
Proof.
  apply (random_ulong_with_range_from_zero lone_random 0xffff lone_world lone_world_live).
  split; [discriminate|reflexivity].
Defined.

(** X13 (random_fermat_number, random_mersenne_number): the first returns
    [2^n + 1] with [1 <= n <= 31], the second [2^n - 1] with
    [1 <= n <= 32]; each takes one step of the generator. *)
Theorem random_fermat_and_mersenne_numbers q w :
  rng_live w q ->
  (exists n w', random_fermat_number q w = Some (2 ^ n + 1, w')
                /\ 1 <= n <= 31
                /\ rng_X w' q = drand48_iterate (rng_X w q))
  /\ (exists n w', random_mersenne_number q w = Some (2 ^ n - 1, w')
                   /\ 1 <= n <= 32
                   /\ rng_X w' q = drand48_iterate (rng_X w q)).
Proof.
  intros Hlive. split.
  - destruct (random_fermat_number_det q w Hlive) as (w' & E & _ & HX).
    exists (draw_range 1 31 (rng_X w q)), w'. split; [exact E|]. split; [|exact HX].
    apply (draw_range_from_one 31 31 0); [lia|lia|reflexivity].
  - destruct (random_mersenne_number_det q w Hlive) as (w' & E & _ & HX).
    exists (draw_range 1 32 (rng_X w q)), w'. split; [exact E|]. split; [|exact HX].
    apply (draw_range_from_one 32 16 1); [lia|lia|reflexivity].
Qed.

Lemma random_fermat_and_mersenne_numbers_witness :
  (exists n w', random_fermat_number lone_random lone_world = Some (2 ^ n + 1, w')
                /\ 1 <= n <= 31
                /\ rng_X w' lone_random = drand48_iterate (rng_X lone_world lone_random))
  /\ (exists n w', random_mersenne_number lone_random lone_world = Some (2 ^ n - 1, w')
                   /\ 1 <= n <= 32
                   /\ rng_X w' lone_random = drand48_iterate (rng_X lone_world lone_random)).
Proof. apply (random_fermat_and_mersenne_numbers lone_random lone_world lone_world_live). Defined.

(** X14 (_iofuzzer_random_number): the operand drawn is a sign-extended
    32-bit value, a number [2^n + 1] with [1 <= n <= 31] or a number
    [2^n - 1] with [1 <= n <= 32]; the draw takes two steps of the
    generator. *)
Theorem _iofuzzer_random_number_shapes fz w :
  rng_live w (fz_random fz) ->
  exists v w',
    _iofuzzer_random_number fz w = Some (v, w')
    /\ ((0 <= v < 2 ^ 31 \/ 2 ^ 64 - 2 ^ 31 <= v < 2 ^ 64)
        \/ (exists n, 1 <= n <= 31 /\ v = 2 ^ n + 1)
        \/ (exists n, 1 <= n <= 32 /\ v = 2 ^ n - 1))
    /\ rng_X w' (fz_random fz)
       = drand48_iterate (drand48_iterate (rng_X w (fz_random fz))).
Proof.
  intros Hlive.
  destruct (_iofuzzer_random_number_det fz w Hlive) as (w' & E & _ & HX).
  eexists. exists w'. split; [exact E|]. split; [|exact HX].
  unfold draw_number. cbn [fst].
  set (X1 := drand48_iterate (rng_X w (fz_random fz))).
  destruct (draw_range 0 2 (rng_X w (fz_random fz)) =? 0);
    [|destruct (draw_range 0 2 (rng_X w (fz_random fz)) =? 1)].
  - left. apply draw_ulong_range.
  - right. left. exists (draw_range 1 31 X1). split; [|reflexivity].
    apply (draw_range_from_one 31 31 0); [lia|lia|reflexivity].
  - right. right. exists (draw_range 1 32 X1). split; [|reflexivity].
    apply (draw_range_from_one 32 16 1); [lia|lia|reflexivity].
Qed.

Lemma _iofuzzer_random_number_shapes_witness :
  exists v w',
    _iofuzzer_random_number fresh_fuzzer fresh_world = Some (v, w')
    /\ ((0 <= v < 2 ^ 31 \/ 2 ^ 64 - 2 ^ 31 <= v < 2 ^ 64)
        \/ (exists n, 1 <= n <= 31 /\ v = 2 ^ n + 1)
        \/ (exists n, 1 <= n <= 32 /\ v = 2 ^ n - 1))
    /\ rng_X w' (fz_random fresh_fuzzer)
       = drand48_iterate (drand48_iterate (rng_X fresh_world (fz_random fresh_fuzzer))).
Proof. apply (_iofuzzer_random_number_shapes fresh_fuzzer fresh_world fresh_world_live). Defined.

(** ** The generator: state and life time *)

(** X15 (random_set_state, random_get_state): both copy
    [MIN(MAX(size, 6), 256)] bytes, at least 6 and at most 256 whatever
    [size] is; a state set and read back with the same [size] gives that
    many bytes of the state given, followed by the rest of the caller's
    buffer. *)
Theorem random_state_round_trip q r S buf size w :
  q <> NULL -> randoms w !! q = Some r -> List.length (rnd_state r) = 256%nat ->
  state_copy_length size <= Z.of_nat (List.length S) ->
  state_copy_length size <= Z.of_nat (List.length buf) ->
  6 <= state_copy_length size <= 256
  /\ exists w1,
       random_set_state q (Some S) size w = Some (q, w1)
       /\ random_get_state q (Some buf) size w1
          = Some ((q, Some (firstn (Z.to_nat (state_copy_length size)) S
                              ++ skipn (Z.to_nat (state_copy_length size)) buf)), w1).
Proof.
  intros Hq Hr Hl HS Hb. pose proof (state_copy_length_range size) as Hn.
  split; [exact Hn|].
  eexists. split; [apply (random_set_state_eq q r S size w Hq Hr); lia|].
  erewrite random_get_state_eq; [| exact Hq | cbn [randoms]; apply lookup_insert_eq | | exact Hb].
  - cbn [rnd_state]. rewrite take_app_length'; [reflexivity|].
    rewrite length_take. lia.
  - cbn [rnd_state]. rewrite length_app, length_take, length_drop. lia.
Qed.

Lemma random_state_round_trip_witness :
  6 <= state_copy_length 0 <= 256
  /\ exists w1,
       random_set_state lone_random (Some (le_encode 8 0x0123456789ABCDEF)) 0 lone_world
       = Some (lone_random, w1)
       /\ random_get_state lone_random (Some zero_state) 0 w1
          = Some ((lone_random, Some [xef; xcd; xab; x89; x67; x45; x00; x00]), w1).
Proof.
  apply (random_state_round_trip lone_random (Random 1 (repeat x00 256))
           (le_encode 8 0x0123456789ABCDEF) zero_state 0 lone_world).
  - discriminate.
  - vm_compute. reflexivity.
  - reflexivity.
  - vm_compute. discriminate.
  - vm_compute. discriminate.
Defined.

Lemma drop_repeat {A} (x : A) (n m : nat) : skipn n (repeat x m) = repeat x (m - n).
Proof.
  revert m. induction n as [|n IH]; intros [|m]; cbn [repeat skipn Nat.sub]; try reflexivity.
  apply IH.
Qed.

Lemma random_new_with_state_eq S size w :
  0 < brk w -> randoms w !! brk w = None ->
  state_copy_length size <= Z.of_nat (List.length S) ->
  random_new_with_state None size w
  = Some (NULL, World EINVAL (randoms w) (brk w + 312) (io_log w))
  /\ random_new_with_state (Some S) size w
     = Some (brk w,
             World 0
               (<[brk w := Random 1 (firstn (Z.to_nat (state_copy_length size)) S
                                       ++ repeat x00 (256 - Z.to_nat (state_copy_length size)))]>
                  (randoms w))
               (brk w + 312) (io_log w)).
Proof.
  intros Hb Hfree HS. pose proof (state_copy_length_range size) as Hn.
  assert (Hq : brk w <> NULL) by (unfold NULL; lia).
  unfold random_new_with_state. rewrite !(bind_eq _ _ _ _ _ (random_new_eq w Hb)).
  set (r0 := Random 1 (repeat x00 (Z.to_nat MAXSIZE))).
  set (w1 := World 0 (<[brk w := r0]> (randoms w)) (brk w + 312) (io_log w)).
  assert (Hr0 : randoms w1 !! brk w = Some r0) by apply lookup_insert_eq.
  split.
  - unfold random_set_state. unfold bind at 1. unfold bind at 1. cbn [set_errno ret].
    change (NULL =? NULL) with true. cbv iota.
    assert (Hr1 : randoms (World EINVAL (randoms w1) (brk w1) (io_log w1)) !! brk w = Some r0)
      by exact Hr0.
    rewrite (bind_eq _ _ _ _ _ (random_unref_eq _ _ _ Hq Hr1)).
    cbn [w1 r0 errno randoms brk io_log rnd_refcount rnd_state].
    change (0 <? to_ulong (1 - 1)) with false. cbv iota.
    rewrite delete_insert_eq, delete_id by exact Hfree. reflexivity.
  - assert (Hl0 : state_copy_length size <= Z.of_nat (List.length (rnd_state r0))).
    { cbn [r0 rnd_state]. rewrite repeat_length. unfold MAXSIZE. lia. }
    rewrite (bind_eq _ _ _ _ _ (random_set_state_eq _ _ S size _ Hq Hr0 Hl0 HS)).
    destruct (brk w =? NULL) eqn:C; [apply Z.eqb_eq in C; contradiction|].
    cbn [w1 r0 errno randoms brk io_log rnd_refcount rnd_state].
    rewrite insert_insert_eq. unfold ret. do 5 f_equal.
    rewrite drop_repeat. reflexivity.
Qed.

(** X16 (random_new_with_state): with a null state the call fails with
    EINVAL and the generator it had created is released again; with a
    state of at least the copied length it returns a new generator with
    reference count 1 whose 256-byte state starts with the bytes given and
    is zero after them, and [errno] is 0, whatever it was, as the
    initialisation of the mutex has assigned it. *)
Theorem random_new_with_state_result S size w :
  0 < brk w -> randoms w !! brk w = None ->
  state_copy_length size <= Z.of_nat (List.length S) ->
  random_new_with_state None size w
  = Some (NULL, World EINVAL (randoms w) (brk w + 312) (io_log w))
  /\ random_new_with_state (Some S) size w
     = Some (brk w,
             World 0
               (<[brk w := Random 1 (firstn (Z.to_nat (state_copy_length size)) S
                                       ++ repeat x00 (256 - Z.to_nat (state_copy_length size)))]>
                  (randoms w))
               (brk w + 312) (io_log w)).
Proof. apply random_new_with_state_eq. Qed.

Lemma random_new_with_state_result_witness :
  errno failed_world = EINVAL
  /\ random_new_with_state None 8 failed_world
     = Some (NULL, World EINVAL ∅ (4096 + 312) [])
  /\ random_new_with_state (Some zero_state) 8 failed_world
     = Some (4096,
             World 0 (<[4096 := Random 1 (firstn 8 zero_state ++ repeat x00 (256 - 8))]> ∅)
               (4096 + 312) []).
Proof.
  split; [reflexivity|].
  apply (random_new_with_state_result zero_state 8 failed_world).
  - reflexivity.
  - reflexivity.
  - vm_compute. discriminate.
Defined.

(** X17 (random_ref, random_unref): a reference taken and dropped leaves
    the world as it was; dropping the only reference frees the
    generator. *)
Theorem random_ref_unref q r w :
  q <> NULL -> randoms w !! q = Some r -> 0 < rnd_refcount r < ULONG_MAX ->
  (exists w1, random_ref q w = Some (q, w1) /\ random_unref q w1 = Some (tt, w))
  /\ (rnd_refcount r = 1 ->
      random_unref q w
      = Some (tt, World (errno w) (delete q (randoms w)) (brk w) (io_log w))).
Proof.
  intros Hq Hr Hrc. split.
  - unfold random_ref.
    destruct (q =? NULL) eqn:C; [apply Z.eqb_eq in C; contradiction|].
    unfold bind at 1. rewrite (get_random_eq _ _ _ Hq Hr).
    unfold bind, put_random, ret. eexists. split; [reflexivity|].
    erewrite random_unref_eq; [|exact Hq|cbn [randoms]; apply lookup_insert_eq].
    cbn [errno randoms brk io_log rnd_refcount rnd_state].
    rewrite (to_ulong_small (rnd_refcount r + 1)) by lia.
    replace (rnd_refcount r + 1 - 1) with (rnd_refcount r) by lia.
    rewrite to_ulong_small by lia.
    replace (0 <? rnd_refcount r) with true by (symmetry; apply Z.ltb_lt; lia).
    rewrite insert_insert_eq. destruct r as [rc st]. cbn [rnd_refcount rnd_state].
    rewrite insert_id by exact Hr. destruct w. reflexivity.
  - intros H1. rewrite (random_unref_eq _ _ _ Hq Hr), H1. reflexivity.
Qed.

Lemma random_ref_unref_witness :
  (exists w1, random_ref lone_random lone_world = Some (lone_random, w1)
              /\ random_unref lone_random w1 = Some (tt, lone_world))
  /\ (rnd_refcount (Random 1 (repeat x00 256)) = 1 ->
      random_unref lone_random lone_world
      = Some (tt, World (errno lone_world) (delete lone_random (randoms lone_world))
                    (brk lone_world) (io_log lone_world))).
Proof.
  apply (random_ref_unref lone_random (Random 1 (repeat x00 256)) lone_world).
  - discriminate.
  - vm_compute. reflexivity.
  - split; reflexivity.
Defined.

(** ** The fuzzer: what a snapshot determines *)

(** X18 (iofuzzer_set_state): with an eight-byte snapshot [S] the call
    succeeds and stores [S]; the selector, the two operands, the count, the
    port and the two strings it leaves are those that [generate] computes
    from the port list and the first six bytes of [S], whatever the fuzzer
    and its generator held before; the slots 5 and 6 and the bytes of the
    buffers after the strings are left alone, and no instruction is
    issued. *)
Theorem iofuzzer_set_state_is_a_function_of_the_snapshot fz S w :
  fuzzer_wf fz -> rng_live w (fz_random fz) -> List.length S = 8%nat ->
  exists fz' w',
    iofuzzer_set_state (Some fz) (Some S) 8 w = Some ((true, Some fz'), w')
    /\ fz_state fz' = S
    /\ fz_ports fz' = fz_ports fz
    /\ shows fz' S
    /\ variate fz' 5 = variate fz 5 /\ variate fz' 6 = variate fz 6
    /\ skipn 255 (blk_bytes (fz_variate5 fz')) = skipn 255 (blk_bytes (fz_variate5 fz))
    /\ skipn 255 (blk_bytes (fz_variate6 fz')) = skipn 255 (blk_bytes (fz_variate6 fz))
    /\ io_log w' = io_log w.
Proof.
  intros Hwf Hlive HS.
  destruct (iofuzzer_set_state_shows fz S w Hwf Hlive HS) as
    (fz' & w' & E & _ & Hsh & _ & Hst & Hshow & Hrest & H5 & H6 & _ & Hlog & _).
  exists fz', w'. split; [exact E|]. split; [exact Hst|].
  split; [apply Hsh|]. split; [exact Hshow|].
  split; [apply Hrest; lia|]. split; [apply Hrest; lia|]. auto.
Qed.

Lemma iofuzzer_set_state_is_a_function_of_the_snapshot_witness :
  exists fz' w',
    iofuzzer_set_state (Some fresh_fuzzer) (Some top_state) 8 fresh_world
    = Some ((true, Some fz'), w')
    /\ fz_state fz' = top_state
    /\ fz_ports fz' = fz_ports fresh_fuzzer
    /\ shows fz' top_state
    /\ variate fz' 5 = variate fresh_fuzzer 5 /\ variate fz' 6 = variate fresh_fuzzer 6
    /\ skipn 255 (blk_bytes (fz_variate5 fz'))
       = skipn 255 (blk_bytes (fz_variate5 fresh_fuzzer))
    /\ skipn 255 (blk_bytes (fz_variate6 fz'))
       = skipn 255 (blk_bytes (fz_variate6 fresh_fuzzer))
    /\ io_log w' = io_log fresh_world.
Proof.
  apply (iofuzzer_set_state_is_a_function_of_the_snapshot fresh_fuzzer top_state fresh_world).
  - exact fresh_fuzzer_wf.
  - exact fresh_world_live.
  - reflexivity.
Defined.

(** X19 (_iofuzzer_randomize and its callers): in every state reached from
    construction by the public operations other than
    [iofuzzer_set_variates], the tuple and the strings that the fuzzer holds
    are the ones generated from the snapshot it stores and its port list:
    the state field of a log line determines the rest of the line. *)
Theorem reachable_tuple_is_generated_from_the_snapshot port_data fz :
  reachable port_data fz -> shows fz (fz_state fz).
Proof. intros H. exact (reachable_consistent port_data fz H). Qed.

Lemma reachable_tuple_is_generated_from_the_snapshot_witness :
  shows fresh_fuzzer (fz_state fresh_fuzzer).
Proof.
  apply (reachable_tuple_is_generated_from_the_snapshot quiet_device fresh_fuzzer).
  exact fresh_fuzzer_reachable.
Defined.

Lemma block_eq (b b' : block) :
  blk_addr b' = blk_addr b ->
  firstn 255 (blk_bytes b') = firstn 255 (blk_bytes b) ->
  skipn 255 (blk_bytes b') = skipn 255 (blk_bytes b) -> b' = b.
Proof.
  destruct b as [a l], b' as [a' l']. cbn [blk_addr blk_bytes]. intros -> Ht Hd.
  f_equal. rewrite <- (take_drop 255 l'), <- (take_drop 255 l), Ht, Hd. reflexivity.
Qed.

(** X20 (iofuzzer_get_state, iofuzzer_set_state): on a reachable fuzzer,
    reading the snapshot and setting it again changes nothing in the
    fuzzer: the snapshot, every slot of the tuple and both string buffers
    are as before, and no instruction is issued. *)
Theorem get_state_then_set_state_restores port_data fz w :
  reachable port_data fz -> rng_live w (fz_random fz) ->
  exists S fz' w',
    iofuzzer_get_state (Some fz) (Some zero_state) 8 w = Some ((true, Some S), w)
    /\ iofuzzer_set_state (Some fz) (Some S) 8 w = Some ((true, Some fz'), w')
    /\ fz_state fz' = fz_state fz
    /\ (forall j, variate fz' j = variate fz j)
    /\ fz_variate5 fz' = fz_variate5 fz /\ fz_variate6 fz' = fz_variate6 fz
    /\ fz_ports fz' = fz_ports fz /\ fz_random fz' = fz_random fz
    /\ io_log w' = io_log w.
Proof.
  intros Hreach Hlive.
  destruct (reachable_ok _ _ Hreach) as [Hwf Hinv].
  pose proof (reachable_consistent _ _ Hreach) as Hc.
  assert (HS : List.length (fz_state fz) = 8%nat) by apply Hwf.
  destruct (iofuzzer_set_state_shows fz (fz_state fz) w Hwf Hlive HS) as
    (fz' & w' & E & _ & Hsh & _ & Hst & Hshow & Hrest & H5 & H6 & _ & Hlog & _).
  exists (fz_state fz), fz', w'.
  split.
  { rewrite (iofuzzer_get_state_spec fz zero_state 8 w HS) by (cbn; lia).
    change (skipn 8 zero_state) with (@nil byte). rewrite app_nil_r. reflexivity. }
  split; [exact E|]. split; [exact Hst|].
  destruct Hsh as (_ & Hp & Hr & A5 & A6).
  unfold consistent, shows in Hc, Hshow. rewrite Hp in Hshow.
  remember (generate (fz_ports fz) (le_decode (firstn 6 (fz_state fz)))) as g eqn:Hg.
  destruct Hc as (c0 & c1 & c2 & c3 & c4 & c5 & c6).
  destruct Hshow as (s0 & s1 & s2 & s3 & s4 & s5 & s6).
  split.
  { intros j.
    destruct (Z.eq_dec j 0) as [->|N0]; [congruence|].
    destruct (Z.eq_dec j 1) as [->|N1]; [congruence|].
    destruct (Z.eq_dec j 2) as [->|N2]; [congruence|].
    destruct (Z.eq_dec j 3) as [->|N3]; [congruence|].
    destruct (Z.eq_dec j 4) as [->|N4]; [congruence|].
    apply Hrest. lia. }
  split; [apply block_eq; congruence|]. split; [apply block_eq; congruence|].
  auto.
Qed.

Lemma get_state_then_set_state_restores_witness :
  exists S fz' w',
    iofuzzer_get_state (Some fresh_fuzzer) (Some zero_state) 8 fresh_world
    = Some ((true, Some S), fresh_world)
    /\ iofuzzer_set_state (Some fresh_fuzzer) (Some S) 8 fresh_world
       = Some ((true, Some fz'), w')
    /\ fz_state fz' = fz_state fresh_fuzzer
    /\ (forall j, variate fz' j = variate fresh_fuzzer j)
    /\ fz_variate5 fz' = fz_variate5 fresh_fuzzer
    /\ fz_variate6 fz' = fz_variate6 fresh_fuzzer
    /\ fz_ports fz' = fz_ports fresh_fuzzer /\ fz_random fz' = fz_random fresh_fuzzer
    /\ io_log w' = io_log fresh_world.
Proof.
  apply (get_state_then_set_state_restores quiet_device fresh_fuzzer fresh_world).
  - exact fresh_fuzzer_reachable.
  - exact fresh_world_live.
Defined.

(** X21 (iofuzzer_iterate): on a reachable fuzzer whose generator is live
    the call succeeds and issues exactly one instruction, the one of the
    current tuple: its selector is one of the twelve instructions, its
    count lies in [1, 64], its port in [0, 0xFFFF] and its two string
    operands are the fuzzer's own buffers; the fuzzer left is reachable
    with a live generator, so the call can be repeated for ever. *)
Theorem iofuzzer_iterate_issues_one_instruction port_data fz w :
  reachable port_data fz -> rng_live w (fz_random fz) ->
  exists ev fz' w',
    iofuzzer_iterate port_data (Some fz) w = Some ((true, Some fz'), w')
    /\ event_of fz = Some ev
    /\ io_log w' = ev :: io_log w
    /\ 0 <= io_func ev <= 11 /\ 1 <= io_c ev <= 64 /\ 0 <= io_d ev <= 0xFFFF
    /\ io_si ev = blk_addr (fz_variate5 fz) /\ io_di ev = blk_addr (fz_variate6 fz)
    /\ reachable port_data fz' /\ rng_live w' (fz_random fz').
Proof.
  intros Hreach Hlive.
  destruct (reachable_ok _ _ Hreach) as [Hwf Hinv].
  destruct (_iofuzzer_iterate_spec port_data fz w Hwf Hinv Hlive) as
    (ev & fz' & w' & Hev & E & _ & _ & Hsh & _ & Hlog & Hevo).
  assert (Eit : iofuzzer_iterate port_data (Some fz) w = Some ((true, Some fz'), w')).
  { unfold iofuzzer_iterate. rewrite (bind_eq _ _ _ _ _ E). reflexivity. }
  exists ev, fz', w'. split; [exact Eit|]. split; [exact Hev|]. split; [exact Hlog|].
  destruct (event_of_wf fz Hwf Hinv) as (f & a & b & c & d & Hev' & _ & Hf & _ & Hc).
  rewrite Hev in Hev'. injection Hev' as ->.
  destruct Hinv as (_ & _ & _ & v4 & Hv4 & Hr4).
  assert (Hd : d = v4).
  { unfold event_of in Hev. rewrite Hv4 in Hev.
    destruct (variate fz 0), (variate fz 1), (variate fz 2), (variate fz 3),
      (variate fz 5), (variate fz 6); try discriminate.
    injection Hev as _ _ _ _ <- _ _. reflexivity. }
  cbn [io_func io_c io_d io_si io_di]. subst d.
  split; [exact Hf|]. split; [exact Hc|]. split; [exact Hr4|].
  split; [reflexivity|]. split; [reflexivity|].
  split; [exact (reach_iterate port_data fz w true fz' w' Hreach Hlive Eit)|].
  destruct Hsh as (_ & _ & R & _). rewrite R.
  eapply rng_evolves_live; [|exact Hevo]. exact Hlive.
Qed.

Lemma iofuzzer_iterate_issues_one_instruction_witness :
  exists ev fz' w',
    iofuzzer_iterate quiet_device (Some fresh_fuzzer) fresh_world
    = Some ((true, Some fz'), w')
    /\ event_of fresh_fuzzer = Some ev
    /\ io_log w' = ev :: io_log fresh_world
    /\ 0 <= io_func ev <= 11 /\ 1 <= io_c ev <= 64 /\ 0 <= io_d ev <= 0xFFFF
    /\ io_si ev = blk_addr (fz_variate5 fresh_fuzzer)
    /\ io_di ev = blk_addr (fz_variate6 fresh_fuzzer)
    /\ reachable quiet_device fz' /\ rng_live w' (fz_random fz').
Proof.
  apply (iofuzzer_iterate_issues_one_instruction quiet_device fresh_fuzzer fresh_world).
  - exact fresh_fuzzer_reachable.
  - exact fresh_world_live.
Defined.

(** ** The fuzzer: construction, release and the setters *)

(** X22 (iofuzzer_new, iofuzzer_unref, iofuzzer_free): a fuzzer is created
    with reference count 1 and a generator of its own, and [errno] is 0
    after the construction, whatever it was, as the initialisation of the
    mutexes has assigned it; dropping that reference frees the fuzzer and
    releases the generator, so that the generators of the process and the
    log are as before the construction and [errno] is still 0. *)
Theorem iofuzzer_new_then_unref w :
  0 < brk w -> randoms w !! (brk w + 96) = None ->
  exists fz w1,
    iofuzzer_new w = Some (Some fz, w1)
    /\ fz_refcount fz = 1
    /\ errno w1 = 0
    /\ (exists r, randoms w1 !! fz_random fz = Some r /\ rnd_refcount r = 1)
    /\ iofuzzer_unref (Some fz) w1
       = Some (None, World 0 (randoms w) (brk w1) (io_log w)).
Proof.
  intros Hb Hfree.
  destruct (iofuzzer_new_detail w Hb) as
    (fz & w1 & E & _ & _ & _ & Hrc & Hq & _ & Herr & Hlog & Hother & r & Hr & Hr1 & _).
  exists fz, w1. split; [exact E|]. split; [exact Hrc|]. split; [exact Herr|].
  rewrite <- Hq in Hr, Hother, Hfree.
  split; [exists r; auto|].
  rewrite (iofuzzer_unref_last fz r w1 Hrc ltac:(rewrite Hq; unfold NULL; lia) Hr Hr1).
  rewrite Herr, Hlog, (delete_fresh (randoms w) (randoms w1) _ Hfree Hother).
  reflexivity.
Qed.

Lemma iofuzzer_new_then_unref_witness :
  errno failed_world = EINVAL
  /\ exists fz w1,
       iofuzzer_new failed_world = Some (Some fz, w1)
       /\ fz_refcount fz = 1
       /\ errno w1 = 0
       /\ (exists r, randoms w1 !! fz_random fz = Some r /\ rnd_refcount r = 1)
       /\ iofuzzer_unref (Some fz) w1 = Some (None, World 0 ∅ (brk w1) []).
Proof.
  split; [reflexivity|].
  apply (iofuzzer_new_then_unref failed_world); reflexivity.
Defined.

(** X23 (iofuzzer_new_with_state): with a null state the call fails with
    EINVAL and releases the fuzzer it had created together with its
    generator; with an eight-byte snapshot it returns a fuzzer with
    reference count 1 that stores the snapshot and shows the tuple
    generated from it. *)
Theorem iofuzzer_new_with_state_result S w :
  0 < brk w -> randoms w !! (brk w + 96) = None -> List.length S = 8%nat ->
  (exists w', iofuzzer_new_with_state None 8 w = Some (None, w')
              /\ errno w' = EINVAL /\ randoms w' = randoms w /\ io_log w' = io_log w)
  /\ (exists fz w', iofuzzer_new_with_state (Some S) 8 w = Some (Some fz, w')
                    /\ fz_refcount fz = 1 /\ fz_state fz = S /\ shows fz S
                    /\ fuzzer_wf fz /\ variates_inv fz
                    /\ rng_live w' (fz_random fz) /\ io_log w' = io_log w).
Proof.
  intros Hb Hfree HS.
  destruct (iofuzzer_new_detail w Hb) as
    (fz & w1 & E & Hwf & _ & _ & Hrc & Hq & _ & Herr & Hlog & Hother & r & Hr & Hr1 & Hlen).
  rewrite <- Hq in Hr, Hother, Hfree.
  assert (HqN : fz_random fz <> NULL) by (rewrite Hq; unfold NULL; lia).
  unfold iofuzzer_new_with_state. rewrite !(bind_eq _ _ _ _ _ E). split.
  - unfold iofuzzer_set_state. unfold bind at 1. unfold bind at 1. cbn [set_errno ret fst].
    set (w2 := World EINVAL (randoms w1) (brk w1) (io_log w1)).
    assert (Hr2 : randoms w2 !! fz_random fz = Some r) by exact Hr.
    rewrite (bind_eq _ _ _ _ _ (iofuzzer_unref_last fz r w2 Hrc HqN Hr2 Hr1)).
    eexists. split; [reflexivity|]. cbn [w2 errno randoms io_log].
    split; [reflexivity|]. split; [|exact Hlog].
    apply delete_fresh; assumption.
  - assert (Hlive : rng_live w1 (fz_random fz)).
    { split; [exact HqN|]. exists r. split; [exact Hr|]. lia. }
    destruct (iofuzzer_set_state_shows fz S w1 Hwf Hlive HS) as
      (fz' & w' & E' & Hwf' & Hsh & Hinv & Hst & Hshow & _ & _ & _ & Hlive' & Hlog' & _).
    rewrite (bind_eq _ _ _ _ _ E'). cbn [fst snd].
    exists fz', w'. split; [reflexivity|].
    destruct Hsh as (Hrc' & _ & Hr' & _).
    split; [congruence|]. split; [exact Hst|]. split; [exact Hshow|].
    split; [exact Hwf'|]. split; [exact Hinv|].
    split; [rewrite Hr'; exact Hlive'|congruence].
Qed.

Lemma iofuzzer_new_with_state_result_witness :
  (exists w', iofuzzer_new_with_state None 8 initial_world = Some (None, w')
              /\ errno w' = EINVAL /\ randoms w' = ∅ /\ io_log w' = [])
  /\ (exists fz w', iofuzzer_new_with_state (Some top_state) 8 initial_world
                    = Some (Some fz, w')
                    /\ fz_refcount fz = 1 /\ fz_state fz = top_state /\ shows fz top_state
                    /\ fuzzer_wf fz /\ variates_inv fz
                    /\ rng_live w' (fz_random fz) /\ io_log w' = []).
Proof.
  apply (iofuzzer_new_with_state_result top_state initial_world); reflexivity.
Defined.

Lemma iofuzzer_set_ports_consistent fz ports w :
  fuzzer_wf fz -> rng_live w (fz_random fz) -> ports_ok ports ->
  exists ports' w0 fz2 w2,
    array_ref ports w = Some (ports', w0)
    /\ iofuzzer_set_ports (Some fz) ports Other w = Some ((true, Some fz2), w2)
    /\ fz_ports fz2 = ports' /\ consistent fz2.
Proof.
  intros Hwf Hlive Hok.
  destruct (iofuzzer_set_ports_spec fz ports w Hwf Hlive Hok) as
    (ps & w0 & fz1 & w1 & fz2 & w2 & E0 & Hp1 & G1 & G2 & E1 & _ & _ & _ & _ & _ & _ & Hp2 & Hl0).
  destruct (array_ref_ports_ok ports w Hok) as (ps' & w0' & E0' & Hok' & _).
  rewrite E0 in E0'. injection E0' as <- <-.
  assert (Hwfp : fuzzer_wf (set_fz_ports fz ps)).
  { destruct Hwf as (A & B & C & D). split; [exact A|]. split; [exact B|].
    split; [exact C|exact Hok']. }
  assert (HS : List.length (fz_state fz) = 8%nat) by apply Hwf.
  destruct (random_set_state_spec _ (fz_state fz) w0 Hl0 HS) as (_ & Hlr & _).
  destruct (_iofuzzer_randomize_spec (set_fz_ports fz ps) _ Hwfp Hlr) as
    (fz1' & w1' & G1' & Hwf1 & Hsh1 & _ & _ & Hev1).
  change (fz_random (set_fz_ports fz ps)) with (fz_random fz) in G1'.
  rewrite G1 in G1'. injection G1' as <- <-.
  assert (R1 : fz_random fz1 = fz_random fz) by apply Hsh1.
  exists ps, w0, fz2, w2. split; [exact E0|]. split; [exact E1|].
  split; [congruence|].
  eapply (_iofuzzer_randomize_consistent fz1 w1); [exact Hwf1| |exact G2].
  rewrite R1. eapply rng_evolves_live; [exact Hlr|exact Hev1].
Qed.

(** X24 (iofuzzer_set_ports, _iofuzzer_randomize): with a port list of
    length 0, other than the fuzzer's own, the bound [length - 1] of the
    index wraps around to [ULONG_MAX], the index drawn is always 0, and the
    port of the tuple is the value stored in element 0 of the backing
    store, which lies outside the list, whatever that value is: it need
    not be a 16-bit port. *)
Theorem iofuzzer_set_ports_with_an_empty_list fz ps p w :
  fuzzer_wf fz -> rng_live w (fz_random fz) ->
  arr_length ps = 0 -> array_index ps 0 = Some p ->
  exists fz' w',
    iofuzzer_set_ports (Some fz) (Some ps) Other w = Some ((true, Some fz'), w')
    /\ option_map array_elements (fz_ports fz') = Some []
    /\ variate fz' 4 = Some p.
Proof.
  intros Hwf Hlive Hl Hp.
  assert (Hr : ports_readable (Some ps)).
  { cbn [ports_readable]. rewrite Hl. split; [lia|].
    unfold array_index in Hp. change (0 <=? 0) with true in Hp. cbv iota in Hp.
    apply lookup_lt_Some in Hp. change (Z.to_nat 0) with 0%nat in Hp. lia. }
  destruct (iofuzzer_set_ports_det fz (Some ps) w (fuzzer_wf_ok _ Hwf) Hlive Hr) as
    (ps' & w0 & fz1 & w1 & fz2 & w2 & E0 & _ & _ & E & _ & _ & _ & _ & Hp2 & _ & _ & _ & _
     & _ & Hc & _).
  exists fz2, w2. split; [exact E|].
  cbn [array_ref] in E0. unfold ret in E0. injection E0 as <- _.
  rewrite Hp2. split.
  { cbn [option_map]. unfold array_elements. cbn [arr_length arr_data]. rewrite Hl.
    reflexivity. }
  destruct Hc as (_ & _ & _ & _ & H4 & _). rewrite H4, Hp2, generate_unfold.
  cbn [g_port draw_port arr_length]. rewrite Hl.
  change (to_ulong (0 - 1)) with ULONG_MAX. rewrite draw_range_wrapped.
  unfold array_index in Hp |- *. cbn [arr_data]. rewrite Hp. reflexivity.
Qed.

Lemma iofuzzer_set_ports_with_an_empty_list_witness :
  arr_length stale_ports = 0 /\ array_index stale_ports 0 = Some 0x12345
  /\ exists fz' w',
       iofuzzer_set_ports (Some fresh_fuzzer) (Some stale_ports) Other fresh_world
       = Some ((true, Some fz'), w')
       /\ option_map array_elements (fz_ports fz') = Some []
       /\ variate fz' 4 = Some 0x12345.
Proof.
  split; [reflexivity|]. split; [reflexivity|].
  apply (iofuzzer_set_ports_with_an_empty_list fresh_fuzzer stale_ports 0x12345 fresh_world).
  - exact fresh_fuzzer_wf.
  - exact fresh_world_live.
  - reflexivity.
  - reflexivity.
Defined.

(** X29 (iofuzzer_set_ports, array_unref): handed the list that the fuzzer
    holds, [iofuzzer_set_ports] releases it before it stores the pointer
    and takes its reference.  While another reference is held the list
    survives with its count as before and the call is the one on that
    list; when the fuzzer holds the last reference the list is freed and
    then used, and the call has no defined result. *)
Theorem iofuzzer_set_ports_with_its_own_list fz o w :
  fz_ports fz = Some o ->
  (0 < to_ulong (arr_refcount o - 1) ->
   iofuzzer_set_ports (Some fz) (Some o) Own w
   = iofuzzer_set_ports (Some fz)
       (Some (Array (arr_data o) (to_ulong (arr_refcount o - 1)) (arr_element_size o)
                (arr_growth_factor o) (arr_length o) (arr_size o))) Other w)
  /\ (arr_refcount o = 1 -> iofuzzer_set_ports (Some fz) (Some o) Own w = None).
Proof.
  intros Ho. unfold iofuzzer_set_ports. rewrite Ho. cbn [array_unref]. split.
  - intros Hrc. apply Z.ltb_lt in Hrc. rewrite Hrc, !ret_bind.
    cbn [array_after_unref]. rewrite !ret_bind. reflexivity.
  - intros ->. change (0 <? to_ulong (1 - 1)) with false. cbv iota.
    rewrite !ret_bind. cbn [array_after_unref]. reflexivity.
Qed.

Lemma iofuzzer_set_ports_with_its_own_list_witness :
  fz_ports owner_fuzzer = Some owner_ports
  /\ arr_refcount owner_ports = 1
  /\ iofuzzer_set_ports (Some owner_fuzzer) (Some owner_ports) Own owner_world = None
  /\ fz_ports ported_fuzzer = Some ported_ports
  /\ 0 < to_ulong (arr_refcount ported_ports - 1)
  /\ exists fz' w',
       iofuzzer_set_ports (Some ported_fuzzer) (Some ported_ports) Own ported_world
       = Some ((true, Some fz'), w')
       /\ option_map arr_refcount (fz_ports fz') = Some (arr_refcount ported_ports).
Proof.
  split; [reflexivity|]. split; [reflexivity|].
  split; [exact (proj2 (iofuzzer_set_ports_with_its_own_list owner_fuzzer owner_ports
                          owner_world eq_refl) eq_refl)|].
  split; [reflexivity|].
  assert (Hrc : 0 < to_ulong (arr_refcount ported_ports - 1)) by reflexivity.
  split; [exact Hrc|].
  rewrite (proj1 (iofuzzer_set_ports_with_its_own_list ported_fuzzer ported_ports
                    ported_world eq_refl) Hrc).
  eexists. eexists. split; [vm_compute; reflexivity|]. reflexivity.
Defined.



(** ** The worker *)

Lemma byte_val_of_Z z : byte_val (byte_of_Z z) = z mod 256.
Proof.
  unfold byte_val, byte_of_Z.
  assert (Hm : 0 <= z mod 256 < 256) by (apply Z.mod_pos_bound; lia).
  destruct (Byte.of_N (Z.to_N (z mod 256))) as [b|] eqn:Hb.
  - apply Byte.to_of_N in Hb. rewrite Hb, Z2N.id by lia. reflexivity.
  - apply Byte.of_N_None_iff in Hb. lia.
Qed.

Lemma le_decode_take_encode n m z :
  le_decode (firstn n (le_encode (n + m) z)) = z mod 256 ^ Z.of_nat n.
Proof.
  revert z. induction n as [|n IH]; intros z.
  - cbn [firstn le_decode]. change (256 ^ Z.of_nat 0) with 1. rewrite Z.mod_1_r. reflexivity.
  - cbn [Nat.add le_encode firstn le_decode]. rewrite IH, byte_val_of_Z.
    rewrite Nat2Z.inj_succ, Z.pow_succ_r by lia.
    rewrite Z.rem_mul_r; [reflexivity|lia|]. apply Z.pow_pos_nonneg; lia.
Qed.

Lemma log_variates_six vs a b c d si di :
  array_index vs 1 = Some a -> array_index vs 2 = Some b -> array_index vs 3 = Some c ->
  array_index vs 4 = Some d -> array_index vs 5 = Some si -> array_index vs 6 = Some di ->
  log_variates vs 1 6
  = Some [printf_alt_hex (to_uint a); printf_alt_hex (to_uint b); printf_alt_hex (to_uint c);
          printf_alt_hex (to_uint d); printf_alt_hex (to_uint si); printf_alt_hex (to_uint di)].
Proof.
  intros H1 H2 H3 H4 H5 H6. cbn [log_variates]. change (1 + 1) with 2.
  change (2 + 1) with 3. change (3 + 1) with 4. change (4 + 1) with 5. change (5 + 1) with 6.
  rewrite H1, H2, H3, H4, H5, H6. reflexivity.
Qed.

Lemma names_lookup f : 0 <= f <= 11 -> exists name, nth_error names (Z.to_nat f) = Some name.
Proof.
  intros Hf. destruct (nth_error names (Z.to_nat f)) as [name|] eqn:E; [eauto|].
  apply nth_error_None in E. change (List.length names) with 12%nat in E. lia.
Qed.

Lemma thread_start_round_spec port_data now thread_num fz w :
  fuzzer_wf fz -> variates_inv fz -> rng_live w (fz_random fz) ->
  exists f a b c d name fz' w',
    event_of fz
    = Some (IoEvent f a b c d (blk_addr (fz_variate5 fz)) (blk_addr (fz_variate6 fz)))
    /\ nth_error names (Z.to_nat f) = Some name
    /\ thread_start_round port_data now thread_num (Some fz) 7 w
       = Some (([printf_d now; printf_d thread_num;
                 printf_alt_hex (le_decode (fz_state fz)); name;
                 printf_alt_hex (to_uint a); printf_alt_hex (to_uint b);
                 printf_alt_hex (to_uint c); printf_alt_hex (to_uint d);
                 printf_alt_hex (to_uint (blk_addr (fz_variate5 fz)));
                 printf_alt_hex (to_uint (blk_addr (fz_variate6 fz)))], Some fz'), w')
    /\ iofuzzer_iterate port_data (Some fz) w = Some ((true, Some fz'), w').
Proof.
  intros Hwf Hinv Hlive.
  destruct (event_of_wf fz Hwf Hinv) as (f & a & b & c & d & Hev & H0 & Hf & H3 & Hc).
  destruct (names_lookup f Hf) as [name Hname].
  destruct (_iofuzzer_iterate_spec port_data fz w Hwf Hinv Hlive) as
    (ev & fz' & w' & _ & E & _).
  assert (Eit : iofuzzer_iterate port_data (Some fz) w = Some ((true, Some fz'), w')).
  { unfold iofuzzer_iterate. rewrite (bind_eq _ _ _ _ _ E). reflexivity. }
  exists f, a, b, c, d, name, fz', w'.
  split; [exact Hev|]. split; [exact Hname|]. split; [|exact Eit].
  assert (HS : List.length (fz_state fz) = 8%nat) by apply Hwf.
  unfold thread_start_round.
  rewrite (bind_eq _ _ _ _ _ (iofuzzer_get_state_spec fz (repeat x00 8) 8 w HS ltac:(cbn; lia))).
  cbn [snd]. change (skipn 8 (repeat x00 8)) with (@nil byte). rewrite app_nil_r.
  unfold iofuzzer_get_variates. unfold bind at 1. unfold ret at 1.
  unfold event_of, variate in Hev, H0.
  destruct (fz_variates fz) as [vs|]; [|discriminate].
  destruct (array_index vs 0) as [v0|] eqn:V0; [|discriminate].
  destruct (array_index vs 1) as [v1|] eqn:V1; [|discriminate].
  destruct (array_index vs 2) as [v2|] eqn:V2; [|discriminate].
  destruct (array_index vs 3) as [v3|] eqn:V3; [|discriminate].
  destruct (array_index vs 4) as [v4|] eqn:V4; [|discriminate].
  destruct (array_index vs 5) as [v5|] eqn:V5; [|discriminate].
  destruct (array_index vs 6) as [v6|] eqn:V6; [|discriminate].
  injection Hev as -> -> -> -> -> -> ->.
  unfold log_fields. change (7 =? 0) with false. cbv iota.
  change (Z.max 1 (7 - 1)) with 6. change (Z.to_nat 6) with 6%nat.
  rewrite V0, (log_variates_six vs a b c d _ _ V1 V2 V3 V4 V5 V6).
  replace (to_uint f) with f by (unfold to_uint; rewrite Z.mod_small; lia).
  rewrite Hname, firstn_all2 by lia.
  rewrite (bind_eq _ _ _ _ _ Eit). reflexivity.
Qed.

(** X26 (thread_start): one round of the worker on a reachable fuzzer
    with a live generator completes.  The line written has ten fields:
    the time, the thread number, the snapshot as a 64-bit word, the name of
    the instruction selected, and the six other slots of the tuple each
    cut to its low 32 bits, the two buffer addresses included; the round
    then issues the instruction of that very tuple and leaves a reachable
    fuzzer. *)
Theorem thread_start_round_writes_the_current_tuple port_data now thread_num fz w :
  reachable port_data fz -> rng_live w (fz_random fz) ->
  exists ev name fz' w',
    event_of fz = Some ev
    /\ nth_error names (Z.to_nat (io_func ev)) = Some name
    /\ thread_start_round port_data now thread_num (Some fz) 7 w
       = Some (([printf_d now; printf_d thread_num;
                 printf_alt_hex (le_decode (fz_state fz)); name;
                 printf_alt_hex (io_a ev mod 2 ^ 32); printf_alt_hex (io_b ev mod 2 ^ 32);
                 printf_alt_hex (io_c ev mod 2 ^ 32); printf_alt_hex (io_d ev mod 2 ^ 32);
                 printf_alt_hex (io_si ev mod 2 ^ 32);
                 printf_alt_hex (io_di ev mod 2 ^ 32)], Some fz'), w')
    /\ io_log w' = ev :: io_log w
    /\ reachable port_data fz'.
Proof.
  intros Hreach Hlive.
  destruct (reachable_ok _ _ Hreach) as [Hwf Hinv].
  destruct (thread_start_round_spec port_data now thread_num fz w Hwf Hinv Hlive) as
    (f & a & b & c & d & name & fz' & w' & Hev & Hname & E & Eit).
  destruct (_iofuzzer_iterate_spec port_data fz w Hwf Hinv Hlive) as
    (ev & fz1 & w1 & Hev1 & E1 & _ & _ & _ & _ & Hlog & _).
  assert (Eit1 : iofuzzer_iterate port_data (Some fz) w = Some ((true, Some fz1), w1)).
  { unfold iofuzzer_iterate. rewrite (bind_eq _ _ _ _ _ E1). reflexivity. }
  rewrite Eit in Eit1. injection Eit1 as <- <-.
  rewrite Hev in Hev1. injection Hev1 as <-.
  eexists. exists name, fz', w'. split; [exact Hev|].
  cbn [io_func io_a io_b io_c io_d io_si io_di].
  split; [exact Hname|]. split; [exact E|]. split; [exact Hlog|].
  exact (reach_iterate port_data fz w true fz' w' Hreach Hlive Eit).
Qed.

Lemma thread_start_round_writes_the_current_tuple_witness :
  exists ev name fz' w',
    event_of fresh_fuzzer = Some ev
    /\ nth_error names (Z.to_nat (io_func ev)) = Some name
    /\ thread_start_round quiet_device 0 0 (Some fresh_fuzzer) 7 fresh_world
       = Some (([printf_d 0; printf_d 0;
                 printf_alt_hex (le_decode (fz_state fresh_fuzzer)); name;
                 printf_alt_hex (io_a ev mod 2 ^ 32); printf_alt_hex (io_b ev mod 2 ^ 32);
                 printf_alt_hex (io_c ev mod 2 ^ 32); printf_alt_hex (io_d ev mod 2 ^ 32);
                 printf_alt_hex (io_si ev mod 2 ^ 32);
                 printf_alt_hex (io_di ev mod 2 ^ 32)], Some fz'), w')
    /\ io_log w' = ev :: io_log fresh_world
    /\ reachable quiet_device fz'.
Proof.
  apply (thread_start_round_writes_the_current_tuple quiet_device 0 0 fresh_fuzzer fresh_world).
  - exact fresh_fuzzer_reachable.
  - exact fresh_world_live.
Defined.

(** ** The main program without a port list *)

Lemma iofuzzer_set_ports_none fz w :
  fuzzer_wf fz -> rng_live w (fz_random fz) ->
  exists fz2 w2,
    iofuzzer_set_ports (Some fz) None Other w = Some ((true, Some fz2), w2)
    /\ fuzzer_wf fz2 /\ variates_inv fz2 /\ fz_ports fz2 = None
    /\ fz_random fz2 = fz_random fz /\ rng_live w2 (fz_random fz)
    /\ (forall p, p <> fz_random fz -> randoms w2 !! p = randoms w !! p).
Proof.
  intros Hwf Hlive.
  destruct (iofuzzer_set_ports_spec fz None w Hwf Hlive I) as
    (ps & w0 & fz1 & w1 & fz2 & w2 & E0 & Hp1 & G1 & G2 & E1 & _ & _ & Hwf2 & Hinv2 & R2
     & Hlive2 & Hp2 & Hl0).
  cbn [array_ref] in E0. unfold bind, set_errno, ret in E0. injection E0 as <- <-.
  assert (Hwfp : fuzzer_wf (set_fz_ports fz None)).
  { destruct Hwf as (A & B & C & D). split; [exact A|]. split; [exact B|].
    split; [exact C|exact I]. }
  assert (HS : List.length (fz_state fz) = 8%nat) by apply Hwf.
  set (w0 := World EINVAL (randoms w) (brk w) (io_log w)) in *.
  destruct (random_set_state_spec _ (fz_state fz) w0 Hl0 HS) as (_ & Hlr & _).
  destruct (_iofuzzer_randomize_spec (set_fz_ports fz None) _ Hwfp Hlr) as
    (fz1' & w1' & G1' & Hwf1 & Hsh1 & _ & _ & Hev1).
  change (fz_random (set_fz_ports fz None)) with (fz_random fz) in G1'.
  rewrite G1 in G1'. injection G1' as <- <-.
  assert (R1 : fz_random fz1 = fz_random fz) by apply Hsh1.
  assert (Hlive1 : rng_live w1 (fz_random fz1)).
  { rewrite R1. eapply rng_evolves_live; [exact Hlr|exact Hev1]. }
  destruct (_iofuzzer_randomize_spec fz1 w1 Hwf1 Hlive1) as
    (fz2' & w2' & G2' & _ & _ & _ & _ & Hev2).
  rewrite G2 in G2'. injection G2' as <- <-.
  exists fz2, w2. split; [exact E1|]. split; [exact Hwf2|]. split; [exact Hinv2|].
  split; [congruence|]. split; [exact R2|]. split; [exact Hlive2|].
  intros p Hp.
  destruct Hev2 as (_ & _ & _ & O2 & _). destruct Hev1 as (_ & _ & _ & O1 & _).
  rewrite O2 by congruence. change (fz_random (set_fz_ports fz None)) with (fz_random fz) in O1.
  rewrite O1 by congruence.
  unfold restore_world. destruct (randoms w0 !! fz_random fz); [|reflexivity].
  cbn [randoms]. rewrite lookup_insert_ne by congruence. reflexivity.
Qed.

Lemma thread_start_setup_default q r w :
  0 < brk w -> q <> NULL -> q <> brk w + 96 ->
  randoms w !! q = Some r -> (8 <= List.length (rnd_state r))%nat ->
  exists fz w',
    thread_start_setup None q w = Some (Some fz, w')
    /\ fuzzer_wf fz /\ variates_inv fz /\ fz_ports fz = None /\ fz_random fz = q
    /\ fz_state fz = firstn 8 (rnd_state r) /\ shows fz (firstn 8 (rnd_state r))
    /\ rng_live w' q.
Proof.
  intros Hb Hq Hne Hr Hlen.
  destruct (iofuzzer_new_detail w Hb) as
    (fz0 & w0 & E0 & Hwf0 & _ & _ & _ & Hq0 & _ & _ & _ & Hother0 & r0 & Hr0 & _ & Hlen0).
  rewrite <- Hq0 in Hr0, Hother0, Hne.
  assert (Hq0N : fz_random fz0 <> NULL) by (rewrite Hq0; unfold NULL; lia).
  unfold thread_start_setup. rewrite (bind_eq _ _ _ _ _ E0).
  unfold iofuzzer_parse_ports. unfold bind at 1. unfold bind at 1. cbn [set_errno ret].
  set (w1 := World EINVAL (randoms w0) (brk w0) (io_log w0)).
  assert (Hlive1 : rng_live w1 (fz_random fz0)).
  { split; [exact Hq0N|]. exists r0. split; [exact Hr0|]. lia. }
  destruct (iofuzzer_set_ports_none fz0 w1 Hwf0 Hlive1) as
    (fz2 & w2 & E2 & Hwf2 & Hinv2 & Hp2 & R2 & Hlive2 & Hother2).
  rewrite (bind_eq _ _ _ _ _ E2). cbn [snd].
  unfold iofuzzer_get_ports. unfold bind at 1. unfold ret at 1. rewrite Hp2.
  unfold array_unref. unfold bind at 1. unfold ret at 1.
  assert (Hr2 : randoms w2 !! q = Some r).
  { rewrite Hother2 by exact Hne. cbn [w1 randoms]. rewrite Hother0 by exact Hne. exact Hr. }
  assert (Hliveq : rng_live w2 q).
  { split; [exact Hq|]. exists r. split; [exact Hr2|exact Hlen]. }
  assert (Hwf2' : fuzzer_wf (set_fz_ports fz2 None)).
  { destruct Hwf2 as (A & B & C & D). split; [exact A|]. split; [exact B|].
    split; [exact C|exact I]. }
  destruct (iofuzzer_set_random_spec (set_fz_ports fz2 None) q w2 Hwf2') as
    (w3 & fz' & w' & Hlive3 & Hs3 & G & E & Hwf' & Hinv' & Hst' & R' & Hlive').
  { cbn [set_fz_ports fz_random]. rewrite R2. exact Hlive2. }
  { exact Hliveq. }
  { cbn [set_fz_ports fz_random]. rewrite R2. exact Hne. }
  rewrite (bind_eq _ _ _ _ _ E). cbn [snd].
  exists fz', w'. split; [reflexivity|]. split; [exact Hwf'|]. split; [exact Hinv'|].
  destruct (_iofuzzer_randomize_det (set_fz_random (set_fz_ports fz2 None) q) w3
              (fuzzer_wf_set_random _ q Hwf2') Hlive3) as
    (fz1 & w1' & G' & _ & Hsh & _ & Hshow & _).
  rewrite G in G'. injection G' as <- <-.
  assert (Hst : rng_state w2 q = rnd_state r) by (unfold rng_state; rewrite Hr2; reflexivity).
  cbn [set_fz_random fz_random] in Hshow. rewrite Hs3, Hst in Hshow. rewrite Hst in Hst'.
  split; [apply Hsh|]. split; [exact R'|]. split; [exact Hst'|]. split; [exact Hshow|].
  exact Hlive'.
Qed.

(** X27 (main, thread_start): started with [--state] given as printed by
    ["%#llx"] and without [--ports], the program writes a first line that
    is a function of that state alone: its state field is the argument
    itself, and the instruction, the two operands, the count and the port
    are those generated from the low 48 bits of the state with a port
    drawn from [0, 0xFFFF]. *)
Theorem first_line_is_generated_from_the_state_argument port_data v now :
  0 <= v <= ULONG_MAX ->
  exists g name p5 p6 w',
    g = generate None (v mod 2 ^ 48)
    /\ nth_error names (Z.to_nat (g_func g)) = Some name
    /\ main_first_line port_data (printf_alt_hex v) None now initial_world
       = Some ([printf_d now; printf_d 0; printf_alt_hex v; name;
                printf_alt_hex (g_a g mod 2 ^ 32); printf_alt_hex (g_b g mod 2 ^ 32);
                printf_alt_hex (g_count g mod 2 ^ 32); printf_alt_hex (g_port g mod 2 ^ 32);
                printf_alt_hex p5; printf_alt_hex p6], w').
Proof.
  intros Hv.
  destruct (random_new_with_state_eq (le_encode 8 v) 8 initial_world) as [_ E1];
    [reflexivity|reflexivity|rewrite le_encode_length; vm_compute; discriminate|].
  change (brk initial_world) with 4096 in E1.
  change (Z.to_nat (state_copy_length 8)) with 8%nat in E1.
  set (r := Random 1 (firstn 8 (le_encode 8 v) ++ repeat x00 (256 - 8))) in E1.
  set (w1 := World 0 (<[4096 := r]> (randoms initial_world)) (4096 + 312)
               (io_log initial_world)) in E1.
  assert (Hst : firstn 8 (rnd_state r) = le_encode 8 v).
  { cbn [r rnd_state]. rewrite take_app_length' by (rewrite length_take, le_encode_length; lia).
    apply firstn_all2. rewrite le_encode_length. lia. }
  destruct (thread_start_setup_default 4096 r w1) as
    (fz & w2 & E2 & Hwf & Hinv & Hp & Hq & Hs & Hshow & Hlive).
  { reflexivity. }
  { discriminate. }
  { discriminate. }
  { apply lookup_insert_eq. }
  { cbn [r rnd_state]. rewrite length_app, length_take, le_encode_length, repeat_length. lia. }
  clearbody w1 r.
  pose proof Hinv as ((vs & Hvs & Hl7) & _).
  rewrite <- Hq in Hlive.
  destruct (thread_start_round_spec port_data now 0 fz w2 Hwf Hinv Hlive) as
    (f & a & b & c & d & name & fz' & w' & Hev & Hname & E & _).
  rewrite Hs, Hst in E. rewrite Hst in Hshow.
  assert (HX : le_decode (firstn 6 (le_encode 8 v)) = v mod 2 ^ 48).
  { exact (le_decode_take_encode 6 2 v). }
  assert (Hd : le_decode (le_encode 8 v) = v).
  { apply le_decode_encode. change (256 ^ Z.of_nat 8) with (2 ^ 64).
    unfold ULONG_MAX, ULONG_BITS in Hv. lia. }
  rewrite Hd in E.
  unfold shows in Hshow. rewrite Hp, HX in Hshow.
  remember (generate None (v mod 2 ^ 48)) as g eqn:Hg.
  destruct Hshow as (s0 & s1 & s2 & s3 & s4 & _).
  unfold event_of in Hev. rewrite s0, s1, s2, s3, s4 in Hev.
  destruct (variate fz 5), (variate fz 6); try discriminate.
  injection Hev as <- <- <- <- <- _ _.
  exists g, name, (to_uint (blk_addr (fz_variate5 fz))), (to_uint (blk_addr (fz_variate6 fz))), w'.
  split; [reflexivity|]. split; [exact Hname|].
  unfold main_first_line.
  rewrite (bind_eq _ _ _ _ _ (strtoul_printf_alt_hex v initial_world Hv)).
  rewrite (bind_eq _ _ _ _ _ E1).
  change (4096 =? NULL) with false. cbv iota.
  rewrite (bind_eq _ _ _ _ _ E2).
  unfold iofuzzer_get_variates. unfold bind at 1. unfold ret at 1. rewrite Hvs.
  unfold array_get_length. unfold bind at 1. unfold ret at 1. rewrite Hl7.
  rewrite (bind_eq _ _ _ _ _ E). reflexivity.
Qed.

Lemma first_line_is_generated_from_the_state_argument_witness :
  exists g name p5 p6 w',
    g = generate None (0x0123456789ABCDEF mod 2 ^ 48)
    /\ nth_error names (Z.to_nat (g_func g)) = Some name
    /\ main_first_line quiet_device (printf_alt_hex 0x0123456789ABCDEF) None 0 initial_world
       = Some ([printf_d 0; printf_d 0; printf_alt_hex 0x0123456789ABCDEF; name;
                printf_alt_hex (g_a g mod 2 ^ 32); printf_alt_hex (g_b g mod 2 ^ 32);
                printf_alt_hex (g_count g mod 2 ^ 32); printf_alt_hex (g_port g mod 2 ^ 32);
                printf_alt_hex p5; printf_alt_hex p6], w').
Proof.
  apply (first_line_is_generated_from_the_state_argument quiet_device 0x0123456789ABCDEF 0).
  split; [discriminate|]. vm_compute. discriminate.
Defined.

(** ** The port of the tuple *)

Lemma g_port_generate ports X :
  g_port (generate ports X)
  = draw_port ports
      (drand48_iterate (snd (draw_number (snd (draw_number (drand48_iterate X)))))).
Proof. rewrite generate_unfold. reflexivity. Qed.

Lemma draw_port_in_list ps X :
  ports_ok (Some ps) -> 0 < arr_length ps -> In (draw_port (Some ps) X) (array_elements ps).
Proof.
  intros (Hl & Hcap & _) Hlen. unfold draw_port.
  rewrite to_ulong_small by (unfold ULONG_MAX, ULONG_BITS; lia).
  pose proof (draw_range_from_zero (arr_length ps - 1) X ltac:(lia)) as Hk.
  remember (draw_range 0 (arr_length ps - 1) X) as k eqn:Ek. clear Ek.
  unfold array_index.
  replace (0 <=? k) with true by (symmetry; apply Z.leb_le; lia).
  destruct (arr_data ps !! Z.to_nat k) as [p|] eqn:E.
  - unfold array_elements.
    apply list_elem_of_In, (list_elem_of_lookup_2 _ (Z.to_nat k)).
    rewrite lookup_take_lt by lia. exact E.
  - apply lookup_ge_None in E. lia.
Qed.

(** X28 (_iofuzzer_randomize and its callers): in every reachable state
    whose port list is not empty, the port of the tuple is one of the
    elements of the list. *)
Theorem reachable_port_is_in_the_list port_data fz ps :
  reachable port_data fz -> fz_ports fz = Some ps -> 0 < arr_length ps ->
  exists p, variate fz 4 = Some p /\ In p (array_elements ps).
Proof.
  intros Hreach Hps Hlen.
  destruct (reachable_ok _ _ Hreach) as [(_ & _ & _ & Hok) _].
  pose proof (reachable_consistent _ _ Hreach) as (_ & _ & _ & _ & H4 & _).
  rewrite Hps in Hok, H4.
  eexists. split; [exact H4|].
  rewrite g_port_generate. apply draw_port_in_list; assumption.
Qed.

Lemma reachable_port_is_in_the_list_witness :
  exists p, variate ported_fuzzer 4 = Some p /\ In p (array_elements ported_ports).
Proof.
  apply (reachable_port_is_in_the_list quiet_device ported_fuzzer ported_ports).
  - apply (reach_set_ports quiet_device fresh_fuzzer ports_0x80 fresh_world true
             ported_fuzzer ported_world fresh_fuzzer_reachable fresh_world_live ports_0x80_ok).
    vm_compute. reflexivity.
  - reflexivity.
  - reflexivity.
Defined.
